(** * Order lifecycle and stock reservation engine

    A shallow embedding of the order service (checkout, processPayment,
    getOrderById, cancelOrder) and of the admin service (updateOrderStatus)
    of the e-commerce API, over an explicit document store.

    Modelling conventions.
    - MongoDB collections are finite maps from ObjectIds to documents;
      ObjectIds are [positive] numbers.  The [Payment] collection is kept as a
      list in creation order.
    - JavaScript numbers that hold quantities, counters and timestamps are
      integers ([Z]).  Prices and totals are taken as integers as well;
      their sums and products are written in the order in which the code
      evaluates them (the order total is accumulated from 0, item after
      item, as [total + price * quantity]), and no statement about a total
      rearranges them, so none relies on a law that floating-point
      arithmetic lacks.
    - Every service function is a computation in the monad [Db]: it takes the
      store, and returns either the thrown error or the returned value,
      together with the store as the call left it.  A thrown error keeps the
      writes made before the throw, as awaited [save()] calls do.
    - A session transaction runs its body on the store and publishes the
      writes on [commitTransaction]; [abortTransaction] discards them.
    - The schema bounds of the models ([min: 0], [min: 1]) are enforced by
      the models whenever a document is created or saved, so stored
      documents satisfy them; they are the predicates [stock_invariant]
      (which includes [reservedStock >= 0] and [stock >= 0]), [valid_order]
      and [valid_cart] below, assumed where a statement depends on them and
      not re-checked by the model's [save] and [create].  Two checks do not
      follow from the stored documents and are made by the model: the
      unique index on [Payment.transactionId], by [Payment_create], and the
      cast of the computed [paymentDeadline] to a Date, by [Order_create].
    - The clock reading [Date.now()], the environment variable
      [ORDER_PAYMENT_TIMEOUT_MINUTES] and the generated transaction
      identifier are inputs of the calls.  The in-process timer armed by
      [scheduleOrderCancellation] and the confirmation e-mail queue do not
      touch the store; a timer that fires is a call of [cancelOrder]. *)

From Stdlib Require Import ZArith Lia.
From stdpp Require Import gmap list strings.

Local Open Scope Z_scope.

(** ** Documents *)

Abbreviation ObjectId := positive.

(** [ORDER_STATUS] of models/Order.js. *)
Inductive OrderStatus :=
  | PENDING_PAYMENT
  | PAID
  | SHIPPED
  | DELIVERED
  | CANCELLED.

(** [PAYMENT_STATUS] of models/Payment.js. *)
Inductive PaymentStatus :=
  | SUCCESS
  | FAILED.

#[global] Instance OrderStatus_eq_dec : EqDecision OrderStatus.
Proof. solve_decision. Defined.

#[global] Instance PaymentStatus_eq_dec : EqDecision PaymentStatus.
Proof. solve_decision. Defined.

(** models/Product.js, the fields the engine reads or writes. *)
Record Product := mkProduct {
  price : Z;
  stock : Z;
  reservedStock : Z;
}.

(** models/Cart.js: one line of a cart. *)
Record CartItem := mkCartItem {
  cartProductId : ObjectId;
  cartQuantity : Z;
}.

(** models/Order.js: [orderItemSchema]. *)
Record OrderItem := mkOrderItem {
  productId : ObjectId;
  quantity : Z;
  priceAtPurchase : Z;
}.

(** models/Order.js: [orderSchema]. *)
Record Order := mkOrder {
  userId : ObjectId;
  items : list OrderItem;
  totalAmount : Z;
  status : OrderStatus;
  paymentDeadline : Z;
}.

(** models/Payment.js: [paymentSchema]. *)
Record Payment := mkPayment {
  paymentOrderId : ObjectId;
  transactionId : string;
  amount : Z;
  paymentStatus : PaymentStatus;
}.

(** The collections.  A cart is keyed by its (unique) [userId]. *)
Record Store := mkStore {
  products : gmap positive Product;
  carts : gmap positive (list CartItem);
  orders : gmap positive Order;
  payments : list Payment;
}.

Definition set_products (f : gmap positive Product → gmap positive Product)
    (st : Store) : Store :=
  mkStore (f (products st)) (carts st) (orders st) (payments st).

Definition set_carts (f : gmap positive (list CartItem) → gmap positive (list CartItem))
    (st : Store) : Store :=
  mkStore (products st) (f (carts st)) (orders st) (payments st).

Definition set_orders (f : gmap positive Order → gmap positive Order)
    (st : Store) : Store :=
  mkStore (products st) (carts st) (f (orders st)) (payments st).

Definition set_payments (f : list Payment → list Payment) (st : Store) : Store :=
  mkStore (products st) (carts st) (orders st) (f (payments st)).

Definition set_status (s : OrderStatus) (o : Order) : Order :=
  mkOrder (userId o) (items o) (totalAmount o) s (paymentDeadline o).

Definition set_reservedStock (r : Z) (p : Product) : Product :=
  mkProduct (price p) (stock p) r.

(** ** Errors

    One constructor per [throw] site; [statusCode] is the code the error
    handler reports. *)
Inductive Error :=
  | CartEmpty                                   (* 'Cart is empty' *)
  | NullProductRef                              (* TypeError: item.productId is null *)
  | ProductNotFound                             (* 'Product ... not found' *)
  | InsufficientStock (available : Z)           (* 'Insufficient stock ... Only n items available' *)
  | OrderNotFound                               (* 'Order not found' *)
  | Unauthorized                                (* 'Unauthorized access to order' *)
  | InvalidState (current : OrderStatus)        (* 'Cannot process payment for order with status: s' *)
  | DeadlineExpired                             (* 'Payment deadline has passed' *)
  | StockCalculationError                       (* 'Stock calculation error' *)
  | DuplicateKey                                (* E11000 on the unique transactionId index *)
  | InvalidTransition (from to : OrderStatus)   (* 'Invalid status transition from s to t' *)
  | ValidationError.                            (* mongoose ValidationError of Order.create *)

Definition statusCode (e : Error) : Z :=
  match e with
  | CartEmpty => 400
  | NullProductRef => 500
  | ProductNotFound => 404
  | InsufficientStock _ => 400
  | OrderNotFound => 404
  | Unauthorized => 403
  | InvalidState _ => 400
  | DeadlineExpired => 400
  | StockCalculationError => 500
  | DuplicateKey => 400
  | InvalidTransition _ _ => 400
  | ValidationError => 400
  end.

(** ** The store monad *)

Definition Db (A : Type) : Type := Store → (Error + A) * Store.

Definition ret {A} (a : A) : Db A := λ st, (inr a, st).

Definition throw {A} (e : Error) : Db A := λ st, (inl e, st).

Definition bind {A B} (k : A → Db B) (m : Db A) : Db B := λ st,
  match m st with
  | (inl e, st') => (inl e, st')
  | (inr a, st') => k a st'
  end.

#[global] Instance Db_ret : MRet Db := @ret.
#[global] Instance Db_bind : MBind Db := @bind.

(** How a transaction body ends: [session.commitTransaction()] before the
    return, or [session.abortTransaction()] before the return. *)
Inductive TxEnd (A : Type) :=
  | TxCommit (a : A)
  | TxAbort (a : A).
Arguments TxCommit {A} a.
Arguments TxAbort {A} a.

(** [startTransaction(); try { body } catch (e) { abortTransaction(); throw e }]:
    the body's writes become visible on commit and are discarded on abort. *)
Definition transaction {A} (body : Db (TxEnd A)) : Db A := λ st,
  match body st with
  | (inr (TxCommit a), st') => (inr a, st')
  | (inr (TxAbort a), _) => (inr a, st)
  | (inl e, _) => (inl e, st)
  end.

(** ** Model operations *)

Definition Product_findById (pid : ObjectId) : Db (option Product) :=
  λ st, (inr (products st !! pid), st).

Definition Product_save (pid : ObjectId) (p : Product) : Db unit :=
  λ st, (inr tt, set_products (insert pid p) st).

Definition Order_findById (oid : ObjectId) : Db (option Order) :=
  λ st, (inr (orders st !! oid), st).

Definition Order_save (oid : ObjectId) (o : Order) : Db unit :=
  λ st, (inr tt, set_orders (insert oid o) st).

(** [Order.create]: the document is validated and stored under a fresh
    [_id].  [deadline] is the time value of the [paymentDeadline] passed,
    [None] for an Invalid Date, which the cast to Date refuses with a
    ValidationError before anything is stored. *)
Definition Order_create (uid : ObjectId) (orderItems : list OrderItem) (total : Z)
    (s : OrderStatus) (deadline : option Z) : Db (ObjectId * Order) :=
  λ st, match deadline with
        | None => (inl ValidationError, st)
        | Some paymentDeadline =>
            let o := mkOrder uid orderItems total s paymentDeadline in
            let oid := fresh (dom (orders st)) in
            (inr (oid, o), set_orders (insert oid o) st)
        end.

(** [Payment.create], with the unique index on [transactionId]. *)
Definition Payment_create (p : Payment) : Db Payment :=
  λ st, if decide (transactionId p ∈ transactionId <$> payments st)
        then (inl DuplicateKey, st)
        else (inr p, set_payments (λ l, l ++ [p]) st).

(** [Cart.findOneAndUpdate({ userId }, { items: [] })]: no upsert. *)
Definition Cart_clear (uid : ObjectId) : Db unit :=
  λ st, (inr tt, set_carts (alter (λ _, []) uid) st).

(** A cart line after [populate('items.productId')]: the reference is
    replaced by the product document, or by [null] when there is none.  Of
    the populated document only [_id] is read. *)
Record PopulatedCartItem := mkPopulated {
  populatedId : option ObjectId;
  populatedQuantity : Z;
}.

Definition populateCartItem (st : Store) (it : CartItem) : PopulatedCartItem :=
  mkPopulated
    (match products st !! cartProductId it with
     | Some _ => Some (cartProductId it)
     | None => None
     end)
    (cartQuantity it).

(** [Cart.findOne({ userId }).populate('items.productId')]. *)
Definition Cart_findOne_populated (uid : ObjectId) : Db (option (list PopulatedCartItem)) :=
  λ st, (inr ((λ cart : list CartItem, populateCartItem st <$> cart) <$> carts st !! uid), st).

(** ** Checkout *)

(** The value of [process.env.ORDER_PAYMENT_TIMEOUT_MINUTES]: unset or
    empty, a string that reads as the integer [m], or a string that reads
    as no number.  Strings that read as a fraction are not modelled. *)
Inductive TimeoutSetting :=
  | TimeoutUnset
  | TimeoutMinutes (m : Z)
  | TimeoutNotANumber.

(** [(process.env.ORDER_PAYMENT_TIMEOUT_MINUTES || 15) * 60 * 1000], [None]
    for [NaN]. *)
Definition paymentTimeoutMs (env : TimeoutSetting) : option Z :=
  match env with
  | TimeoutUnset => Some (15 * 60 * 1000)
  | TimeoutMinutes m => Some (m * 60 * 1000)
  | TimeoutNotANumber => None
  end.

(** The time values of a Date lie within 8.64e15 ms of the epoch. *)
Definition maxTime : Z := 8640000000000000.

(** [new Date(Date.now() + timeout)]: the time value, or [None] for an
    Invalid Date (the sum is [NaN] or out of range). *)
Definition newDate (now : Z) (timeout : option Z) : option Z :=
  match timeout with
  | Some ms => if decide (- maxTime ≤ now + ms ≤ maxTime) then Some (now + ms) else None
  | None => None
  end.

(** The body of [for (const item of cart.items)] in checkout, with the
    accumulators [orderItems] and [totalAmount].  The two checkout functions
    run the same loop; the transactional one passes its session to
    [findById] and [save]. *)
Fixpoint reserveLoop (cartItems : list PopulatedCartItem)
    (orderItems : list OrderItem) (total : Z) : Db (list OrderItem * Z) :=
  match cartItems with
  | [] => ret (orderItems, total)
  | item :: rest =>
      match populatedId item with
      | None => throw NullProductRef
      | Some pid =>
          found ← Product_findById pid;
          match found with
          | None => throw ProductNotFound
          | Some product =>
              let availableStock := stock product - reservedStock product in
              if availableStock <? populatedQuantity item
              then throw (InsufficientStock availableStock)
              else
                Product_save pid
                  (set_reservedStock (reservedStock product + populatedQuantity item) product);;
                reserveLoop rest
                  (orderItems ++ [mkOrderItem pid (populatedQuantity item) (price product)])
                  (total + price product * populatedQuantity item)
          end
      end
  end.

Definition checkoutWithoutTransaction (env : TimeoutSetting) (now : Z) (uid : ObjectId)
    : Db (ObjectId * Order) :=
  cart ← Cart_findOne_populated uid;
  match cart with
  | None => throw CartEmpty
  | Some cartItems =>
      if decide (length cartItems = 0%nat) then throw CartEmpty
      else
        '(orderItems, total) ← reserveLoop cartItems [] 0;
        let paymentDeadline := newDate now (paymentTimeoutMs env) in
        Order_create uid orderItems total PENDING_PAYMENT paymentDeadline
  end.

Definition checkoutWithTransaction (env : TimeoutSetting) (now : Z) (uid : ObjectId)
    : Db (ObjectId * Order) :=
  transaction (
    cart ← Cart_findOne_populated uid;
    match cart with
    | None => throw CartEmpty
    | Some cartItems =>
        if decide (length cartItems = 0%nat) then throw CartEmpty
        else
          '(orderItems, total) ← reserveLoop cartItems [] 0;
          let paymentDeadline := newDate now (paymentTimeoutMs env) in
          order ← Order_create uid orderItems total PENDING_PAYMENT paymentDeadline;
          ret (TxCommit order)
    end).

Definition checkout (useTransactions : bool) (env : TimeoutSetting) (now : Z) (uid : ObjectId)
    : Db (ObjectId * Order) :=
  if useTransactions then checkoutWithTransaction env now uid
  else checkoutWithoutTransaction env now uid.

(** ** Payment *)

(** The body of [for (const item of order.items)] in processPayment (the
    same loop in both functions, up to the session argument). *)
Fixpoint commitLoop (orderItems : list OrderItem) : Db unit :=
  match orderItems with
  | [] => ret tt
  | item :: rest =>
      found ← Product_findById (productId item);
      match found with
      | None => throw ProductNotFound
      | Some product =>
          let newReserved := reservedStock product - quantity item in
          let newStock := stock product - quantity item in
          if (newReserved <? 0) || (newStock <? 0)
          then throw StockCalculationError
          else
            Product_save (productId item) (mkProduct (price product) newStock newReserved);;
            commitLoop rest
      end
  end.

Definition processPaymentWithoutTransaction (now : Z) (txn : string)
    (orderId uid : ObjectId) : Db (Order * Payment) :=
  found ← Order_findById orderId;
  match found with
  | None => throw OrderNotFound
  | Some order =>
      if decide (userId order ≠ uid) then throw Unauthorized
      else if decide (status order ≠ PENDING_PAYMENT) then throw (InvalidState (status order))
      else if paymentDeadline order <? now then throw DeadlineExpired
      else
        commitLoop (items order);;
        let paid := set_status PAID order in
        Order_save orderId paid;;
        payment ← Payment_create (mkPayment orderId txn (totalAmount order) SUCCESS);
        Cart_clear uid;;
        ret (paid, payment)
  end.

Definition processPaymentWithTransaction (now : Z) (txn : string)
    (orderId uid : ObjectId) : Db (Order * Payment) :=
  transaction (
    found ← Order_findById orderId;
    match found with
    | None => throw OrderNotFound
    | Some order =>
        if decide (userId order ≠ uid) then throw Unauthorized
        else if decide (status order ≠ PENDING_PAYMENT) then throw (InvalidState (status order))
        else if paymentDeadline order <? now then throw DeadlineExpired
        else
          commitLoop (items order);;
          let paid := set_status PAID order in
          Order_save orderId paid;;
          payment ← Payment_create (mkPayment orderId txn (totalAmount order) SUCCESS);
          Cart_clear uid;;
          ret (TxCommit (paid, payment))
    end).

Definition processPayment (useTransactions : bool) (now : Z) (txn : string)
    (orderId uid : ObjectId) : Db (Order * Payment) :=
  if useTransactions then processPaymentWithTransaction now txn orderId uid
  else processPaymentWithoutTransaction now txn orderId uid.

(** ** Reading an order *)

(** [Order.findById(orderId).populate('items.productId')]: the order with,
    for each item, the referenced product document or [null]. *)
Definition Order_findById_populated (oid : ObjectId)
    : Db (option (Order * list (option Product))) :=
  λ st, (inr ((λ o, (o, (λ it, products st !! productId it) <$> items o))
                <$> orders st !! oid), st).

Definition getOrderById (orderId uid : ObjectId) : Db (Order * list (option Product)) :=
  found ← Order_findById_populated orderId;
  match found with
  | None => throw OrderNotFound
  | Some order =>
      if decide (userId (fst order) ≠ uid) then throw Unauthorized
      else ret order
  end.

(** ** Cancellation *)

(** The body of [for (const item of order.items)] in cancelOrder. *)
Fixpoint releaseLoop (orderItems : list OrderItem) : Db unit :=
  match orderItems with
  | [] => ret tt
  | item :: rest =>
      found ← Product_findById (productId item);
      match found with
      | Some product =>
          let decremented := reservedStock product - quantity item in
          let clamped := if decremented <? 0 then 0 else decremented in
          Product_save (productId item) (set_reservedStock clamped product);;
          releaseLoop rest
      | None => releaseLoop rest
      end
  end.

Definition cancelOrderWithoutTransaction (orderId : ObjectId) : Db (option Order) :=
  found ← Order_findById orderId;
  match found with
  | None => ret None
  | Some order =>
      if decide (status order ≠ PENDING_PAYMENT) then ret None
      else
        releaseLoop (items order);;
        let cancelled := set_status CANCELLED order in
        Order_save orderId cancelled;;
        ret (Some cancelled)
  end.

Definition cancelOrderWithTransaction (orderId : ObjectId) : Db (option Order) :=
  transaction (
    found ← Order_findById orderId;
    match found with
    | None => ret (TxAbort None)
    | Some order =>
        if decide (status order ≠ PENDING_PAYMENT) then ret (TxAbort None)
        else
          releaseLoop (items order);;
          let cancelled := set_status CANCELLED order in
          Order_save orderId cancelled;;
          ret (TxCommit (Some cancelled))
    end).

Definition cancelOrder (useTransactions : bool) (orderId : ObjectId) : Db (option Order) :=
  if useTransactions then cancelOrderWithTransaction orderId
  else cancelOrderWithoutTransaction orderId.

(** ** Admin status update (services/adminService.js) *)

Definition validTransitions (s : OrderStatus) : list OrderStatus :=
  match s with
  | PENDING_PAYMENT => [CANCELLED]
  | PAID => [SHIPPED; CANCELLED]
  | SHIPPED => [DELIVERED]
  | DELIVERED => []
  | CANCELLED => []
  end.

Definition updateOrderStatus (orderId : ObjectId) (newStatus : OrderStatus) : Db Order :=
  found ← Order_findById orderId;
  match found with
  | None => throw OrderNotFound
  | Some order =>
      let allowedStatuses := validTransitions (status order) in
      if bool_decide (newStatus ∈ allowedStatuses)
      then
        let updated := set_status newStatus order in
        Order_save orderId updated;;
        ret updated
      else throw (InvalidTransition (status order) newStatus)
  end.

(** ** Engine operations and runs *)

Inductive Op :=
  | OpCheckout (useTransactions : bool) (env : TimeoutSetting) (now : Z) (uid : ObjectId)
  | OpProcessPayment (useTransactions : bool) (now : Z) (txn : string) (orderId uid : ObjectId)
  | OpCancelOrder (useTransactions : bool) (orderId : ObjectId)
  | OpUpdateOrderStatus (orderId : ObjectId) (newStatus : OrderStatus).

(** The store an operation leaves behind, whether it returned or threw. *)
Definition step (op : Op) (st : Store) : Store :=
  match op with
  | OpCheckout tx env now uid => snd (checkout tx env now uid st)
  | OpProcessPayment tx now txn oid uid => snd (processPayment tx now txn oid uid st)
  | OpCancelOrder tx oid => snd (cancelOrder tx oid st)
  | OpUpdateOrderStatus oid s => snd (updateOrderStatus oid s st)
  end.

(** The stores after each operation of a sequence, in order. *)
Fixpoint trace (ops : list Op) (st : Store) : list Store :=
  match ops with
  | [] => []
  | op :: rest => step op st :: trace rest (step op st)
  end.

(** ** Schema bounds and the stock invariant *)

(** [0 ≤ reservedStock ≤ stock]. *)
Definition stock_invariant (p : Product) : Prop :=
  0 ≤ reservedStock p ∧ reservedStock p ≤ stock p.

Definition products_invariant (st : Store) : Prop :=
  map_Forall (λ _ p, stock_invariant p) (products st).

(** [orderItemSchema]: [quantity] has [min: 1]. *)
Definition valid_order (o : Order) : Prop :=
  Forall (λ it, 1 ≤ quantity it) (items o).

(** [cartItemSchema]: [quantity] has [min: 1]. *)
Definition valid_cart (c : list CartItem) : Prop :=
  Forall (λ it, 1 ≤ cartQuantity it) c.

Definition valid_documents (st : Store) : Prop :=
  map_Forall (λ _ o, valid_order o) (orders st) ∧
  map_Forall (λ _ c, valid_cart c) (carts st).

#[global] Instance stock_invariant_dec p : Decision (stock_invariant p).
Proof. unfold stock_invariant. apply _. Defined.

#[global] Instance products_invariant_dec st : Decision (products_invariant st).
Proof. unfold products_invariant. apply _. Defined.

#[global] Instance valid_order_dec o : Decision (valid_order o).
Proof. unfold valid_order. apply _. Defined.

#[global] Instance valid_cart_dec c : Decision (valid_cart c).
Proof. unfold valid_cart. apply _. Defined.

#[global] Instance valid_documents_dec st : Decision (valid_documents st).
Proof. unfold valid_documents. apply _. Defined.

(** Units of product [pid] on the lines of an order. *)
Definition orderedQuantity (pid : ObjectId) (orderItems : list OrderItem) : Z :=
  foldr (λ it acc, (if decide (productId it = pid) then quantity it else 0) + acc) 0 orderItems.

(** The total of an order as checkout accumulates it: from 0, item after
    item, [totalAmount += price * quantity]. *)
Definition subtotals (orderItems : list OrderItem) : Z :=
  foldl (λ total it, total + priceAtPurchase it * quantity it) 0 orderItems.

(** Units of product [pid] on the lines of a cart. *)
Definition cartedQuantity (pid : ObjectId) (cart : list CartItem) : Z :=
  foldr (λ it acc, (if decide (cartProductId it = pid) then cartQuantity it else 0) + acc) 0 cart.

(** ** The checks of the loops, read on the store before the call *)

(** [product.stock - product.reservedStock] of product [pid] as the
    reservation loop reads it once the cart lines [before] are reserved;
    [None] when there is no such product. *)
Definition availableAfter (st : Store) (before : list CartItem) (pid : ObjectId) : option Z :=
  (λ p, stock p - (reservedStock p + cartedQuantity pid before)) <$> products st !! pid.

(** The error that the reservation of [line] throws once the lines [before]
    are reserved, [None] when the line is reserved. *)
Definition reservationError (st : Store) (before : list CartItem) (line : CartItem)
    : option Error :=
  match availableAfter st before (cartProductId line) with
  | None => Some NullProductRef
  | Some available =>
      if available <? cartQuantity line then Some (InsufficientStock available) else None
  end.

(** The first [k] lines of the cart are reserved one after the other. *)
Definition reservedLines (st : Store) (cart : list CartItem) (k : nat) : Prop :=
  ∀ i line, (i < k)%nat → cart !! i = Some line →
    reservationError st (take i cart) line = None.

(** The error that the commit of [item] throws once the items [before] are
    committed, [None] when the item is committed. *)
Definition commitError (st : Store) (before : list OrderItem) (item : OrderItem)
    : option Error :=
  match products st !! productId item with
  | None => Some ProductNotFound
  | Some p =>
      let committed := orderedQuantity (productId item) before in
      if (reservedStock p - committed - quantity item <? 0)
         || (stock p - committed - quantity item <? 0)
      then Some StockCalculationError else None
  end.

(** The first [k] items of the order are committed one after the other. *)
Definition committedItems (st : Store) (orderItems : list OrderItem) (k : nat) : Prop :=
  ∀ i item, (i < k)%nat → orderItems !! i = Some item →
    commitError st (take i orderItems) item = None.

(** ** The Stock Ledger operations, as functions on one product

    These describe what one iteration of each loop writes; the lemmas below
    relate the loops to them. *)

(** reserve: [reservedStock += q]. *)
Definition reservedBy (q : Z) (p : Product) : Product :=
  mkProduct (price p) (stock p) (reservedStock p + q).

(** commit: [reservedStock -= q; stock -= q]. *)
Definition committedBy (q : Z) (p : Product) : Product :=
  mkProduct (price p) (stock p - q) (reservedStock p - q).

(** release of [q] units from a counter [r], clamped at zero. *)
Definition releaseUnits (q r : Z) : Z :=
  if r - q <? 0 then 0 else r - q.

(** The counter of product [pid] after the releases of an order's items, one
    per item, in item order. *)
Definition releasedStock (pid : ObjectId) (orderItems : list OrderItem) (r : Z) : Z :=
  foldl (λ r it, if decide (productId it = pid) then releaseUnits (quantity it) r else r)
        r orderItems.

Definition releasedBy (pid : ObjectId) (orderItems : list OrderItem) (p : Product) : Product :=
  mkProduct (price p) (stock p) (releasedStock pid orderItems (reservedStock p)).

(** ** Transactions and the sequential bodies *)

(** What the transaction wrapper makes of the outcome [r] of a body started
    on [st]: a returned value is committed with the body's writes, a thrown
    error aborts and leaves [st]. *)
Definition inTransaction {A} (st : Store) (r : (Error + A) * Store) : (Error + A) * Store :=
  match r with
  | (inl e, _) => (inl e, st)
  | (inr a, st') => (inr a, st')
  end.

(** The user's cart lines, none when there is no cart document. *)
Definition cartOf (uid : ObjectId) (st : Store) : list CartItem :=
  default [] (carts st !! uid).

(** The invariant carried along a run of the engine: the stock invariant of
    every product, and the schema bounds of the stored orders and carts. *)
Definition engine_invariant (st : Store) : Prop :=
  products_invariant st ∧ valid_documents st.

#[global] Instance engine_invariant_dec st : Decision (engine_invariant st).
Proof. unfold engine_invariant. apply _. Defined.

(** ** The transition table of the specification (§4.2)

    Each destination is listed with the actors the table names for it:
    PENDING_PAYMENT to PAID (via payment), CANCELLED (via timeout or admin);
    PAID to SHIPPED, CANCELLED (admin only); SHIPPED to DELIVERED (admin
    only); DELIVERED and CANCELLED to nothing. *)
Inductive Actor :=
  | ViaPayment
  | ViaTimeout
  | ViaAdmin.

#[global] Instance Actor_eq_dec : EqDecision Actor.
Proof. solve_decision. Defined.

Definition transitionTable (from : OrderStatus) : list (OrderStatus * list Actor) :=
  match from with
  | PENDING_PAYMENT => [(PAID, [ViaPayment]); (CANCELLED, [ViaTimeout; ViaAdmin])]
  | PAID => [(SHIPPED, [ViaAdmin]); (CANCELLED, [ViaAdmin])]
  | SHIPPED => [(DELIVERED, [ViaAdmin])]
  | DELIVERED => []
  | CANCELLED => []
  end.

(** A transition the table lists for the admin gate. *)
Definition listedForAdmin (from to : OrderStatus) : bool :=
  existsb (λ entry, bool_decide (entry.1 = to) && bool_decide (ViaAdmin ∈ entry.2))
    (transitionTable from).

(** ** Statements that the code does not satisfy *)

(** A checkout that fails on a cart of two or more lines leaves every
    product's [reservedStock] as it was. *)
Definition checkout_failure_restores_reservations (useTransactions : bool) : Prop :=
  ∀ env now uid st e st',
    (2 ≤ length (cartOf uid st))%nat →
    checkout useTransactions env now uid st = (inl e, st') →
    ∀ pid, reservedStock <$> products st' !! pid = reservedStock <$> products st !! pid.

(** A payment that fails on an item (product missing, or a counter that
    would go negative) changes no product, leaves the order pending and
    creates no payment. *)
Definition payment_failure_commits_nothing (useTransactions : bool) : Prop :=
  ∀ now txn oid uid st e st',
    processPayment useTransactions now txn oid uid st = (inl e, st') →
    e = ProductNotFound ∨ e = StockCalculationError →
    products st' = products st ∧
    status <$> orders st' !! oid = Some PENDING_PAYMENT ∧
    payments st' = payments st.

(** An admin cancellation of a pending order releases the reservation of
    every item, as [cancelOrder] does. *)
Definition admin_cancellation_releases : Prop :=
  ∀ oid st o updated st',
    orders st !! oid = Some o →
    status o = PENDING_PAYMENT →
    updateOrderStatus oid CANCELLED st = (inr updated, st') →
    status updated = CANCELLED ∧
    ∀ pid, products st' !! pid = releasedBy pid (items o) <$> products st !! pid.

(** ** Example stores *)

(** Two products, and a cart of user 9 whose second line asks for more than
    the two available units of product 2. *)
Definition shortStockStore : Store :=
  mkStore
    (<[1%positive := mkProduct 5 10 0]> (<[2%positive := mkProduct 7 3 1]> ∅))
    (<[9%positive := [mkCartItem 1 2; mkCartItem 2 5]]> ∅)
    ∅
    [].

(** One product with ten units, and a cart of user 9 asking for two. *)
Definition shopStore : Store :=
  mkStore
    (<[1%positive := mkProduct 5 10 0]> ∅)
    (<[9%positive := [mkCartItem 1 2]]> ∅)
    ∅
    [].

(** [shopStore] after user 9 checked out at time 1000: order 1 is pending
    with deadline 901000, two units of product 1 are reserved. *)
Definition pendingStore : Store :=
  mkStore
    (<[1%positive := mkProduct 5 10 2]> ∅)
    (<[9%positive := [mkCartItem 1 2]]> ∅)
    (<[1%positive := mkOrder 9 [mkOrderItem 1 2 5] 10 PENDING_PAYMENT 901000]> ∅)
    [].

(** A pending order of user 9 with two items.  Product 2, which the second
    item references, was deleted from the catalogue after the checkout. *)
Definition deletedProductStore : Store :=
  mkStore
    (<[1%positive := mkProduct 5 10 2]> ∅)
    (<[9%positive := [mkCartItem 1 2; mkCartItem 2 1]]> ∅)
    (<[1%positive := mkOrder 9 [mkOrderItem 1 2 5; mkOrderItem 2 1 7] 17 PENDING_PAYMENT 901000]> ∅)
    [].

(** Order 1 of user 9 after payment, shipping and delivery. *)
Definition deliveredStore : Store :=
  mkStore
    (<[1%positive := mkProduct 5 8 0]> ∅)
    (<[9%positive := []]> ∅)
    (<[1%positive := mkOrder 9 [mkOrderItem 1 2 5] 10 DELIVERED 901000]> ∅)
    [mkPayment 1 "TXN-2000-A1" 10 SUCCESS].

(** * The engine as a whole: what an operation can do to the store *)

(** ** The order lifecycle *)

(** One status change that the engine performs: the payment of a pending
    order, or a change that [validTransitions] lists (the cancellation of a
    pending order is one of them). *)
Definition lifecycleStep (from to : OrderStatus) : Prop :=
  (from = PENDING_PAYMENT ∧ to = PAID) ∨ to ∈ validTransitions from.

(** The fields of an order that are written at creation only. *)
Definition sameSnapshot (o o' : Order) : Prop :=
  userId o' = userId o ∧ items o' = items o ∧
  totalAmount o' = totalAmount o ∧ paymentDeadline o' = paymentDeadline o.

(** Every order of [st] is still in [st'], with the same snapshot and a
    status reached by lifecycle steps. *)
Definition orders_evolve (st st' : Store) : Prop :=
  ∀ oid o, orders st !! oid = Some o →
    ∃ o', orders st' !! oid = Some o' ∧ sameSnapshot o o' ∧
          rtc lifecycleStep (status o) (status o').

(** ** Payment records *)

(** At most one payment per order and per transaction identifier; every
    payment is a SUCCESS for the total of an order that has left
    PENDING_PAYMENT. *)
Definition payments_invariant (st : Store) : Prop :=
  NoDup (paymentOrderId <$> payments st) ∧
  NoDup (transactionId <$> payments st) ∧
  Forall (λ p, paymentStatus p = SUCCESS ∧
               ∃ o, orders st !! paymentOrderId p = Some o ∧
                    amount p = totalAmount o ∧ status o ≠ PENDING_PAYMENT)
         (payments st).

(** ** The catalogue *)

(** The same products, at the same prices, with no more stock. *)
Definition catalogue_kept (st st' : Store) : Prop :=
  ∀ pid,
    match products st !! pid, products st' !! pid with
    | Some p, Some p' => price p' = price p ∧ stock p' ≤ stock p
    | None, None => True
    | _, _ => False
    end.

(** ** Reservations of pending orders *)

(** Units of product [pid] that order [o] holds reserved. *)
Definition pendingUnits (pid : ObjectId) (o : Order) : Z :=
  if decide (status o = PENDING_PAYMENT) then orderedQuantity pid (items o) else 0.

(** Units of product [pid] that the pending orders hold reserved. *)
Definition pendingQuantity (pid : ObjectId) (os : gmap positive Order) : Z :=
  map_fold (λ _ o acc, pendingUnits pid o + acc) 0 os.

Definition reservedOf (pid : ObjectId) (st : Store) : Z :=
  from_option reservedStock 0 (products st !! pid).

(** Every product's [reservedStock] covers the units of its pending orders. *)
Definition reservations_cover (st : Store) : Prop :=
  ∀ pid, pendingQuantity pid (orders st) ≤ reservedOf pid st.

(** Every operation but a payment in the fallback mode. *)
Definition atomicPayment (op : Op) : Prop :=
  match op with
  | OpProcessPayment false _ _ _ _ => False
  | _ => True
  end.

(** ** Effects

    What one call of the engine, returning or throwing, in either mode, can
    have done to the store. *)
Inductive Effect :=
  | NoEffect
  | PartialReserve (uid : ObjectId) (k : nat)
  | CheckedOut (uid oid : ObjectId) (o : Order)
  | PartialCommit (oid : ObjectId) (o : Order) (k : nat)
  | Paid (oid : ObjectId) (o : Order) (txn : string) (recorded : bool)
  | Cancelled (oid : ObjectId) (o : Order)
  | StatusSet (oid : ObjectId) (o : Order) (s : OrderStatus).

Definition effect_holds (eff : Effect) (st st' : Store) : Prop :=
  match eff with
  | NoEffect => st' = st
  | PartialReserve uid k =>
      carts st' = carts st ∧ orders st' = orders st ∧ payments st' = payments st ∧
      ∀ pid, products st' !! pid
             = reservedBy (cartedQuantity pid (take k (cartOf uid st))) <$> products st !! pid
  | CheckedOut uid oid o =>
      orders st !! oid = None ∧ orders st' = <[oid := o]> (orders st) ∧
      carts st' = carts st ∧ payments st' = payments st ∧
      userId o = uid ∧ status o = PENDING_PAYMENT ∧
      Forall2 (λ line it,
        productId it = cartProductId line ∧
        quantity it = cartQuantity line ∧
        ∃ p, products st !! cartProductId line = Some p ∧ priceAtPurchase it = price p)
        (cartOf uid st) (items o) ∧
      ∀ pid, products st' !! pid
             = reservedBy (cartedQuantity pid (cartOf uid st)) <$> products st !! pid
  | PartialCommit oid o k =>
      orders st !! oid = Some o ∧ status o = PENDING_PAYMENT ∧
      orders st' = orders st ∧ payments st' = payments st ∧ carts st' = carts st ∧
      ∀ pid, products st' !! pid
             = committedBy (orderedQuantity pid (take k (items o))) <$> products st !! pid
  | Paid oid o txn recorded =>
      orders st !! oid = Some o ∧ status o = PENDING_PAYMENT ∧
      orders st' = <[oid := set_status PAID o]> (orders st) ∧
      (∀ pid, products st' !! pid
              = committedBy (orderedQuantity pid (items o)) <$> products st !! pid) ∧
      (if recorded
       then (txn ∉ transactionId <$> payments st) ∧
            payments st' = payments st ++ [mkPayment oid txn (totalAmount o) SUCCESS] ∧
            carts st' = alter (λ _, []) (userId o) (carts st)
       else payments st' = payments st ∧ carts st' = carts st)
  | Cancelled oid o =>
      orders st !! oid = Some o ∧ status o = PENDING_PAYMENT ∧
      orders st' = <[oid := set_status CANCELLED o]> (orders st) ∧
      carts st' = carts st ∧ payments st' = payments st ∧
      ∀ pid, products st' !! pid = releasedBy pid (items o) <$> products st !! pid
  | StatusSet oid o s =>
      orders st !! oid = Some o ∧ s ∈ validTransitions (status o) ∧
      orders st' = <[oid := set_status s o]> (orders st) ∧
      products st' = products st ∧ carts st' = carts st ∧ payments st' = payments st
  end.

(** The effects that leave a reservation or a commit half done. *)
Definition partialEffect (eff : Effect) : Prop :=
  match eff with
  | PartialCommit _ _ _ => True
  | _ => False
  end.

(** * Listing orders (getUserOrders of the order service, getAllOrders of
      the admin service)

    The [createdAt] timestamp that [timestamps: true] adds to every order
    is not a field of [Order] above; the listings take it as a function of
    the order's id.  [page] and [limit] are the numbers that the query
    schema of the routes admits, integers from 1 on, hence [positive]; the
    listings are not modelled for other values.  The admin listing also
    populates each order's user (name and e-mail); users are not part of the
    store and that part of the result is left out. *)

From stdpp Require Import sorting.

Local Open Scope Z_scope.

(** The [query] object: [{ userId }], [{ status }], both or none. *)
Record OrderQuery := mkQuery {
  queryUserId : option ObjectId;
  queryStatus : option OrderStatus;
}.

Definition matchesQuery (q : OrderQuery) (o : Order) : bool :=
  match queryUserId q with
  | Some uid => bool_decide (userId o = uid)
  | None => true
  end &&
  match queryStatus q with
  | Some s => bool_decide (status o = s)
  | None => true
  end.

(** [sort({ createdAt: -1 })]: newest first. *)
Definition newerFirst (createdAt : ObjectId → Z) (a b : ObjectId * Order) : Prop :=
  createdAt b.1 ≤ createdAt a.1.

#[global] Instance newerFirst_dec createdAt a b : Decision (newerFirst createdAt a b).
Proof. unfold newerFirst. apply _. Defined.

Definition matching (q : OrderQuery) (st : Store) : list (ObjectId * Order) :=
  filter (λ e, matchesQuery q e.2) (map_to_list (orders st)).

(** The order in which the server meets the documents of one query.  The
    sort leaves orders of equal [createdAt] in that order, and nothing fixes
    it from one query to the next, so every listing takes it as an input:
    a rearrangement of the documents. *)
Definition Scan : Type := list (ObjectId * Order) → list (ObjectId * Order).

Definition rearranges (scan : Scan) : Prop := ∀ l, scan l ≡ₚ l.

(** [Order.find(query).sort({ createdAt: -1 })]. *)
Definition Order_find (createdAt : ObjectId → Z) (scan : Scan) (q : OrderQuery) (st : Store)
    : list (ObjectId * Order) :=
  merge_sort (newerFirst createdAt) (scan (matching q st)).

(** [Order.countDocuments(query)]. *)
Definition Order_countDocuments (q : OrderQuery) (st : Store) : Z :=
  Z.of_nat (length (matching q st)).

(** [.skip(skip).limit(limit)] on a cursor, for a skip that is not negative
    and a limit of 1 or more. *)
Definition skipLimit {A} (skip : nat) (limit : positive) (l : list A) : list A :=
  take (Pos.to_nat limit) (drop skip l).

(** [.populate('items.productId')] on each order of a listing. *)
Definition populateOrder (st : Store) (e : ObjectId * Order)
    : (ObjectId * Order) * list (option Product) :=
  (e, (λ it, products st !! productId it) <$> items e.2).

(** [Math.ceil(a / b)], for [a] that is not negative and [b] of 1 or more. *)
Definition ceilDiv (a : Z) (b : positive) : Z := - ((- a) / Z.pos b).

Record Pagination := mkPagination {
  currentPage : Z;
  totalPages : Z;
  totalItems : Z;
  itemsPerPage : Z;
  hasNextPage : bool;
  hasPrevPage : bool;
}.

(** [(page - 1) * limit]. *)
Definition skipOf (page limit : positive) : nat :=
  (Pos.to_nat page - 1) * Pos.to_nat limit.

(** [getUserOrders(userId, { page, limit, status })]. *)
Definition getUserOrders (createdAt : ObjectId → Z) (scan : Scan) (uid : ObjectId)
    (page limit : positive) (statusFilter : option OrderStatus) (st : Store)
    : list ((ObjectId * Order) * list (option Product)) * Pagination :=
  let query := mkQuery (Some uid) statusFilter in
  let skip := skipOf page limit in
  let found := populateOrder st <$> skipLimit skip limit (Order_find createdAt scan query st) in
  let total := Order_countDocuments query st in
  (found,
   mkPagination (Z.pos page) (ceilDiv total limit) total (Z.pos limit)
     (bool_decide (Z.pos page < ceilDiv total limit)) (bool_decide (Z.pos page > 1))).

(** [getAllOrders({ page, limit, status })] of the admin service. *)
Definition getAllOrders (createdAt : ObjectId → Z) (scan : Scan)
    (page limit : positive) (statusFilter : option OrderStatus) (st : Store)
    : list ((ObjectId * Order) * list (option Product)) * Pagination :=
  let query := mkQuery None statusFilter in
  let skip := skipOf page limit in
  let found := populateOrder st <$> skipLimit skip limit (Order_find createdAt scan query st) in
  let total := Order_countDocuments query st in
  (found,
   mkPagination (Z.pos page) (ceilDiv total limit) total (Z.pos limit)
     (bool_decide (Z.pos page < ceilDiv total limit)) (bool_decide (Z.pos page > 1))).

(** The orders on the pages 1 to [n] of a listing, page after page. *)
Definition pagesUpTo {A} (pageOf : positive → list A) (n : nat) : list A :=
  concat ((λ k, pageOf (Pos.of_succ_nat k)) <$> seq 0 n).

(** No two orders of the store were created at the same time. *)
Definition distinctCreation (createdAt : ObjectId → Z) (st : Store) : Prop :=
  ∀ oid oid', is_Some (orders st !! oid) → is_Some (orders st !! oid') →
    createdAt oid = createdAt oid' → oid = oid'.

(** A store with three orders of two users, listed below with order 3 the
    newest. *)
Definition threeOrdersStore : Store :=
  mkStore
    (<[1%positive := mkProduct 5 10 2]> ∅)
    ∅
    (<[1%positive := mkOrder 9 [mkOrderItem 1 2 5] 10 PENDING_PAYMENT 901000]>
       (<[2%positive := mkOrder 8 [mkOrderItem 1 1 5] 5 CANCELLED 902000]>
          (<[3%positive := mkOrder 9 [mkOrderItem 1 1 5] 5 CANCELLED 903000]> ∅)))
    [].

(** * The cart service and the product service

    Both write documents whose values come from the caller, so here the
    schema bounds are checked where [save()] and [create()] check them. *)

(** A product id as a request carries it: a string of 24 hexadecimal
    digits, in which the route schema admits letters of both cases.
    [Product.findById] and the cast of a pushed cart line read it as the
    ObjectId [requestedId].  [toString()] of an ObjectId writes lower-case
    digits, so the string is equal to [item.productId.toString()] exactly
    when the item holds [requestedId] and the string has no upper-case
    letter ([lowerCase]). *)
Record ProductIdString := mkProductIdString {
  requestedId : ObjectId;
  lowerCase : bool;
}.

(** [item.productId.toString() === productId]. *)
Definition sameIdString (productId : ProductIdString) (item : CartItem) : Prop :=
  lowerCase productId = true ∧ cartProductId item = requestedId productId.

#[global] Instance sameIdString_dec productId item : Decision (sameIdString productId item).
Proof. unfold sameIdString. apply _. Defined.

Inductive CatalogueError :=
  | NoSuchProduct                      (* 404 'Product not found' *)
  | NotEnoughStock (available : Z)     (* 400 'Insufficient stock. Only n items available' *)
  | NoSuchCart                         (* 404 'Cart not found' *)
  | ValidationFailed.                  (* mongoose ValidationError, reported as 400 *)

Definition Svc (A : Type) : Type := Store → (CatalogueError + A) * Store.

Definition svc_ret {A} (a : A) : Svc A := λ st, (inr a, st).

Definition svc_throw {A} (e : CatalogueError) : Svc A := λ st, (inl e, st).

Definition svc_bind {A B} (k : A → Svc B) (m : Svc A) : Svc B := λ st,
  match m st with
  | (inl e, st') => (inl e, st')
  | (inr a, st') => k a st'
  end.

#[global] Instance Svc_ret : MRet Svc := @svc_ret.
#[global] Instance Svc_bind : MBind Svc := @svc_bind.

(** ** Cart service *)

(** [Cart.findOne({ userId })]. *)
Definition Cart_findOne (uid : ObjectId) : Svc (option (list CartItem)) :=
  λ st, (inr (carts st !! uid), st).

(** [Cart.create({ userId, items: [] })]. *)
Definition Cart_create (uid : ObjectId) : Svc (list CartItem) :=
  λ st, (inr [], set_carts (insert uid []) st).

(** [cart.save()]. *)
Definition Cart_save (uid : ObjectId) (cartItems : list CartItem) : Svc unit :=
  λ st, (inr tt, set_carts (insert uid cartItems) st).

(** [cart.populate('items.productId')], as returned to the caller. *)
Definition populatedCart (cartItems : list CartItem) : Svc (list (CartItem * option Product)) :=
  λ st, (inr ((λ it, (it, products st !! cartProductId it)) <$> cartItems), st).

(** [getCart(userId)]. *)
Definition getCart (uid : ObjectId) : Svc (list (CartItem * option Product)) :=
  found ← Cart_findOne uid;
  match found with
  | Some cartItems => populatedCart cartItems
  | None => created ← Cart_create uid; svc_ret ((λ it, (it, None)) <$> created)
  end.

(** [Product.findById(productId)], in the two services. *)
Definition Product_find (pid : ObjectId) : Svc (option Product) :=
  λ st, (inr (products st !! pid), st).

(** [product.save()]. *)
Definition Product_put (pid : ObjectId) (p : Product) : Svc unit :=
  λ st, (inr tt, set_products (insert pid p) st).

(** [Product.findByIdAndDelete(productId)]. *)
Definition Product_remove (pid : ObjectId) : Svc unit :=
  λ st, (inr tt, set_products (delete pid) st).

(** [addToCart(userId, productId, quantity)]. *)
Definition addToCart (uid : ObjectId) (productId : ProductIdString) (qty : Z)
    : Svc (list (CartItem * option Product)) :=
  product ← Product_find (requestedId productId);
  match product with
  | None => svc_throw NoSuchProduct
  | Some product =>
      let availableStock := stock product - reservedStock product in
      if availableStock <? qty then svc_throw (NotEnoughStock availableStock)
      else
        found ← Cart_findOne uid;
        cartItems ← match found with
                    | Some cartItems => svc_ret cartItems
                    | None => Cart_create uid
                    end;
        updated ←
          match list_find (sameIdString productId) cartItems with
          | Some (existingItemIndex, _) =>
              let newQuantity := qty in
              if availableStock <? newQuantity
              then svc_throw (NotEnoughStock availableStock)
              else svc_ret (alter (λ it, mkCartItem (cartProductId it) newQuantity)
                              existingItemIndex cartItems)
          | None => svc_ret (cartItems ++ [mkCartItem (requestedId productId) qty])
          end;
        (if bool_decide (valid_cart updated)
         then Cart_save uid updated else svc_throw ValidationFailed);;
        populatedCart updated
  end.

(** [removeFromCart(userId, productId)]. *)
Definition removeFromCart (uid : ObjectId) (productId : ProductIdString)
    : Svc (list (CartItem * option Product)) :=
  found ← Cart_findOne uid;
  match found with
  | None => svc_throw NoSuchCart
  | Some cartItems =>
      let remaining := filter (λ it, ¬ sameIdString productId it) cartItems in
      (if bool_decide (valid_cart remaining)
       then Cart_save uid remaining else svc_throw ValidationFailed);;
      populatedCart remaining
  end.

(** [clearCart(userId)]. *)
Definition clearCart (uid : ObjectId) : Svc (list CartItem) :=
  found ← Cart_findOne uid;
  match found with
  | None => svc_throw NoSuchCart
  | Some _ => Cart_save uid [];; svc_ret []
  end.

(** ** Product service *)

(** The fields of [productData] that the model keeps; [stock] and
    [reservedStock] have the schema default 0.  The text fields are not
    kept: [dataTextValid] tells whether [name] and [description] pass their
    validators (present, within the length bounds). *)
Record ProductData := mkProductData {
  dataTextValid : bool;
  dataPrice : Z;
  dataStock : option Z;
  dataReservedStock : option Z;
}.

(** The keys of [updateData] that the model keeps; [updateTextValid] tells
    whether [name] and [description] pass their validators after the
    assignment. *)
Record ProductUpdate := mkProductUpdate {
  updateTextValid : bool;
  updatePrice : option Z;
  updateStock : option Z;
  updateReservedStock : option Z;
}.

(** The [min: 0] validators of [productSchema]. *)
Definition validProduct (p : Product) : bool :=
  (0 <=? price p) && (0 <=? stock p) && (0 <=? reservedStock p).

(** [createProduct(productData)]. *)
Definition createProduct (data : ProductData) : Svc (ObjectId * Product) := λ st,
  let product := mkProduct (dataPrice data) (default 0 (dataStock data))
                   (default 0 (dataReservedStock data)) in
  if dataTextValid data && validProduct product
  then let pid := fresh (dom (products st)) in
       (inr (pid, product), set_products (insert pid product) st)
  else (inl ValidationFailed, st).

(** [Object.keys(updateData).forEach((key) => { product[key] = updateData[key]; })]. *)
Definition assignUpdate (upd : ProductUpdate) (p : Product) : Product :=
  mkProduct (default (price p) (updatePrice upd))
            (default (stock p) (updateStock upd))
            (default (reservedStock p) (updateReservedStock upd)).

(** [updateProduct(productId, updateData)]. *)
Definition updateProduct (pid : ObjectId) (upd : ProductUpdate) : Svc Product :=
  found ← Product_find pid;
  match found with
  | None => svc_throw NoSuchProduct
  | Some product =>
      let updated := assignUpdate upd product in
      if updateTextValid upd && validProduct updated
      then Product_put pid updated;; svc_ret updated
      else svc_throw ValidationFailed
  end.

(** [deleteProduct(productId)]. *)
Definition deleteProduct (pid : ObjectId) : Svc Product :=
  found ← Product_find pid;
  match found with
  | None => svc_throw NoSuchProduct
  | Some product => Product_remove pid;; svc_ret product
  end.

(** [getProductById(productId)]. *)
Definition getProductById (pid : ObjectId) : Svc Product :=
  found ← Product_find pid;
  match found with
  | None => svc_throw NoSuchProduct
  | Some product => svc_ret product
  end.

(** The cart after [addToCart]: the first line that [findIndex] matches
    gets the new quantity, or a new line is appended. *)
Definition withLine (productId : ProductIdString) (qty : Z) (cartItems : list CartItem)
    : list CartItem :=
  match list_find (sameIdString productId) cartItems with
  | Some (i, _) => alter (λ it, mkCartItem (cartProductId it) qty) i cartItems
  | None => cartItems ++ [mkCartItem (requestedId productId) qty]
  end.

(** The product id in lower-case digits, as [toString()] writes it. *)
Definition idString (pid : ObjectId) : ProductIdString := mkProductIdString pid true.


(** The calls of the cart service, as the cart routes issue them, and the
    store each leaves. *)
Inductive CartCall :=
  | CallGetCart (uid : ObjectId)
  | CallAddToCart (uid : ObjectId) (productId : ProductIdString) (qty : Z)
  | CallRemoveFromCart (uid : ObjectId) (productId : ProductIdString)
  | CallClearCart (uid : ObjectId).

Definition cartStep (c : CartCall) (st : Store) : Store :=
  match c with
  | CallGetCart uid => snd (getCart uid st)
  | CallAddToCart uid pid qty => snd (addToCart uid pid qty st)
  | CallRemoveFromCart uid pid => snd (removeFromCart uid pid st)
  | CallClearCart uid => snd (clearCart uid st)
  end.

Definition cartRun (cs : list CartCall) (st : Store) : Store :=
  foldl (λ st c, cartStep c st) st cs.

(** The calls that carry their product id, if any, in lower-case digits. *)
Definition lowerCaseCall (c : CartCall) : Prop :=
  match c with
  | CallAddToCart _ productId _ => lowerCase productId = true
  | _ => True
  end.

(** A cart within the schema bounds and with one line per product. *)
Definition cart_wellformed (c : list CartItem) : Prop :=
  valid_cart c ∧ NoDup (cartProductId <$> c).

Definition carts_wellformed (st : Store) : Prop :=
  map_Forall (λ _ c, cart_wellformed c) (carts st).

(** A store with two products and no cart. *)
Definition catalogueStore : Store :=
  mkStore
    (<[1%positive := mkProduct 5 10 0]> (<[2%positive := mkProduct 7 3 1]> ∅))
    ∅ ∅ [].
(** * Properties *)

(** ** The monad and the model operations *)

Ltac db_unfold :=
  unfold mbind, Db_bind, bind, mret, Db_ret, ret, throw,
    Product_findById, Product_save, Order_findById, Order_save,
    Order_create, Cart_clear, Cart_findOne_populated,
    Order_findById_populated in *.

Ltac db_simpl := db_unfold; simpl in *.

Lemma reservedBy_reservedBy a b p :
  reservedBy a (reservedBy b p) = reservedBy (b + a) p.
Proof. unfold reservedBy; simpl. f_equal. lia. Qed.

Lemma reservedBy_0 p : reservedBy 0 p = p.
Proof. destruct p; unfold reservedBy; simpl. f_equal. lia. Qed.

Lemma committedBy_committedBy a b p :
  committedBy a (committedBy b p) = committedBy (b + a) p.
Proof. unfold committedBy; simpl. f_equal; lia. Qed.

Lemma committedBy_0 p : committedBy 0 p = p.
Proof. destruct p; unfold committedBy; simpl. f_equal; lia. Qed.

(** ** The reservation loop *)

(** The loop writes products only. *)
Lemma reserveLoop_frame l : ∀ acc t st res st',
  reserveLoop l acc t st = (res, st') →
  carts st' = carts st ∧ orders st' = orders st ∧ payments st' = payments st.
Proof.
  induction l as [|item rest IH]; intros acc t st res st' H.
  - db_simpl. by inversion H.
  - simpl in H. destruct (populatedId item) as [pid|]; [|db_simpl; by inversion H].
    db_simpl. destruct (products st !! pid) as [p|]; [|by inversion H].
    destruct (_ <? _); [by inversion H|].
    apply IH in H. by simpl in H.
Qed.

(** A run of the loop that returns: the new order items mirror the cart
    lines, the total is the running sum continued over them, and each
    product's [reservedStock] grows by the units ordered of it. *)
Lemma reserveLoop_returns l : ∀ acc t st ois t' st',
  reserveLoop l acc t st = (inr (ois, t'), st') →
  ∃ new,
    ois = acc ++ new ∧
    t' = foldl (λ total it, total + priceAtPurchase it * quantity it) t new ∧
    Forall2 (λ ci oi,
      populatedId ci = Some (productId oi) ∧
      quantity oi = populatedQuantity ci ∧
      ∃ p, products st !! productId oi = Some p ∧ priceAtPurchase oi = price p) l new ∧
    ∀ pid, products st' !! pid
           = reservedBy (orderedQuantity pid new) <$> products st !! pid.
Proof.
  induction l as [|item rest IH]; intros acc t st ois t' st' H.
  - db_simpl. inversion H; subst. exists []. rewrite app_nil_r. simpl.
    split_and!; [done|done|constructor|].
    intros pid. destruct (products st' !! pid) as [p|]; simpl; [|done].
    by rewrite reservedBy_0.
  - simpl in H. destruct (populatedId item) as [pid0|] eqn:Hid; [|db_simpl; by inversion H].
    db_simpl. destruct (products st !! pid0) as [p0|] eqn:Hp0; [|by inversion H].
    destruct (_ <? _); [by inversion H|].
    apply IH in H as (new & -> & -> & Hall & Hprod). simpl in Hprod, Hall.
    exists (mkOrderItem pid0 (populatedQuantity item) (price p0) :: new).
    split_and!.
    + by rewrite <- app_assoc.
    + done.
    + constructor; [simpl; eauto|].
      eapply Forall2_impl; [exact Hall|]. simpl.
      intros ci oi (? & ? & p & Hp & Hprice). split_and!; [done..|].
      destruct (decide (productId oi = pid0)) as [Heq|Hne].
      * rewrite Heq in *. rewrite lookup_insert_eq in Hp. inversion Hp; subst. eauto.
      * rewrite lookup_insert_ne in Hp by done. eauto.
    + intros pid. rewrite Hprod. simpl.
      destruct (decide (pid0 = pid)) as [->|Hne].
      * rewrite lookup_insert_eq, Hp0. simpl. f_equal.
        unfold reservedBy; simpl. f_equal. lia.
      * rewrite lookup_insert_ne by done.
        by replace (0 + orderedQuantity pid new) with (orderedQuantity pid new) by lia.
Qed.

(** The check of a line after the reservation of the line before it, read
    on the store before that reservation. *)
Lemma reservationError_reserved st line p before line' :
  products st !! cartProductId line = Some p →
  reservationError
    (set_products (insert (cartProductId line)
       (set_reservedStock (reservedStock p + cartQuantity line) p)) st) before line'
  = reservationError st (line :: before) line'.
Proof.
  intros Hp. unfold reservationError, availableAfter. simpl.
  destruct (decide (cartProductId line = cartProductId line')) as [Heq|Hne].
  - rewrite Heq in *. rewrite lookup_insert_eq, Hp. simpl.
    by replace (stock p - (reservedStock p + cartQuantity line
                           + cartedQuantity (cartProductId line') before))
      with (stock p - (reservedStock p
                       + (cartQuantity line + cartedQuantity (cartProductId line') before)))
      by lia.
  - rewrite lookup_insert_ne by done.
    destruct (products st !! cartProductId line') as [p'|]; simpl; [|done].
    by replace (0 + cartedQuantity (cartProductId line') before)
      with (cartedQuantity (cartProductId line') before) by lia.
Qed.

Lemma reservedLines_cons st line p rest k :
  products st !! cartProductId line = Some p →
  reservationError st [] line = None →
  reservedLines
    (set_products (insert (cartProductId line)
       (set_reservedStock (reservedStock p + cartQuantity line) p)) st) rest k →
  reservedLines st (line :: rest) (S k).
Proof.
  intros Hp Hfirst Hrest [|i] line' Hi Hline'; simpl in *.
  - by inversion Hline'; subst.
  - rewrite <- (reservationError_reserved st line p) by done.
    apply Hrest; [lia|done].
Qed.

(** The reservation loop, line by line.  A run that returns has reserved
    every line.  A run that throws has reserved the lines before some line
    [k], whose own check threw the error; the reservations of those lines
    stay in the store. *)
Lemma reserveLoop_run st0 cart : ∀ acc t st res st',
  (∀ pid, products st0 !! pid = None ↔ products st !! pid = None) →
  reserveLoop (populateCartItem st0 <$> cart) acc t st = (res, st') →
  match res with
  | inr _ => reservedLines st cart (length cart)
  | inl e =>
      ∃ k line, cart !! k = Some line ∧
        reservedLines st cart k ∧
        reservationError st (take k cart) line = Some e ∧
        ∀ pid, products st' !! pid
               = reservedBy (cartedQuantity pid (take k cart)) <$> products st !! pid
  end.
Proof.
  assert (Hstop : ∀ (st : Store) line (cart : list CartItem) e,
    reservationError st [] line = Some e →
    ∃ k line', (line :: cart) !! k = Some line' ∧
      reservedLines st (line :: cart) k ∧
      reservationError st (take k (line :: cart)) line' = Some e ∧
      ∀ pid, products st !! pid
             = reservedBy (cartedQuantity pid (take k (line :: cart))) <$> products st !! pid).
  { intros st line l e He. exists 0%nat, line. split_and!; [done| |done|].
    - intros i line' Hi. lia.
    - intros pid. simpl. destruct (products st !! pid); simpl; [|done].
      by rewrite reservedBy_0. }
  induction cart as [|it rest IH]; intros acc t st res st' Hdom H.
  - db_simpl. inversion H; subst. intros i line Hi. simpl in Hi. lia.
  - simpl in H. unfold populateCartItem at 1 in H. simpl in H.
    destruct (products st0 !! cartProductId it) as [p0|] eqn:Hp0.
    + destruct (products st !! cartProductId it) as [p|] eqn:Hp;
        [|apply Hdom in Hp; congruence].
      db_simpl. rewrite Hp in H.
      assert (Hcheck : reservationError st [] it
        = if stock p - reservedStock p <? cartQuantity it
          then Some (InsufficientStock (stock p - reservedStock p)) else None).
      { unfold reservationError, availableAfter. rewrite Hp. simpl.
        by rewrite Z.add_0_r. }
      destruct (_ <? _) eqn:Hlt.
      * inversion H; subst. by apply Hstop.
      * apply IH in H.
        2:{ intros pid. simpl. destruct (decide (cartProductId it = pid)) as [<-|Hne].
            - rewrite lookup_insert_eq, Hp0. split; intros; congruence.
            - rewrite lookup_insert_ne by done. apply Hdom. }
        destruct res as [e|r].
        -- destruct H as (k & line & Hline & Hres & Herr & Hprod).
           exists (S k), line. split_and!.
           ++ done.
           ++ by eapply reservedLines_cons.
           ++ simpl. by rewrite <- (reservationError_reserved st it p).
           ++ intros pid. rewrite Hprod. simpl.
              destruct (decide (cartProductId it = pid)) as [Heq|Hne].
              ** rewrite Heq in *. rewrite lookup_insert_eq, Hp. simpl. f_equal.
                 unfold reservedBy; simpl. f_equal. lia.
              ** rewrite lookup_insert_ne by done.
                 by replace (0 + cartedQuantity pid (take k rest))
                   with (cartedQuantity pid (take k rest)) by lia.
        -- simpl. by eapply reservedLines_cons.
    + db_simpl. inversion H; subst. apply Hstop.
      unfold reservationError, availableAfter.
      by rewrite (proj1 (Hdom (cartProductId it)) Hp0).
Qed.

(** reserve keeps [0 ≤ reservedStock ≤ stock]: it is taken only when
    [stock - reservedStock ≥ quantity]. *)
Lemma reserveLoop_invariant l : ∀ acc t st res st',
  Forall (λ it, 0 ≤ populatedQuantity it) l →
  products_invariant st →
  reserveLoop l acc t st = (res, st') →
  products_invariant st'.
Proof.
  induction l as [|item rest IH]; intros acc t st res st' Hq Hinv H.
  - db_simpl. by inversion H; subst.
  - inversion Hq as [|? ? Hq0 Hq']; subst. simpl in H.
    destruct (populatedId item) as [pid|]; [|db_simpl; by inversion H; subst].
    db_simpl. destruct (products st !! pid) as [p|] eqn:Hp; [|by inversion H; subst].
    destruct (_ <? _) eqn:Hlt; [by inversion H; subst|].
    eapply IH in H; [done..|].
    unfold products_invariant in *. simpl.
    apply map_Forall_insert_2; [|done].
    apply Hinv in Hp. unfold stock_invariant in *. simpl. lia.
Qed.

(** ** The commit loop *)

Lemma commitLoop_frame l : ∀ st res st',
  commitLoop l st = (res, st') →
  carts st' = carts st ∧ orders st' = orders st ∧ payments st' = payments st.
Proof.
  induction l as [|item rest IH]; intros st res st' H.
  - db_simpl. by inversion H.
  - simpl in H. db_simpl.
    destruct (products st !! productId item) as [p|]; [|by inversion H].
    destruct (_ || _); [by inversion H|].
    apply IH in H. by simpl in H.
Qed.

Lemma commitLoop_returns l : ∀ st st',
  commitLoop l st = (inr tt, st') →
  ∀ pid, products st' !! pid
         = committedBy (orderedQuantity pid l) <$> products st !! pid.
Proof.
  induction l as [|item rest IH]; intros st st' H pid.
  - db_simpl. inversion H; subst.
    destruct (products st' !! pid); simpl; [|done]. by rewrite committedBy_0.
  - simpl in H. db_simpl.
    destruct (products st !! productId item) as [p|] eqn:Hp; [|by inversion H].
    destruct (_ || _); [by inversion H|].
    rewrite (IH _ _ H pid). simpl.
    destruct (decide (productId item = pid)) as [Heq|Hne].
    + rewrite Heq in *. rewrite lookup_insert_eq, Hp. simpl. f_equal.
      unfold committedBy; simpl. f_equal; lia.
    + rewrite lookup_insert_ne by done.
      by replace (0 + orderedQuantity pid rest) with (orderedQuantity pid rest) by lia.
Qed.

(** A run that throws stops at some item [k]; the commits of the [k] items
    before it stay in the store. *)
Lemma commitLoop_throws l : ∀ st e st',
  commitLoop l st = (inl e, st') →
  (e = ProductNotFound ∨ e = StockCalculationError) ∧
  ∃ k, (k < length l)%nat ∧
    ∀ pid, products st' !! pid
           = committedBy (orderedQuantity pid (take k l)) <$> products st !! pid.
Proof.
  assert (Hstop : ∀ (st : Store) it (l : list OrderItem),
    ∃ k, (k < length (it :: l))%nat ∧
      ∀ pid, products st !! pid
             = committedBy (orderedQuantity pid (take k (it :: l))) <$> products st !! pid).
  { intros st0 it0 l0. exists 0%nat. split; [simpl; lia|]. intros pid. simpl.
    destruct (products st0 !! pid); simpl; [|done]. by rewrite committedBy_0. }
  induction l as [|item rest IH]; intros st e st' H.
  - db_simpl. inversion H.
  - simpl in H. db_simpl.
    destruct (products st !! productId item) as [p|] eqn:Hp;
      [|inversion H; subst; split; [by left|apply Hstop]].
    destruct (_ || _); [inversion H; subst; split; [by right|apply Hstop]|].
    apply IH in H as (He & k & Hk & Hprod). split; [done|]. simpl in Hprod.
    exists (S k). split; [simpl; lia|].
    intros pid. rewrite Hprod. simpl.
    destruct (decide (productId item = pid)) as [Heq|Hne].
    + rewrite Heq in *. rewrite lookup_insert_eq, Hp. simpl. f_equal.
      unfold committedBy; simpl. f_equal; lia.
    + rewrite lookup_insert_ne by done.
      by replace (0 + orderedQuantity pid (take k rest))
        with (orderedQuantity pid (take k rest)) by lia.
Qed.

(** The check of an item after the commit of the item before it, read on
    the store before that commit. *)
Lemma commitError_committed st item p before item' :
  products st !! productId item = Some p →
  commitError
    (set_products (insert (productId item)
       (mkProduct (price p) (stock p - quantity item) (reservedStock p - quantity item))) st)
    before item'
  = commitError st (item :: before) item'.
Proof.
  intros Hp. unfold commitError. simpl.
  destruct (decide (productId item = productId item')) as [Heq|Hne].
  - rewrite Heq in *. rewrite lookup_insert_eq, Hp. simpl.
    replace (reservedStock p - quantity item - orderedQuantity (productId item') before
             - quantity item')
      with (reservedStock p - (quantity item + orderedQuantity (productId item') before)
            - quantity item') by lia.
    by replace (stock p - quantity item - orderedQuantity (productId item') before
                - quantity item')
      with (stock p - (quantity item + orderedQuantity (productId item') before)
            - quantity item') by lia.
  - rewrite lookup_insert_ne by done.
    destruct (products st !! productId item') as [p'|]; simpl; [|done].
    by replace (0 + orderedQuantity (productId item') before)
      with (orderedQuantity (productId item') before) by lia.
Qed.

Lemma committedItems_cons st item p rest k :
  products st !! productId item = Some p →
  commitError st [] item = None →
  committedItems
    (set_products (insert (productId item)
       (mkProduct (price p) (stock p - quantity item) (reservedStock p - quantity item))) st)
    rest k →
  committedItems st (item :: rest) (S k).
Proof.
  intros Hp Hfirst Hrest [|i] item' Hi Hitem'; simpl in *.
  - by inversion Hitem'; subst.
  - rewrite <- (commitError_committed st item p) by done.
    apply Hrest; [lia|done].
Qed.

(** The commit loop, item by item.  A run that returns has committed every
    item.  A run that throws has committed the items before some item [k],
    whose own check threw the error; the commits of those items stay in the
    store. *)
Lemma commitLoop_run l : ∀ st res st',
  commitLoop l st = (res, st') →
  match res with
  | inr _ => committedItems st l (length l)
  | inl e =>
      ∃ k item, l !! k = Some item ∧
        committedItems st l k ∧
        commitError st (take k l) item = Some e ∧
        ∀ pid, products st' !! pid
               = committedBy (orderedQuantity pid (take k l)) <$> products st !! pid
  end.
Proof.
  assert (Hstop : ∀ (st : Store) item (l : list OrderItem) e,
    commitError st [] item = Some e →
    ∃ k item', (item :: l) !! k = Some item' ∧
      committedItems st (item :: l) k ∧
      commitError st (take k (item :: l)) item' = Some e ∧
      ∀ pid, products st !! pid
             = committedBy (orderedQuantity pid (take k (item :: l))) <$> products st !! pid).
  { intros st item l0 e He. exists 0%nat, item. split_and!; [done| |done|].
    - intros i item' Hi. lia.
    - intros pid. simpl. destruct (products st !! pid); simpl; [|done].
      by rewrite committedBy_0. }
  induction l as [|item rest IH]; intros st res st' H.
  - db_simpl. inversion H; subst. intros i item Hi. simpl in Hi. lia.
  - simpl in H. db_simpl.
    destruct (products st !! productId item) as [p|] eqn:Hp.
    + assert (Hcheck : commitError st [] item
        = if (reservedStock p - quantity item <? 0) || (stock p - quantity item <? 0)
          then Some StockCalculationError else None).
      { unfold commitError. rewrite Hp. simpl. by rewrite !Z.sub_0_r. }
      destruct (_ || _) eqn:Hneg.
      * inversion H; subst. by apply Hstop.
      * apply IH in H. destruct res as [e|r].
        -- destruct H as (k & item' & Hitem' & Hdone & Herr & Hprod).
           exists (S k), item'. split_and!.
           ++ done.
           ++ by eapply committedItems_cons.
           ++ simpl. by rewrite <- (commitError_committed st item p).
           ++ intros pid. rewrite Hprod. simpl.
              destruct (decide (productId item = pid)) as [Heq|Hne].
              ** rewrite Heq in *. rewrite lookup_insert_eq, Hp. simpl. f_equal.
                 unfold committedBy; simpl. f_equal; lia.
              ** rewrite lookup_insert_ne by done.
                 by replace (0 + orderedQuantity pid (take k rest))
                   with (orderedQuantity pid (take k rest)) by lia.
        -- simpl. by eapply committedItems_cons.
    + inversion H; subst. apply Hstop. unfold commitError. by rewrite Hp.
Qed.

(** commit keeps [0 ≤ reservedStock ≤ stock]: a decrement that would drive
    a counter below zero is rejected before the save. *)
Lemma commitLoop_invariant l : ∀ st res st',
  products_invariant st →
  commitLoop l st = (res, st') →
  products_invariant st'.
Proof.
  induction l as [|item rest IH]; intros st res st' Hinv H.
  - db_simpl. by inversion H; subst.
  - simpl in H. db_simpl.
    destruct (products st !! productId item) as [p|] eqn:Hp; [|by inversion H; subst].
    destruct (_ || _) eqn:Hneg; [by inversion H; subst|].
    eapply IH in H; [done|].
    unfold products_invariant in *. simpl.
    apply map_Forall_insert_2; [|done].
    apply Hinv in Hp. unfold stock_invariant in *. simpl. lia.
Qed.

(** ** The release loop *)

Lemma releaseLoop_returns l : ∀ st,
  ∃ st', releaseLoop l st = (inr tt, st') ∧
    carts st' = carts st ∧ orders st' = orders st ∧ payments st' = payments st ∧
    ∀ pid, products st' !! pid = releasedBy pid l <$> products st !! pid.
Proof.
  induction l as [|item rest IH]; intros st.
  - exists st. db_simpl. split_and!; try done.
    intros pid. destruct (products st !! pid) as [[]|]; by simpl.
  - simpl. db_simpl.
    destruct (products st !! productId item) as [p|] eqn:Hp.
    + destruct (IH (set_products (insert (productId item)
               (set_reservedStock
                  (if reservedStock p - quantity item <? 0 then 0
                   else reservedStock p - quantity item) p)) st))
        as (st' & Hrun & Hc & Ho & Hpay & Hprod).
      exists st'. simpl in *. split_and!; try done.
      intros pid. rewrite Hprod.
      destruct (decide (productId item = pid)) as [Heq|Hne].
      * rewrite Heq in *. rewrite lookup_insert_eq, Hp. simpl.
        unfold releasedBy, releasedStock. simpl.
        rewrite decide_True by done. done.
      * rewrite lookup_insert_ne by done.
        destruct (products st !! pid); simpl; [|done].
        unfold releasedBy, releasedStock. simpl.
        by rewrite decide_False by done.
    + destruct (IH st) as (st' & Hrun & Hc & Ho & Hpay & Hprod).
      exists st'. split_and!; try done.
      intros pid. rewrite Hprod.
      destruct (products st !! pid) eqn:Hpid; simpl; [|done].
      unfold releasedBy, releasedStock. simpl.
      rewrite decide_False; [done|]. intros Heq. rewrite Heq in Hp. congruence.
Qed.

(** release keeps [0 ≤ reservedStock ≤ stock]: the counter is clamped at
    zero, and a quantity that is not negative cannot raise it. *)
Lemma releaseLoop_invariant l : ∀ st res st',
  Forall (λ it, 0 ≤ quantity it) l →
  products_invariant st →
  releaseLoop l st = (res, st') →
  products_invariant st'.
Proof.
  induction l as [|item rest IH]; intros st res st' Hq Hinv H.
  - db_simpl. by inversion H; subst.
  - inversion Hq as [|? ? Hq0 Hq']; subst. simpl in H. db_simpl.
    destruct (products st !! productId item) as [p|] eqn:Hp; [|by eapply IH].
    eapply IH in H; [done..|].
    unfold products_invariant in *. simpl.
    apply map_Forall_insert_2; [|done].
    apply Hinv in Hp. unfold stock_invariant in *. simpl.
    destruct (_ <? _) eqn:Hlt; lia.
Qed.

(** ** Transactions *)

Lemma inTransaction_store {A} st (r : (Error + A) * Store) :
  snd (inTransaction st r) = st ∨ snd (inTransaction st r) = snd r.
Proof. destruct r as [[e|a] st']; simpl; auto. Qed.

Lemma checkoutWithTransaction_sequential env now uid st :
  checkoutWithTransaction env now uid st
  = inTransaction st (checkoutWithoutTransaction env now uid st).
Proof.
  unfold checkoutWithTransaction, checkoutWithoutTransaction, transaction. db_simpl.
  destruct (carts st !! uid) as [cart|]; simpl; [|done].
  destruct (decide _); [done|].
  destruct (reserveLoop _ _ _ _) as [[e|[ois t]] st1]; [done|]. simpl.
  by destruct (newDate _ _).
Qed.

Lemma processPaymentWithTransaction_sequential now txn oid uid st :
  processPaymentWithTransaction now txn oid uid st
  = inTransaction st (processPaymentWithoutTransaction now txn oid uid st).
Proof.
  unfold processPaymentWithTransaction, processPaymentWithoutTransaction, transaction.
  db_simpl.
  destruct (orders st !! oid) as [o|]; [|done].
  repeat (destruct (decide _); [done|]).
  destruct (_ <? _); [done|].
  destruct (commitLoop _ _) as [[e|[]] st1]; [done|]. simpl.
  unfold Payment_create. simpl.
  by destruct (decide _).
Qed.

(** The release loop never throws and the early returns write nothing, so
    the two cancellation functions agree. *)
Lemma cancelOrderWithTransaction_sequential oid st :
  cancelOrderWithTransaction oid st = cancelOrderWithoutTransaction oid st.
Proof.
  unfold cancelOrderWithTransaction, cancelOrderWithoutTransaction, transaction.
  db_simpl.
  destruct (orders st !! oid) as [o|]; [|done].
  destruct (decide _); [done|].
  by destruct (releaseLoop_returns (items o) st) as (st1 & -> & _).
Qed.

(** ** Checkout *)

Lemma orderedQuantity_cartedQuantity pid cart new (R : CartItem → OrderItem → Prop) :
  Forall2 (λ line it,
    productId it = cartProductId line ∧ quantity it = cartQuantity line ∧ R line it) cart new →
  orderedQuantity pid new = cartedQuantity pid cart.
Proof.
  induction 1 as [|line it cart new (Hid & Hq & _) _ IH]; [done|].
  simpl. by rewrite Hid, Hq, IH.
Qed.

(** The reservation loop of a checkout, when it returns. *)
Lemma reserveLoop_checkout st cart ois t st1 :
  reserveLoop (populateCartItem st <$> cart) [] 0 st = (inr (ois, t), st1) →
  Forall2 (λ line it,
    productId it = cartProductId line ∧
    quantity it = cartQuantity line ∧
    ∃ p, products st !! cartProductId line = Some p ∧ priceAtPurchase it = price p)
    cart ois ∧
  t = subtotals ois ∧
  ∀ pid, products st1 !! pid
         = reservedBy (cartedQuantity pid cart) <$> products st !! pid.
Proof.
  intros Hloop.
  apply reserveLoop_returns in Hloop as (new & -> & -> & Hall & Hprod).
  simpl in *. apply Forall2_fmap_l in Hall.
  assert (Hlines : Forall2 (λ line it,
    productId it = cartProductId line ∧
    quantity it = cartQuantity line ∧
    ∃ p, products st !! cartProductId line = Some p ∧ priceAtPurchase it = price p)
    cart new).
  { eapply Forall2_impl; [exact Hall|]. simpl.
    intros line it (Hid & Hq & p & Hp & Hprice).
    unfold populateCartItem in Hid, Hq. simpl in Hid, Hq.
    destruct (products st !! cartProductId line) as [p1|] eqn:Hp1; [|done].
    inversion Hid as [Heq]. rewrite <- Heq, Hp1 in Hp. inversion Hp; subst p1.
    split_and!; [done..|]. eauto. }
  split_and!; [done|done|].
  intros pid. rewrite Hprod.
  by rewrite (orderedQuantity_cartedQuantity pid cart new _ Hlines).
Qed.

(** The sequential checkout, when it throws: it has stopped at the first
    cart line that cannot be reserved, or, with every line reserved, at the
    creation of the order; the store is the one the reservation loop
    left. *)
Lemma checkoutWithoutTransaction_throws env now uid st e st' :
  checkoutWithoutTransaction env now uid st = (inl e, st') →
  carts st' = carts st ∧ orders st' = orders st ∧ payments st' = payments st ∧
  ∃ k,
    reservedLines st (cartOf uid st) k ∧
    (∀ pid, products st' !! pid
            = reservedBy (cartedQuantity pid (take k (cartOf uid st))) <$> products st !! pid) ∧
    match cartOf uid st !! k with
    | Some line => reservationError st (take k (cartOf uid st)) line = Some e
    | None =>
        k = length (cartOf uid st) ∧
        if decide (cartOf uid st = []) then e = CartEmpty
        else e = ValidationError ∧ newDate now (paymentTimeoutMs env) = None
    end.
Proof.
  assert (Hempty : e = CartEmpty → st' = st → cartOf uid st = [] →
    carts st' = carts st ∧ orders st' = orders st ∧ payments st' = payments st ∧
    ∃ k,
      reservedLines st (cartOf uid st) k ∧
      (∀ pid, products st' !! pid
              = reservedBy (cartedQuantity pid (take k (cartOf uid st)))
                  <$> products st !! pid) ∧
      match cartOf uid st !! k with
      | Some line => reservationError st (take k (cartOf uid st)) line = Some e
      | None =>
          k = length (cartOf uid st) ∧
          if decide (cartOf uid st = []) then e = CartEmpty
          else e = ValidationError ∧ newDate now (paymentTimeoutMs env) = None
      end).
  { intros -> -> Hcart. split_and!; [done..|]. exists 0%nat. rewrite Hcart. split_and!.
    - intros i line Hi. lia.
    - intros pid. simpl. destruct (products st !! pid); simpl; [|done].
      by rewrite reservedBy_0.
    - simpl. by split. }
  unfold checkoutWithoutTransaction. db_simpl.
  destruct (carts st !! uid) as [cart|] eqn:Hcart; simpl.
  - assert (Hof : cartOf uid st = cart) by (unfold cartOf; by rewrite Hcart).
    destruct (decide (length _ = 0%nat)) as [Hlen|Hlen].
    + intros [= <- <-]. apply Hempty; [done..|].
      rewrite Hof. by apply nil_length_inv, fmap_nil_inv in Hlen.
    + rewrite Hof. clear Hempty Hof.
      destruct (reserveLoop _ _ _ _) as [[e1|[ois t]] st1] eqn:Hloop.
      * intros H. inversion H; subst.
        destruct (reserveLoop_frame _ _ _ _ _ _ Hloop) as (? & ? & ?).
        apply reserveLoop_run in Hloop as (k & line & Hline & Hres & Herr & Hprod); [|done].
        split_and!; [done..|]. exists k. by rewrite Hline.
      * simpl. destruct (newDate _ _) eqn:Hdate; [done|].
        intros H. inversion H; subst.
        destruct (reserveLoop_frame _ _ _ _ _ _ Hloop) as (? & ? & ?).
        pose proof (reserveLoop_run _ _ _ _ _ _ _ (λ pid, iff_refl _) Hloop) as Hres.
        apply reserveLoop_checkout in Hloop as (_ & _ & Hprod).
        split_and!; [done..|]. exists (length cart). split_and!; [done| |].
        -- intros pid. by rewrite firstn_all.
        -- rewrite lookup_ge_None_2 by lia. split; [done|].
           rewrite decide_False; [done|]. intros ->. by rewrite fmap_nil in Hlen.
  - intros [= <- <-]. apply Hempty; [done..|].
    unfold cartOf. by rewrite Hcart.
Qed.

Lemma cartedQuantity_nonneg pid cart :
  Forall (λ it, 0 ≤ cartQuantity it) cart → 0 ≤ cartedQuantity pid cart.
Proof.
  induction 1 as [|it rest Hq _ IH]; simpl; [lia|]. destruct (decide _); lia.
Qed.

(** The units of a product on the first [k] lines are at least those of any
    one of these lines, when no quantity is negative. *)
Lemma cartedQuantity_take_line cart k i line :
  Forall (λ it, 0 ≤ cartQuantity it) cart →
  (i < k)%nat → cart !! i = Some line →
  cartQuantity line ≤ cartedQuantity (cartProductId line) (take k cart).
Proof.
  intros Hq. revert k i. induction Hq as [|it rest Hit Hrest IH]; intros k i Hi Hline;
    [done|].
  destruct k as [|k]; [lia|]. simpl.
  pose proof (cartedQuantity_nonneg (cartProductId line) (take k rest)
                (Forall_take _ _ _ Hrest)) as Hnn.
  destruct i as [|i]; simpl in Hline.
  - inversion Hline; subst. rewrite decide_True by done. lia.
  - specialize (IH k i ltac:(lia) Hline). destruct (decide _); lia.
Qed.

(** C1 (as amended).  A checkout that throws leaves carts, orders and
    payments as they were.  It has stopped at the first cart line [k] that
    cannot be reserved (its product is missing, or the stock left by the
    lines before it is short), with the error of that line; or, every line
    being reserved, it has stopped at the creation of the order, refused for
    an invalid payment deadline; an empty cart stops it at once.  In the
    transactional mode every product is as it was.  In the fallback mode
    nothing is rolled back: each product's [reservedStock] is its value
    before the call plus the quantities of the lines before [k] which
    reference it, so with quantities of 1 or more the product of every line
    before [k] holds more reserved stock than before the call, and only a
    stop at the first line leaves the products as they were. *)
Theorem checkout_failure_effect useTransactions env now uid st e st' :
  checkout useTransactions env now uid st = (inl e, st') →
  let cart := cartOf uid st in
  carts st' = carts st ∧ orders st' = orders st ∧ payments st' = payments st ∧
  ∃ k,
    reservedLines st cart k ∧
    match cart !! k with
    | Some line => reservationError st (take k cart) line = Some e
    | None =>
        k = length cart ∧
        if decide (cart = []) then e = CartEmpty
        else e = ValidationError ∧ newDate now (paymentTimeoutMs env) = None
    end ∧
    if useTransactions then products st' = products st
    else
      (∀ pid, products st' !! pid
              = reservedBy (cartedQuantity pid (take k cart)) <$> products st !! pid) ∧
      (k = 0%nat → products st' = products st) ∧
      (valid_cart cart →
       ∀ i line, (i < k)%nat → cart !! i = Some line →
         ∃ p p', products st !! cartProductId line = Some p ∧
                 products st' !! cartProductId line = Some p' ∧
                 reservedStock p + cartQuantity line ≤ reservedStock p' ∧
                 reservedStock p < reservedStock p').
Proof.
  intros Hrun cart.
  assert (Hseq : ∃ st1, checkoutWithoutTransaction env now uid st = (inl e, st1) ∧
                        if useTransactions then st' = st else st' = st1).
  { destruct useTransactions; simpl in Hrun; [|by exists st'].
    rewrite checkoutWithTransaction_sequential in Hrun.
    destruct (checkoutWithoutTransaction _ _ _ _) as [[e1|r] st1]; simpl in Hrun; [|done].
    inversion Hrun; subst. by exists st1. }
  destruct Hseq as (st1 & Hseq & Hst').
  apply checkoutWithoutTransaction_throws in Hseq
    as (Hc & Hord & Hpay & k & Hres & Hprod & Hstop).
  fold cart in Hres, Hprod, Hstop.
  destruct useTransactions; subst st'.
  - split_and!; [done..|]. by exists k.
  - split_and!; [done..|]. exists k. split_and!; [done|done|done| |].
    + intros ->. apply map_eq. intros pid. rewrite Hprod. simpl.
      destruct (products st !! pid); simpl; [|done]. by rewrite reservedBy_0.
    + intros Hvalid i line Hi Hline.
      assert (Hq : Forall (λ it, 0 ≤ cartQuantity it) cart).
      { eapply Forall_impl; [exact Hvalid|]. simpl. intros it Hit. lia. }
      pose proof (cartedQuantity_take_line cart k i line Hq Hi Hline) as Hunits.
      assert (Hline1 : 1 ≤ cartQuantity line).
      { unfold valid_cart in Hvalid. rewrite Forall_forall in Hvalid.
        apply Hvalid. by eapply list_elem_of_lookup_2. }
      specialize (Hres i line Hi Hline).
      unfold reservationError, availableAfter in Hres.
      destruct (products st !! cartProductId line) as [p|] eqn:Hp; [|done].
      exists p, (reservedBy (cartedQuantity (cartProductId line) (take k cart)) p).
      split_and!; [done|by rewrite Hprod, Hp|simpl; lia|simpl; lia].
Qed.

Lemma checkout_failure_effect_witness :
  let st' := snd (checkout false TimeoutUnset 1000 9 shortStockStore) in
  let cart := cartOf 9 shortStockStore in
  carts st' = carts shortStockStore ∧ orders st' = orders shortStockStore ∧
  payments st' = payments shortStockStore ∧
  ∃ k,
    reservedLines shortStockStore cart k ∧
    match cart !! k with
    | Some line => reservationError shortStockStore (take k cart) line
                   = Some (InsufficientStock 2)
    | None =>
        k = length cart ∧
        if decide (cart = []) then InsufficientStock 2 = CartEmpty
        else InsufficientStock 2 = ValidationError
             ∧ newDate 1000 (paymentTimeoutMs TimeoutUnset) = None
    end ∧
    (∀ pid, products st' !! pid
            = reservedBy (cartedQuantity pid (take k cart)) <$> products shortStockStore !! pid) ∧
    (k = 0%nat → products st' = products shortStockStore) ∧
    (valid_cart cart →
     ∀ i line, (i < k)%nat → cart !! i = Some line →
       ∃ p p', products shortStockStore !! cartProductId line = Some p ∧
               products st' !! cartProductId line = Some p' ∧
               reservedStock p + cartQuantity line ≤ reservedStock p' ∧
               reservedStock p < reservedStock p').
Proof.
  apply (checkout_failure_effect false TimeoutUnset 1000 9 shortStockStore
           (InsufficientStock 2)).
  vm_compute. reflexivity.
Defined.

(** C1 (as stated) fails in the fallback mode: the second line of the cart
    of user 9 cannot be reserved, the call throws, and the two units
    reserved for the first line stay on product 1. *)
Lemma checkout_fallback_keeps_reservation :
  (2 ≤ length (cartOf 9 shortStockStore))%nat ∧
  fst (checkout false TimeoutUnset 1000 9 shortStockStore) = inl (InsufficientStock 2) ∧
  reservedStock <$> products shortStockStore !! 1%positive = Some 0 ∧
  reservedStock
    <$> products (snd (checkout false TimeoutUnset 1000 9 shortStockStore)) !! 1%positive
    = Some 2 ∧
  ¬ checkout_failure_restores_reservations false.
Proof.
  split_and!; [vm_compute; lia|done..|].
  intros Hclaim.
  specialize (Hclaim TimeoutUnset 1000 9%positive shortStockStore (InsufficientStock 2)
    (snd (checkout false TimeoutUnset 1000 9 shortStockStore))).
  assert (Hlen : (2 ≤ length (cartOf 9 shortStockStore))%nat) by (vm_compute; lia).
  specialize (Hclaim Hlen eq_refl 1%positive).
  vm_compute in Hclaim. discriminate.
Qed.

(** ** Payment *)

(** The sequential payment, when an item cannot be committed: it has
    stopped at the first item whose commit throws, the items before it
    committed. *)
Lemma processPaymentWithoutTransaction_item_failure now txn oid uid st e st' :
  processPaymentWithoutTransaction now txn oid uid st = (inl e, st') →
  e = ProductNotFound ∨ e = StockCalculationError →
  ∃ o, orders st !! oid = Some o ∧ status o = PENDING_PAYMENT ∧
    orders st' = orders st ∧ payments st' = payments st ∧ carts st' = carts st ∧
    ∃ k item,
      items o !! k = Some item ∧
      committedItems st (items o) k ∧
      commitError st (take k (items o)) item = Some e ∧
      ∀ pid, products st' !! pid
             = committedBy (orderedQuantity pid (take k (items o))) <$> products st !! pid.
Proof.
  unfold processPaymentWithoutTransaction. db_simpl.
  destruct (orders st !! oid) as [o|] eqn:Ho; [|intros H [?|?]; inversion H; congruence].
  destruct (decide _); [intros H [?|?]; inversion H; congruence|].
  destruct (decide _) as [|Hst]; [intros H [?|?]; inversion H; congruence|].
  destruct (_ <? _); [intros H [?|?]; inversion H; congruence|].
  destruct (commitLoop _ _) as [[e1|[]] st1] eqn:Hloop.
  - intros H _. inversion H; subst.
    destruct (commitLoop_frame _ _ _ _ Hloop) as (? & ? & ?).
    apply commitLoop_run in Hloop as (k & item & Hitem & Hdone & Herr & Hprod).
    exists o. split_and!; try done.
    + by destruct (status o); try done; exfalso; apply Hst.
    + by exists k, item.
  - simpl. unfold Payment_create. simpl.
    destruct (decide _); intros H [?|?]; inversion H; congruence.
Qed.

(** The units of a product on the first [k] items are at least those of any
    one of these items, when no quantity is negative. *)
Lemma orderedQuantity_take_item l k i item :
  Forall (λ it, 0 ≤ quantity it) l →
  (i < k)%nat → l !! i = Some item →
  quantity item ≤ orderedQuantity (productId item) (take k l).
Proof.
  intros Hq. revert k i. induction Hq as [|it rest Hit Hrest IH]; intros k i Hi Hitem;
    [done|].
  destruct k as [|k]; [lia|]. simpl.
  assert (Hnn : 0 ≤ orderedQuantity (productId item) (take k rest)).
  { pose proof (Forall_take _ k _ Hrest) as Hq'.
    induction Hq' as [|it' rest' Hq0 _ IH']; simpl; [lia|]. destruct (decide _); lia. }
  destruct i as [|i]; simpl in Hitem.
  - inversion Hitem; subst. rewrite decide_True by done. lia.
  - specialize (IH k i ltac:(lia) Hitem). destruct (decide _); lia.
Qed.

(** C3 (as amended).  A payment that throws on an item (product missing, or
    a counter that would go negative) leaves the order pending, and
    creates no payment and clears no cart.  It has stopped at the first
    item [k] whose commit throws.  In the transactional mode no product
    has changed.  In the fallback mode nothing is rolled back: [stock] and
    [reservedStock] of each product are their values before the call minus
    the quantities of the items before [k] which reference it, so with
    quantities of 1 or more the product of every item before [k] has lost
    stock and reserved stock, and only a stop at the first item leaves the
    products as they were. *)
Theorem processPayment_item_failure_effect useTransactions now txn oid uid st e st' :
  processPayment useTransactions now txn oid uid st = (inl e, st') →
  e = ProductNotFound ∨ e = StockCalculationError →
  ∃ o, orders st !! oid = Some o ∧ status o = PENDING_PAYMENT ∧
    orders st' = orders st ∧ payments st' = payments st ∧ carts st' = carts st ∧
    ∃ k item,
      items o !! k = Some item ∧
      committedItems st (items o) k ∧
      commitError st (take k (items o)) item = Some e ∧
      if useTransactions then products st' = products st
      else
        (∀ pid, products st' !! pid
                = committedBy (orderedQuantity pid (take k (items o)))
                    <$> products st !! pid) ∧
        (k = 0%nat → products st' = products st) ∧
        (valid_order o →
         ∀ i it, (i < k)%nat → items o !! i = Some it →
           ∃ p p', products st !! productId it = Some p ∧
                   products st' !! productId it = Some p' ∧
                   stock p' ≤ stock p - quantity it ∧
                   reservedStock p' ≤ reservedStock p - quantity it ∧
                   stock p' < stock p ∧ reservedStock p' < reservedStock p).
Proof.
  intros Hrun He.
  assert (Hseq : ∃ st1, processPaymentWithoutTransaction now txn oid uid st = (inl e, st1) ∧
                        if useTransactions then st' = st else st' = st1).
  { destruct useTransactions; simpl in Hrun; [|by exists st'].
    rewrite processPaymentWithTransaction_sequential in Hrun.
    destruct (processPaymentWithoutTransaction _ _ _ _ _) as [[e1|r] st1];
      simpl in Hrun; [|done].
    inversion Hrun; subst. by exists st1. }
  destruct Hseq as (st1 & Hseq & Hst').
  destruct (processPaymentWithoutTransaction_item_failure _ _ _ _ _ _ _ Hseq He)
    as (o & Ho & Hst & Hord & Hpay & Hc & k & item & Hitem & Hdone & Herr & Hprod).
  exists o. destruct useTransactions; subst st'.
  - split_and!; [done..|]. by exists k, item.
  - split_and!; [done..|]. exists k, item. split_and!; [done|done|done|done| |].
    + intros ->. apply map_eq. intros pid. rewrite Hprod. simpl.
      destruct (products st !! pid); simpl; [|done]. by rewrite committedBy_0.
    + intros Hvalid i it Hi Hit.
      assert (Hq : Forall (λ it, 0 ≤ quantity it) (items o)).
      { eapply Forall_impl; [exact Hvalid|]. simpl. intros it' Hit'. lia. }
      pose proof (orderedQuantity_take_item (items o) k i it Hq Hi Hit) as Hunits.
      assert (Hit1 : 1 ≤ quantity it).
      { unfold valid_order in Hvalid. rewrite Forall_forall in Hvalid.
        apply Hvalid. by eapply list_elem_of_lookup_2. }
      specialize (Hdone i it Hi Hit). unfold commitError in Hdone.
      destruct (products st !! productId it) as [p|] eqn:Hp; [|done].
      exists p, (committedBy (orderedQuantity (productId it) (take k (items o))) p).
      split_and!; [done|by rewrite Hprod, Hp|simpl; lia..].
Qed.

Lemma processPayment_item_failure_effect_witness :
  let st' := snd (processPayment false 2000 "TXN-2000-A1" 1 9 deletedProductStore) in
  ∃ o, orders deletedProductStore !! 1%positive = Some o ∧ status o = PENDING_PAYMENT ∧
    orders st' = orders deletedProductStore ∧ payments st' = payments deletedProductStore ∧
    carts st' = carts deletedProductStore ∧
    ∃ k item,
      items o !! k = Some item ∧
      committedItems deletedProductStore (items o) k ∧
      commitError deletedProductStore (take k (items o)) item = Some ProductNotFound ∧
      (∀ pid, products st' !! pid
              = committedBy (orderedQuantity pid (take k (items o)))
                  <$> products deletedProductStore !! pid) ∧
      (k = 0%nat → products st' = products deletedProductStore) ∧
      (valid_order o →
       ∀ i it, (i < k)%nat → items o !! i = Some it →
         ∃ p p', products deletedProductStore !! productId it = Some p ∧
                 products st' !! productId it = Some p' ∧
                 stock p' ≤ stock p - quantity it ∧
                 reservedStock p' ≤ reservedStock p - quantity it ∧
                 stock p' < stock p ∧ reservedStock p' < reservedStock p).
Proof.
  apply (processPayment_item_failure_effect false 2000 "TXN-2000-A1" 1 9 deletedProductStore
           ProductNotFound).
  - vm_compute. reflexivity.
  - left. reflexivity.
Defined.

(** C3 (as stated) fails in the fallback mode: the product of the second
    item of order 1 is missing, the call throws 'Product not found', and
    the first item stays committed on product 1. *)
Lemma processPayment_fallback_keeps_commit :
  fst (processPayment false 2000 "TXN-2000-A1" 1 9 deletedProductStore) = inl ProductNotFound ∧
  products deletedProductStore !! 1%positive = Some (mkProduct 5 10 2) ∧
  products (snd (processPayment false 2000 "TXN-2000-A1" 1 9 deletedProductStore)) !! 1%positive
    = Some (mkProduct 5 8 0) ∧
  ¬ payment_failure_commits_nothing false.
Proof.
  split_and!; [done..|].
  intros Hclaim.
  specialize (Hclaim 2000 "TXN-2000-A1" 1%positive 9%positive deletedProductStore
    ProductNotFound
    (snd (processPayment false 2000 "TXN-2000-A1" 1 9 deletedProductStore))
    eq_refl (or_introl eq_refl)) as (Hprod & _).
  assert (Hp : products (snd (processPayment false 2000 "TXN-2000-A1" 1 9 deletedProductStore))
                 !! 1%positive = Some (mkProduct 5 8 0)) by done.
  rewrite Hprod in Hp. vm_compute in Hp. discriminate.
Qed.

(** The sequential payment past the deadline: the guards throw before any
    write. *)
Lemma processPaymentWithoutTransaction_late now txn oid uid st o :
  orders st !! oid = Some o →
  status o = PENDING_PAYMENT →
  paymentDeadline o < now →
  processPaymentWithoutTransaction now txn oid uid st
  = (inl (if decide (userId o = uid) then DeadlineExpired else Unauthorized), st).
Proof.
  intros Ho Hst Hlate. unfold processPaymentWithoutTransaction. db_simpl.
  rewrite Ho.
  destruct (decide (userId o = uid)) as [Heq|Hne].
  - rewrite decide_False by (by intros Hn).
    rewrite decide_False by (by intros Hn).
    by rewrite (proj2 (Z.ltb_lt _ _) Hlate).
  - by rewrite decide_True.
Qed.

(** C7.  For an order in PENDING_PAYMENT, processPayment called at a time
    strictly after the order's paymentDeadline throws and leaves the whole
    store (products, orders, payments, carts) as it was, in both modes; the
    error of the owner's call is DeadlineExpired (a caller who is not the
    owner is turned away by the ownership check, which comes first). *)
Theorem processPayment_after_deadline useTransactions now txn oid uid st o :
  orders st !! oid = Some o →
  status o = PENDING_PAYMENT →
  paymentDeadline o < now →
  (∃ e, processPayment useTransactions now txn oid uid st = (inl e, st)) ∧
  (userId o = uid →
     processPayment useTransactions now txn oid uid st = (inl DeadlineExpired, st)) ∧
  (userId o ≠ uid →
     processPayment useTransactions now txn oid uid st = (inl Unauthorized, st)).
Proof.
  intros Ho Hst Hlate.
  assert (Hrun : processPayment useTransactions now txn oid uid st
    = (inl (if decide (userId o = uid) then DeadlineExpired else Unauthorized), st)).
  { destruct useTransactions; simpl.
    - rewrite processPaymentWithTransaction_sequential.
      by rewrite (processPaymentWithoutTransaction_late _ _ _ _ _ _ Ho Hst Hlate).
    - by apply processPaymentWithoutTransaction_late. }
  rewrite Hrun. split_and!.
  - eauto.
  - intros Heq. by rewrite decide_True.
  - intros Hne. by rewrite decide_False.
Qed.

Lemma processPayment_after_deadline_witness :
  processPayment true 901001 "TXN-901001-K7" 1 9 pendingStore
  = (inl DeadlineExpired, pendingStore).
Proof.
  refine (proj1 (proj2 (processPayment_after_deadline true 901001 "TXN-901001-K7" 1 9
            pendingStore (mkOrder 9 [mkOrderItem 1 2 5] 10 PENDING_PAYMENT 901000)
            _ _ _)) _).
  - reflexivity.
  - reflexivity.
  - simpl. lia.
  - reflexivity.
Defined.

(** The sequential payment, when it returns. *)
Lemma processPaymentWithoutTransaction_returns now txn oid uid st paid payment st' :
  processPaymentWithoutTransaction now txn oid uid st = (inr (paid, payment), st') →
  ∃ o, orders st !! oid = Some o ∧
    userId o = uid ∧ status o = PENDING_PAYMENT ∧ now ≤ paymentDeadline o ∧
    paid = set_status PAID o ∧
    payment = mkPayment oid txn (totalAmount o) SUCCESS ∧
    orders st' = <[oid := paid]> (orders st) ∧
    payments st' = payments st ++ [payment] ∧
    carts st' = alter (λ _, []) uid (carts st) ∧
    ∀ pid, products st' !! pid
           = committedBy (orderedQuantity pid (items o)) <$> products st !! pid.
Proof.
  unfold processPaymentWithoutTransaction. db_simpl.
  destruct (orders st !! oid) as [o|] eqn:Ho; [|done].
  destruct (decide _) as [|Hown]; [done|].
  destruct (decide _) as [|Hst]; [done|].
  destruct (_ <? _) eqn:Hlate; [done|].
  destruct (commitLoop _ _) as [[e1|[]] st1] eqn:Hloop; [done|]. simpl.
  unfold Payment_create. simpl.
  destruct (decide _); [done|]. simpl.
  intros H. inversion H; subst. simpl.
  destruct (commitLoop_frame _ _ _ _ Hloop) as (Hc & Hord & Hpay).
  exists o. split_and!; try done.
  - destruct (decide (userId o = uid)); [done|]. by destruct Hown.
  - by destruct (status o); try done; exfalso; apply Hst.
  - apply Z.ltb_ge in Hlate. lia.
  - by rewrite Hord.
  - by rewrite Hpay.
  - by rewrite Hc.
  - by apply commitLoop_returns.
Qed.

(** C5.  A payment of order [oid] that returns (so the order was in
    PENDING_PAYMENT, the caller its owner and the deadline not passed)
    yields: the order with status PAID, stored under [oid]; [stock] and
    [reservedStock] of every product decremented by the quantities of the
    order's items that reference it; exactly one more Payment record, with
    status SUCCESS and [amount] equal to the order's [totalAmount]; and the
    user's cart cleared to an empty item list. *)
Theorem processPayment_success useTransactions now txn oid uid st o paid payment st' :
  orders st !! oid = Some o →
  processPayment useTransactions now txn oid uid st = (inr (paid, payment), st') →
  (status o = PENDING_PAYMENT ∧ userId o = uid ∧ now ≤ paymentDeadline o) ∧
  (paid = set_status PAID o ∧ status paid = PAID ∧ orders st' = <[oid := paid]> (orders st)) ∧
  (∀ pid, products st' !! pid
          = committedBy (orderedQuantity pid (items o)) <$> products st !! pid) ∧
  (payments st' = payments st ++ [payment] ∧
   payment = mkPayment oid txn (totalAmount o) SUCCESS) ∧
  (carts st' = alter (λ _, []) uid (carts st) ∧ cartOf uid st' = []).
Proof.
  intros Ho Hrun.
  assert (Hseq : processPaymentWithoutTransaction now txn oid uid st
                 = (inr (paid, payment), st')).
  { destruct useTransactions; simpl in Hrun; [|done].
    rewrite processPaymentWithTransaction_sequential in Hrun.
    by destruct (processPaymentWithoutTransaction _ _ _ _ _) as [[e1|r] st1]. }
  apply processPaymentWithoutTransaction_returns in Hseq
    as (o' & Ho' & Hown & Hst & Hdl & -> & -> & Hord & Hpay & Hcart & Hprod).
  rewrite Ho in Ho'. inversion Ho'; subst o'.
  split_and!; try done.
  unfold cartOf. rewrite Hcart, lookup_alter_eq.
  by destruct (carts st !! uid).
Qed.

Lemma processPayment_success_witness :
  let o := mkOrder 9 [mkOrderItem 1 2 5] 10 PENDING_PAYMENT 901000 in
  let st' := snd (processPayment false 2000 "TXN-2000-A1" 1 9 pendingStore) in
  products st' !! 1%positive = Some (mkProduct 5 8 0) ∧
  orders st' !! 1%positive = Some (set_status PAID o) ∧
  payments st' = [mkPayment 1 "TXN-2000-A1" 10 SUCCESS] ∧
  cartOf 9 st' = [].
Proof.
  intros o st'.
  destruct (processPayment_success false 2000 "TXN-2000-A1" 1 9 pendingStore
              o (set_status PAID o) (mkPayment 1 "TXN-2000-A1" 10 SUCCESS) st'
              eq_refl eq_refl)
    as (_ & (_ & _ & Hord) & Hprod & (Hpay & _) & (_ & Hcart)).
  split_and!.
  - rewrite Hprod. reflexivity.
  - rewrite Hord. reflexivity.
  - rewrite Hpay. reflexivity.
  - exact Hcart.
Defined.

Lemma orderedQuantity_nonneg pid l :
  Forall (λ it, 0 ≤ quantity it) l → 0 ≤ orderedQuantity pid l.
Proof.
  induction 1 as [|it rest Hq _ IH]; simpl; [lia|]. destruct (decide _); lia.
Qed.

(** The commit loop returns when every item's product exists and holds, in
    [reservedStock] and in [stock], the units the order takes of it. *)
Lemma commitLoop_succeeds l : ∀ st,
  (∀ it, it ∈ l →
     0 ≤ quantity it ∧
     ∃ p, products st !! productId it = Some p ∧
          orderedQuantity (productId it) l ≤ reservedStock p ∧
          reservedStock p ≤ stock p) →
  ∃ st', commitLoop l st = (inr tt, st').
Proof.
  induction l as [|item rest IH]; intros st Hok.
  - db_simpl. eauto.
  - assert (Hrest : Forall (λ it, 0 ≤ quantity it) rest).
    { apply Forall_forall. intros it Hin. by destruct (Hok it); [right|]. }
    destruct (Hok item) as (Hq & p & Hp & Hres & Hstock); [left|].
    simpl in Hres. rewrite decide_True in Hres by done.
    pose proof (orderedQuantity_nonneg (productId item) rest Hrest) as Hnn.
    simpl. db_simpl. rewrite Hp.
    rewrite (proj2 (Z.ltb_ge _ _)) by lia.
    rewrite (proj2 (Z.ltb_ge _ _)) by lia. simpl.
    apply IH. intros it Hin.
    destruct (Hok it) as (Hq' & p' & Hp' & Hres' & Hstock'); [by right|].
    split; [done|]. simpl in *.
    destruct (decide (productId item = productId it)) as [Heq|Hne].
    + rewrite Heq in *. rewrite lookup_insert_eq.
      rewrite Hp in Hp'. inversion Hp'; subst p'.
      eexists. split; [reflexivity|]. simpl. lia.
    + rewrite lookup_insert_ne by done.
      exists p'. split; [done|]. lia.
Qed.

(** A payment returns when the order is pending, the caller its owner, the
    deadline not passed, the transaction identifier unused, and every
    item's product holds the order's reservation. *)
Lemma processPayment_succeeds useTransactions now txn oid uid st o :
  orders st !! oid = Some o →
  userId o = uid →
  status o = PENDING_PAYMENT →
  now ≤ paymentDeadline o →
  txn ∉ transactionId <$> payments st →
  (∀ it, it ∈ items o →
     0 ≤ quantity it ∧
     ∃ p, products st !! productId it = Some p ∧
          orderedQuantity (productId it) (items o) ≤ reservedStock p ∧
          reservedStock p ≤ stock p) →
  ∃ payment st',
    processPayment useTransactions now txn oid uid st
    = (inr (set_status PAID o, payment), st').
Proof.
  intros Ho Hown Hst Hdl Htxn Hok.
  assert (Hseq : ∃ payment st',
    processPaymentWithoutTransaction now txn oid uid st
    = (inr (set_status PAID o, payment), st')).
  { unfold processPaymentWithoutTransaction. db_simpl. rewrite Ho.
    rewrite decide_False by (by intros Hn).
    rewrite decide_False by (by intros Hn).
    rewrite (proj2 (Z.ltb_ge _ _)) by lia.
    destruct (commitLoop_succeeds (items o) st Hok) as (st1 & Hrun).
    rewrite Hrun. simpl.
    destruct (commitLoop_frame _ _ _ _ Hrun) as (_ & _ & Hpay).
    unfold Payment_create. simpl. rewrite Hpay.
    rewrite decide_False by done. eauto. }
  destruct Hseq as (payment & st' & Hseq). exists payment, st'.
  destruct useTransactions; simpl; [|done].
  by rewrite processPaymentWithTransaction_sequential, Hseq.
Qed.

(** ** Checkout that returns *)

(** The deadline that checkout computes is a date exactly when the variable
    is unset or reads as a number of minutes, and the current time plus that
    many minutes (15 when unset) is in the range of dates. *)
Lemma newDate_paymentTimeoutMs env now deadline :
  newDate now (paymentTimeoutMs env) = Some deadline ↔
  ∃ minutes,
    (env = TimeoutUnset ∧ minutes = 15 ∨ env = TimeoutMinutes minutes) ∧
    deadline = now + minutes * 60 * 1000 ∧
    - maxTime ≤ now + minutes * 60 * 1000 ≤ maxTime.
Proof.
  split.
  - destruct env as [|m|]; simpl; [| |done].
    + destruct (decide _) as [Hrange|]; [|done]. intros [= <-].
      exists 15. split; [by left|]. by split.
    + destruct (decide _) as [Hrange|]; [|done]. intros [= <-].
      exists m. split; [by right|]. by split.
  - intros (minutes & Henv & Hdeadline & Hrange). subst deadline.
    destruct Henv as [[Henv Hm]|Henv]; subst; simpl; by rewrite decide_True.
Qed.

(** The sequential checkout, when it returns. *)
Lemma checkoutWithoutTransaction_returns env now uid st oid o st' :
  checkoutWithoutTransaction env now uid st = (inr (oid, o), st') →
  (cartOf uid st ≠ [] ∧ reservedLines st (cartOf uid st) (length (cartOf uid st))) ∧
  (orders st !! oid = None ∧ orders st' = <[oid := o]> (orders st)) ∧
  (carts st' = carts st ∧ payments st' = payments st) ∧
  (userId o = uid ∧ status o = PENDING_PAYMENT) ∧
  Forall2 (λ line it,
    productId it = cartProductId line ∧
    quantity it = cartQuantity line ∧
    ∃ p, products st !! cartProductId line = Some p ∧ priceAtPurchase it = price p)
    (cartOf uid st) (items o) ∧
  totalAmount o = subtotals (items o) ∧
  newDate now (paymentTimeoutMs env) = Some (paymentDeadline o) ∧
  ∀ pid, products st' !! pid
         = reservedBy (cartedQuantity pid (cartOf uid st)) <$> products st !! pid.
Proof.
  unfold checkoutWithoutTransaction, cartOf. db_simpl.
  destruct (carts st !! uid) as [cart|] eqn:Hcart; simpl; [|done].
  destruct (decide _) as [|Hlen]; [done|].
  destruct (reserveLoop _ _ _ _) as [[e1|[ois t]] st1] eqn:Hloop; [done|]. simpl.
  destruct (newDate _ _) as [deadline|] eqn:Hdate; [|done].
  intros H. inversion H; subst. simpl.
  destruct (reserveLoop_frame _ _ _ _ _ _ Hloop) as (Hc & Hord & Hpay).
  pose proof (reserveLoop_run _ _ _ _ _ _ _ (λ pid, iff_refl _) Hloop) as Hres.
  apply reserveLoop_checkout in Hloop as (Hlines & Htotal & Hprod).
  split_and!; try done.
  - intros ->. by rewrite length_fmap in Hlen.
  - rewrite Hord. apply not_elem_of_dom, is_fresh.
  - by rewrite Hord.
Qed.

(** Checkout returns an order, in both modes, when the cart is not empty,
    every line can be reserved after the lines before it, and the payment
    deadline is a date. *)
Lemma checkout_succeeds useTransactions env now uid st deadline :
  cartOf uid st ≠ [] →
  reservedLines st (cartOf uid st) (length (cartOf uid st)) →
  newDate now (paymentTimeoutMs env) = Some deadline →
  ∃ oid o st', checkout useTransactions env now uid st = (inr (oid, o), st').
Proof.
  intros Hne Hres Hdate.
  assert (Hseq : ∃ oid o st',
    checkoutWithoutTransaction env now uid st = (inr (oid, o), st')).
  { destruct (checkoutWithoutTransaction env now uid st) as [[e|[oid o]] st'] eqn:Hrun;
      [|by eauto].
    apply checkoutWithoutTransaction_throws in Hrun as (_ & _ & _ & k & _ & _ & Hstop).
    destruct (cartOf uid st !! k) as [line|] eqn:Hline.
    - rewrite (Hres k line) in Hstop; [done| |done].
      by eapply lookup_lt_Some.
    - destruct Hstop as (_ & Hstop). rewrite decide_False in Hstop by done.
      destruct Hstop as (_ & Hnone). congruence. }
  destruct Hseq as (oid & o & st' & Hseq).
  exists oid, o, st'. destruct useTransactions; simpl; [|done].
  by rewrite checkoutWithTransaction_sequential, Hseq.
Qed.

Lemma cartedQuantity_absent pid cart :
  Forall (λ it, cartProductId it ≠ pid) cart → cartedQuantity pid cart = 0.
Proof.
  induction 1 as [|it rest Hne _ IH]; [done|]. simpl.
  rewrite decide_False by done. lia.
Qed.

(** With one line per product, every line can be reserved when its product
    exists with enough available stock. *)
Lemma reservedLines_NoDup st cart :
  NoDup (cartProductId <$> cart) →
  (∀ line, line ∈ cart →
     ∃ p, products st !! cartProductId line = Some p ∧
          cartQuantity line ≤ stock p - reservedStock p) →
  reservedLines st cart (length cart).
Proof.
  intros Hnd Hok i line _ Hline.
  destruct (Hok line) as (p & Hp & Hq); [by eapply list_elem_of_lookup_2|].
  unfold reservationError, availableAfter. rewrite Hp. simpl.
  rewrite cartedQuantity_absent.
  - by rewrite (proj2 (Z.ltb_ge _ _)) by lia.
  - apply Forall_forall. intros line' Hin Heq.
    apply list_elem_of_lookup_1 in Hin as (i' & Hi').
    rewrite lookup_take_Some in Hi'. destruct Hi' as (Hi' & Hlt).
    assert (i' = i); [|lia].
    eapply (NoDup_lookup (cartProductId <$> cart)); [done| |].
    + by rewrite list_lookup_fmap, Hi'.
    + rewrite list_lookup_fmap, Hline. simpl. by rewrite Heq.
Qed.

(** C6.  Checkout throws 'Cart is empty' when the user has no cart or a cart
    without items, and then writes nothing.  With a cart that is not empty,
    each line of which can be reserved after the lines before it, and a
    timeout of [minutes] minutes (15 when the variable is unset, the
    variable's value otherwise) that gives a date, checkout returns, in both
    modes.  A checkout that returns has created, under a fresh id, an
    order in PENDING_PAYMENT of that user whose items copy each cart line's
    product and quantity with the product's current price as
    [priceAtPurchase], whose [totalAmount] is the sum of price × quantity
    over the items, accumulated in item order, and whose [paymentDeadline]
    is the current time plus [minutes] minutes; each product's
    [reservedStock] has grown by the quantities of the cart lines that
    reference it. *)
Theorem checkout_creates_order useTransactions env now uid st :
  let cart := cartOf uid st in
  (cart = [] →
     checkout useTransactions env now uid st = (inl CartEmpty, st)) ∧
  (∀ minutes,
     cart ≠ [] →
     reservedLines st cart (length cart) →
     env = TimeoutUnset ∧ minutes = 15 ∨ env = TimeoutMinutes minutes →
     - maxTime ≤ now + minutes * 60 * 1000 ≤ maxTime →
     ∃ oid o st', checkout useTransactions env now uid st = (inr (oid, o), st')) ∧
  (∀ oid o st',
     checkout useTransactions env now uid st = (inr (oid, o), st') →
     (cart ≠ [] ∧ reservedLines st cart (length cart)) ∧
     (orders st !! oid = None ∧ orders st' = <[oid := o]> (orders st)) ∧
     (carts st' = carts st ∧ payments st' = payments st) ∧
     (userId o = uid ∧ status o = PENDING_PAYMENT) ∧
     Forall2 (λ line it,
       productId it = cartProductId line ∧
       quantity it = cartQuantity line ∧
       ∃ p, products st !! cartProductId line = Some p ∧ priceAtPurchase it = price p)
       cart (items o) ∧
     totalAmount o
       = foldl (λ total it, total + priceAtPurchase it * quantity it) 0 (items o) ∧
     (∃ minutes,
        (env = TimeoutUnset ∧ minutes = 15 ∨ env = TimeoutMinutes minutes) ∧
        paymentDeadline o = now + minutes * 60 * 1000 ∧
        - maxTime ≤ paymentDeadline o ≤ maxTime) ∧
     ∀ pid, products st' !! pid
            = reservedBy (cartedQuantity pid cart) <$> products st !! pid).
Proof.
  intros cart. split_and!.
  - intros Hempty.
    assert (Hseq : checkoutWithoutTransaction env now uid st = (inl CartEmpty, st)).
    { unfold cart, checkoutWithoutTransaction, cartOf in *. db_simpl.
      destruct (carts st !! uid) as [l|]; simpl in *; [|done]. by subst l. }
    destruct useTransactions; simpl; [|done].
    by rewrite checkoutWithTransaction_sequential, Hseq.
  - intros minutes Hne Hres Henv Hrange.
    apply (checkout_succeeds _ _ _ _ _ (now + minutes * 60 * 1000)); [done..|].
    apply newDate_paymentTimeoutMs. by exists minutes.
  - intros oid o st' Hrun.
    assert (Hseq : checkoutWithoutTransaction env now uid st = (inr (oid, o), st')).
    { destruct useTransactions; simpl in Hrun; [|done].
      rewrite checkoutWithTransaction_sequential in Hrun.
      by destruct (checkoutWithoutTransaction _ _ _ _) as [[e1|r] st1]. }
    apply checkoutWithoutTransaction_returns in Hseq
      as (Hne & Hord & Hframe & Ho & Hitems & Htotal & Hdate & Hprod).
    apply newDate_paymentTimeoutMs in Hdate as (minutes & Henv & Hdeadline & Hrange).
    do 6 (split; [done|]). split; [|done].
    exists minutes. rewrite Hdeadline. by split.
Qed.

Lemma checkout_creates_order_witness :
  ∃ oid o st',
    checkout false (TimeoutMinutes 30) 1000 9 shopStore = (inr (oid, o), st') ∧
    paymentDeadline o = 1000 + 30 * 60 * 1000 ∧
    totalAmount o
      = foldl (λ total it, total + priceAtPurchase it * quantity it) 0 (items o).
Proof.
  pose proof (checkout_creates_order false (TimeoutMinutes 30) 1000 9 shopStore)
    as (_ & Hreturns & Hshape).
  destruct (Hreturns 30) as (oid & o & st' & Hrun).
  - intros Hcart. vm_compute in Hcart. discriminate.
  - intros [|i] line Hi Hline; [|vm_compute in Hi; lia].
    vm_compute in Hline. inversion Hline; subst. reflexivity.
  - by right.
  - unfold maxTime. lia.
  - exists oid, o, st'. split; [exact Hrun|].
    destruct (Hshape oid o st' Hrun)
      as (_ & _ & _ & _ & _ & Htotal & (minutes & [(Henv & _)|Henv] & Hdeadline & _) & _);
      [done|].
    inversion Henv; subst minutes. by split.
Defined.

(** ** Cancellation *)

(** The sequential cancellation of a pending order. *)
Lemma cancelOrderWithoutTransaction_pending oid st o :
  orders st !! oid = Some o →
  status o = PENDING_PAYMENT →
  ∃ st1,
    cancelOrderWithoutTransaction oid st = (inr (Some (set_status CANCELLED o)), st1) ∧
    orders st1 = <[oid := set_status CANCELLED o]> (orders st) ∧
    carts st1 = carts st ∧ payments st1 = payments st ∧
    ∀ pid, products st1 !! pid = releasedBy pid (items o) <$> products st !! pid.
Proof.
  intros Ho Hst. unfold cancelOrderWithoutTransaction. db_simpl.
  rewrite Ho. rewrite decide_False by (by intros Hn).
  destruct (releaseLoop_returns (items o) st) as (st1 & -> & Hc & Hord & Hpay & Hprod).
  eexists. split; [reflexivity|]. simpl. by rewrite Hord.
Qed.

Lemma cancelOrderWithoutTransaction_guard oid st :
  (orders st !! oid = None ∨ ∃ o, orders st !! oid = Some o ∧ status o ≠ PENDING_PAYMENT) →
  cancelOrderWithoutTransaction oid st = (inr None, st).
Proof.
  unfold cancelOrderWithoutTransaction. db_simpl.
  intros [->|(o & -> & Hst)]; [done|]. by rewrite decide_True.
Qed.

Lemma cancelOrder_sequential useTransactions oid st :
  cancelOrder useTransactions oid st = cancelOrderWithoutTransaction oid st.
Proof.
  destruct useTransactions; simpl; [|done]. apply cancelOrderWithTransaction_sequential.
Qed.

(** C8.  cancelOrder is a guarded no-op: when the order is missing or not
    in PENDING_PAYMENT it returns [null] without throwing and leaves the
    store as it was.  On a pending order it returns the order with status
    CANCELLED and applies the release of each item once to its product's
    [reservedStock]; a second call, in either mode, returns [null] and
    changes nothing, so nothing is released twice. *)
Theorem cancelOrder_idempotent useTransactions oid st :
  ((orders st !! oid = None ∨ ∃ o, orders st !! oid = Some o ∧ status o ≠ PENDING_PAYMENT) →
     cancelOrder useTransactions oid st = (inr None, st)) ∧
  (∀ o, orders st !! oid = Some o → status o = PENDING_PAYMENT →
     ∃ st1,
       cancelOrder useTransactions oid st = (inr (Some (set_status CANCELLED o)), st1) ∧
       orders st1 = <[oid := set_status CANCELLED o]> (orders st) ∧
       carts st1 = carts st ∧ payments st1 = payments st ∧
       (∀ pid, products st1 !! pid = releasedBy pid (items o) <$> products st !! pid) ∧
       ∀ again, cancelOrder again oid st1 = (inr None, st1)).
Proof.
  split.
  - rewrite cancelOrder_sequential. apply cancelOrderWithoutTransaction_guard.
  - intros o Ho Hst. rewrite cancelOrder_sequential.
    destruct (cancelOrderWithoutTransaction_pending oid st o Ho Hst)
      as (st1 & Hrun & Hord & Hc & Hpay & Hprod).
    exists st1. split_and!; try done.
    intros again. rewrite cancelOrder_sequential.
    apply cancelOrderWithoutTransaction_guard. right.
    exists (set_status CANCELLED o). by rewrite Hord, lookup_insert_eq.
Qed.

Lemma cancelOrder_idempotent_witness :
  let o := mkOrder 9 [mkOrderItem 1 2 5] 10 PENDING_PAYMENT 901000 in
  cancelOrder true 7 pendingStore = (inr None, pendingStore) ∧
  ∃ st1,
    cancelOrder false 1 pendingStore = (inr (Some (set_status CANCELLED o)), st1) ∧
    products st1 !! 1%positive = Some (mkProduct 5 10 0) ∧
    cancelOrder true 1 st1 = (inr None, st1).
Proof.
  intros o. split.
  - apply (proj1 (cancelOrder_idempotent true 7 pendingStore)). left. reflexivity.
  - destruct (proj2 (cancelOrder_idempotent false 1 pendingStore) o eq_refl eq_refl)
      as (st1 & Hrun & _ & _ & _ & Hprod & Hagain).
    exists st1. split_and!; [exact Hrun| |apply Hagain].
    rewrite Hprod. reflexivity.
Defined.

(** With quantities that are not negative, the releases of an order add
    up: the counter drops by the units ordered, and stops at zero. *)
Lemma releasedStock_closed_form pid l : ∀ r,
  0 ≤ r →
  Forall (λ it, 0 ≤ quantity it) l →
  releasedStock pid l r = Z.max 0 (r - orderedQuantity pid l).
Proof.
  unfold releasedStock.
  induction l as [|it rest IH]; intros r Hr Hq; simpl.
  - lia.
  - inversion Hq as [|? ? Hq0 Hq']; subst.
    assert (Hrest : 0 ≤ orderedQuantity pid rest).
    { clear IH Hq. induction rest as [|it' rest' IH']; simpl; [lia|].
      inversion Hq' as [|? ? Hq1 Hq'']; subst.
      specialize (IH' Hq''). destruct (decide _); lia. }
    destruct (decide (productId it = pid)).
    + rewrite IH; [|unfold releaseUnits; destruct (_ <? _) eqn:E; lia|done].
      unfold releaseUnits. destruct (_ <? _) eqn:E; [apply Z.ltb_lt in E|apply Z.ltb_ge in E];
        fold (orderedQuantity pid rest); lia.
    + rewrite IH by done. fold (orderedQuantity pid rest). lia.
Qed.

(** ** Admin status update *)

(** The admin gate writes the order collection only. *)
Lemma updateOrderStatus_frame oid newStatus st res st' :
  updateOrderStatus oid newStatus st = (res, st') →
  products st' = products st ∧ carts st' = carts st ∧ payments st' = payments st.
Proof.
  unfold updateOrderStatus. db_simpl.
  destruct (orders st !! oid) as [o|]; [|by inversion 1].
  destruct (bool_decide _); by inversion 1.
Qed.

(** C2 (the code at the failing input).  In [pendingStore] order 1 is
    pending and holds two reserved units of product 1.  The admin update to
    CANCELLED returns the order with status CANCELLED and leaves the two
    units reserved, where cancelOrder releases them; after the admin update
    cancelOrder is a no-op, so the units stay reserved. *)
Theorem updateOrderStatus_cancel_keeps_reservation :
  let o := mkOrder 9 [mkOrderItem 1 2 5] 10 PENDING_PAYMENT 901000 in
  let admin := updateOrderStatus 1 CANCELLED pendingStore in
  orders pendingStore !! 1%positive = Some o ∧
  fst admin = inr (set_status CANCELLED o) ∧
  products (snd admin) !! 1%positive = Some (mkProduct 5 10 2) ∧
  products (snd (cancelOrder false 1 pendingStore)) !! 1%positive = Some (mkProduct 5 10 0) ∧
  cancelOrder false 1 (snd admin) = (inr None, snd admin) ∧
  ¬ admin_cancellation_releases.
Proof.
  intros o admin. split_and!; [done..|].
  intros Hclaim.
  destruct (Hclaim 1%positive pendingStore o (set_status CANCELLED o) (snd admin)
              eq_refl eq_refl eq_refl) as (_ & Hprod).
  specialize (Hprod 1%positive). vm_compute in Hprod. discriminate.
Qed.

Lemma listedForAdmin_validTransitions from to :
  listedForAdmin from to = bool_decide (to ∈ validTransitions from).
Proof. by destruct from, to. Qed.

Lemma listedForAdmin_table from to :
  listedForAdmin from to = true ↔
  (from, to) ∈ [(PENDING_PAYMENT, CANCELLED); (PAID, SHIPPED); (PAID, CANCELLED);
                (SHIPPED, DELIVERED)].
Proof.
  rewrite <- (bool_decide_eq_true
    ((from, to) ∈ [(PENDING_PAYMENT, CANCELLED); (PAID, SHIPPED); (PAID, CANCELLED);
                   (SHIPPED, DELIVERED)])).
  by destruct from, to.
Qed.

(** C9.  For an existing order, updateOrderStatus throws 'Invalid status
    transition from (current status) to (requested status)' for every
    transition that the transition table does not list for the admin, and
    leaves the store as it was.  For a listed transition it returns the
    order with the requested status and its other fields unchanged, stores
    it under the same id, and changes no other order, no product, cart or
    payment.  The transitions listed for the admin are PENDING_PAYMENT to
    CANCELLED, PAID to SHIPPED or CANCELLED, and SHIPPED to DELIVERED
    (PENDING_PAYMENT to PAID is listed for the payment only, and the admin
    gate refuses it).  From DELIVERED and from CANCELLED every requested
    status is refused. *)
Theorem updateOrderStatus_gate oid newStatus st o :
  orders st !! oid = Some o →
  (listedForAdmin (status o) newStatus = false →
     updateOrderStatus oid newStatus st
     = (inl (InvalidTransition (status o) newStatus), st)) ∧
  (listedForAdmin (status o) newStatus = true →
     ∃ updated st',
       updateOrderStatus oid newStatus st = (inr updated, st') ∧
       status updated = newStatus ∧
       (userId updated = userId o ∧ items updated = items o ∧
        totalAmount updated = totalAmount o ∧
        paymentDeadline updated = paymentDeadline o) ∧
       orders st' !! oid = Some updated ∧
       (∀ oid', oid' ≠ oid → orders st' !! oid' = orders st !! oid') ∧
       products st' = products st ∧ carts st' = carts st ∧ payments st' = payments st) ∧
  (status o = DELIVERED ∨ status o = CANCELLED →
     updateOrderStatus oid newStatus st
     = (inl (InvalidTransition (status o) newStatus), st)) ∧
  (status o = PENDING_PAYMENT → newStatus = PAID →
     updateOrderStatus oid newStatus st
     = (inl (InvalidTransition PENDING_PAYMENT PAID), st)) ∧
  (listedForAdmin (status o) newStatus = true ↔
   (status o, newStatus) ∈ [(PENDING_PAYMENT, CANCELLED); (PAID, SHIPPED);
                            (PAID, CANCELLED); (SHIPPED, DELIVERED)]).
Proof.
  intros Ho.
  assert (Hrefused : listedForAdmin (status o) newStatus = false →
    updateOrderStatus oid newStatus st
    = (inl (InvalidTransition (status o) newStatus), st)).
  { rewrite listedForAdmin_validTransitions.
    unfold updateOrderStatus. db_simpl. rewrite Ho. by intros ->. }
  split; [done|]. split; [|split; [|split]].
  - rewrite listedForAdmin_validTransitions. intros Hlisted.
    exists (set_status newStatus o), (set_orders (insert oid (set_status newStatus o)) st).
    split.
    { unfold updateOrderStatus. db_simpl. by rewrite Ho, Hlisted. }
    split; [done|]. split; [done|]. simpl. split; [apply lookup_insert_eq|].
    split; [|done]. intros oid' Hne. by apply lookup_insert_ne.
  - intros Hfinal. apply Hrefused. by destruct Hfinal as [-> | ->].
  - intros Hpending ->. rewrite <- Hpending. apply Hrefused. by rewrite Hpending.
  - apply listedForAdmin_table.
Qed.

Lemma updateOrderStatus_gate_witness :
  let o := mkOrder 9 [mkOrderItem 1 2 5] 10 PENDING_PAYMENT 901000 in
  updateOrderStatus 1 SHIPPED pendingStore
  = (inl (InvalidTransition PENDING_PAYMENT SHIPPED), pendingStore) ∧
  (∃ updated st',
     updateOrderStatus 1 CANCELLED pendingStore = (inr updated, st') ∧
     status updated = CANCELLED ∧
     orders st' !! 1%positive = Some updated) ∧
  updateOrderStatus 1 SHIPPED deliveredStore
  = (inl (InvalidTransition DELIVERED SHIPPED), deliveredStore).
Proof.
  intros o. split_and!.
  - apply (proj1 (updateOrderStatus_gate 1 SHIPPED pendingStore o eq_refl)). reflexivity.
  - destruct (proj1 (proj2 (updateOrderStatus_gate 1 CANCELLED pendingStore o eq_refl))
                eq_refl)
      as (updated & st' & Hrun & Hstatus & _ & Hstored & _).
    by exists updated, st'.
  - apply (proj1 (proj2 (proj2 (updateOrderStatus_gate 1 SHIPPED deliveredStore
             (set_status DELIVERED o) eq_refl)))).
    left. reflexivity.
Defined.

(** ** Reading an order *)

(** C10.  getOrderById checks existence before ownership: with no order
    under [orderId] it throws 'Order not found' (404); for an order of
    another user it throws 'Unauthorized access to order' (403) and returns
    nothing of the order; the owner receives the order, its items
    populated.  No case writes to the store. *)
Theorem getOrderById_existence_before_ownership orderId uid st :
  match orders st !! orderId with
  | None => getOrderById orderId uid st = (inl OrderNotFound, st)
  | Some o =>
      if decide (userId o = uid)
      then getOrderById orderId uid st
           = (inr (o, (λ it, products st !! productId it) <$> items o), st)
      else getOrderById orderId uid st = (inl Unauthorized, st)
  end ∧
  statusCode OrderNotFound = 404 ∧ statusCode Unauthorized = 403.
Proof.
  split; [|done]. unfold getOrderById. db_simpl.
  destruct (orders st !! orderId) as [o|]; simpl; [|done].
  destruct (decide (userId o = uid)) as [Heq|Hne].
  - by rewrite decide_False by (by intros Hn).
  - by rewrite decide_True.
Qed.

(** ** The stock invariant along runs of the engine *)

Lemma checkoutWithoutTransaction_invariant env now uid st res st' :
  engine_invariant st →
  checkoutWithoutTransaction env now uid st = (res, st') →
  engine_invariant st'.
Proof.
  intros (Hprod & Hord & Hcarts).
  unfold checkoutWithoutTransaction. db_simpl.
  destruct (carts st !! uid) as [cart|] eqn:Hcart; simpl;
    [|intros H; inversion H; subst; by (split; [|split])].
  destruct (decide _); [intros H; inversion H; subst; by (split; [|split])|].
  assert (Hvalid : valid_cart cart) by (by eapply (Hcarts uid)).
  destruct (reserveLoop _ _ _ _) as [[e1|[ois t]] st1] eqn:Hloop.
  - intros H. inversion H; subst.
    destruct (reserveLoop_frame _ _ _ _ _ _ Hloop) as (Hc & Ho & _).
    split; [|split].
    + eapply reserveLoop_invariant; [|exact Hprod|exact Hloop].
      apply Forall_fmap. eapply Forall_impl; [exact Hvalid|]. simpl. intros; lia.
    + by rewrite Ho.
    + by rewrite Hc.
  - simpl. destruct (newDate _ _) as [deadline|]; intros H; inversion H; subst;
      destruct (reserveLoop_frame _ _ _ _ _ _ Hloop) as (Hc & Ho & _);
      (split; [|split]).
    4:{ eapply reserveLoop_invariant; [|exact Hprod|exact Hloop].
        apply Forall_fmap. eapply Forall_impl; [exact Hvalid|]. simpl. intros; lia. }
    4:{ by rewrite Ho. }
    4:{ by rewrite Hc. }
    + unfold products_invariant. simpl.
      eapply reserveLoop_invariant; [|exact Hprod|exact Hloop].
      apply Forall_fmap. eapply Forall_impl; [exact Hvalid|]. simpl. intros; lia.
    + simpl. rewrite Ho. apply map_Forall_insert_2; [|done].
      apply reserveLoop_returns in Hloop as (new & -> & _ & Hall & _).
      apply Forall2_fmap_l in Hall. unfold valid_order. simpl.
      clear -Hall Hvalid. induction Hall as [|line it cart new (_ & Hq & _) _ IH];
        [constructor|].
      inversion Hvalid; subst. constructor; [|by apply IH].
      unfold populateCartItem in Hq. simpl in Hq. lia.
    + simpl. by rewrite Hc.
Qed.

Lemma processPaymentWithoutTransaction_invariant now txn oid uid st res st' :
  engine_invariant st →
  processPaymentWithoutTransaction now txn oid uid st = (res, st') →
  engine_invariant st'.
Proof.
  intros (Hprod & Hord & Hcarts).
  unfold processPaymentWithoutTransaction. db_simpl.
  destruct (orders st !! oid) as [o|] eqn:Ho;
    [|intros H; inversion H; subst; by (split; [|split])].
  repeat (destruct (decide _); [intros H; inversion H; subst; by (split; [|split])|]).
  destruct (_ <? _); [intros H; inversion H; subst; by (split; [|split])|].
  destruct (commitLoop _ _) as [[e1|[]] st1] eqn:Hloop.
  - intros H. inversion H; subst.
    destruct (commitLoop_frame _ _ _ _ Hloop) as (Hc & Ho' & _).
    split; [|split].
    + by eapply commitLoop_invariant.
    + by rewrite Ho'.
    + by rewrite Hc.
  - destruct (commitLoop_frame _ _ _ _ Hloop) as (Hc & Ho' & _).
    assert (Hprod1 : products_invariant st1) by (by eapply commitLoop_invariant).
    assert (Hord1 : map_Forall (λ _ o, valid_order o)
                      (<[oid := set_status PAID o]> (orders st1))).
    { rewrite Ho'. apply map_Forall_insert_2; [|done]. exact (Hord oid o Ho). }
    simpl. unfold Payment_create. simpl.
    destruct (decide _); intros H; inversion H; subst; (split; [|split]); simpl; try done.
    + by rewrite Hc.
    + rewrite Hc. intros u c Hu. apply lookup_alter_Some in Hu
        as [(_ & c0 & _ & ->)|(_ & Hu)]; [constructor|exact (Hcarts u c Hu)].
Qed.

Lemma cancelOrderWithoutTransaction_invariant oid st res st' :
  engine_invariant st →
  cancelOrderWithoutTransaction oid st = (res, st') →
  engine_invariant st'.
Proof.
  intros (Hprod & Hord & Hcarts).
  unfold cancelOrderWithoutTransaction. db_simpl.
  destruct (orders st !! oid) as [o|] eqn:Ho;
    [|intros H; inversion H; subst; by (split; [|split])].
  destruct (decide _); [intros H; inversion H; subst; by (split; [|split])|].
  destruct (releaseLoop _ _) as [[e1|[]] st1] eqn:Hloop.
  { destruct (releaseLoop_returns (items o) st) as (? & Hrun & _). congruence. }
  assert (Hvalid : valid_order o) by (by apply (Hord oid)).
  assert (Hprod1 : products_invariant st1).
  { eapply releaseLoop_invariant; [|exact Hprod|exact Hloop].
    eapply Forall_impl; [exact Hvalid|]. simpl. intros; lia. }
  destruct (releaseLoop_returns (items o) st) as (st2 & Hrun & Hc & Ho' & _).
  rewrite Hloop in Hrun. inversion Hrun; subst st2.
  intros H. inversion H; subst. split; [|split]; simpl; try done.
  - rewrite Ho'. apply map_Forall_insert_2; [exact Hvalid|done].
  - by rewrite Hc.
Qed.

Lemma updateOrderStatus_invariant oid newStatus st res st' :
  engine_invariant st →
  updateOrderStatus oid newStatus st = (res, st') →
  engine_invariant st'.
Proof.
  intros (Hprod & Hord & Hcarts).
  unfold updateOrderStatus. db_simpl.
  destruct (orders st !! oid) as [o|] eqn:Ho;
    [|intros H; inversion H; subst; by (split; [|split])].
  destruct (bool_decide _); intros H; inversion H; subst; [|by (split; [|split])].
  split; [|split]; simpl; try done.
  apply map_Forall_insert_2; [|done]. exact (Hord oid o Ho).
Qed.

Lemma inTransaction_invariant {A} st (r : (Error + A) * Store) :
  engine_invariant st → engine_invariant (snd r) →
  engine_invariant (snd (inTransaction st r)).
Proof. intros ? ?. by destruct (inTransaction_store st r) as [-> | ->]. Qed.

(** Every operation of the engine, whether it returns or throws, in either
    mode, keeps the invariant. *)
Lemma step_invariant op st :
  engine_invariant st → engine_invariant (step op st).
Proof.
  intros Hinv. destruct op as [tx env now uid|tx now txn oid uid|tx oid|oid s]; simpl.
  - assert (Hseq : engine_invariant (snd (checkoutWithoutTransaction env now uid st))).
    { destruct (checkoutWithoutTransaction env now uid st) as [res st'] eqn:Hrun.
      by eapply checkoutWithoutTransaction_invariant. }
    destruct tx; simpl; [|done].
    rewrite checkoutWithTransaction_sequential. by apply inTransaction_invariant.
  - assert (Hseq : engine_invariant
                     (snd (processPaymentWithoutTransaction now txn oid uid st))).
    { destruct (processPaymentWithoutTransaction now txn oid uid st) as [res st'] eqn:Hrun.
      by eapply processPaymentWithoutTransaction_invariant. }
    destruct tx; simpl; [|done].
    rewrite processPaymentWithTransaction_sequential. by apply inTransaction_invariant.
  - rewrite cancelOrder_sequential.
    destruct (cancelOrderWithoutTransaction oid st) as [res st'] eqn:Hrun.
    by eapply cancelOrderWithoutTransaction_invariant.
  - destruct (updateOrderStatus oid s st) as [res st'] eqn:Hrun.
    by eapply updateOrderStatus_invariant.
Qed.

Lemma trace_invariant ops : ∀ st,
  engine_invariant st → Forall engine_invariant (trace ops st).
Proof.
  induction ops as [|op rest IH]; intros st Hinv; simpl; [constructor|].
  constructor; [by apply step_invariant|]. apply IH. by apply step_invariant.
Qed.

(** C4.  From a store in which every product satisfies
    [0 ≤ reservedStock ≤ stock] (and whose orders and carts satisfy their
    schema's [quantity ≥ 1]), every sequence of checkouts, payments,
    cancellations and admin status updates, in either mode, returning or
    throwing, leaves after each operation a store in which every product
    satisfies [0 ≤ reservedStock ≤ stock].  The three mechanisms: a
    reservation that succeeds found [stock - reservedStock ≥ quantity]
    before adding the quantity to [reservedStock]; a commit that would
    drive [reservedStock] or [stock] below zero is rejected without a
    write; a release writes the decremented [reservedStock] clamped at
    zero. *)
Theorem stock_invariant_along_runs st ops :
  products_invariant st →
  valid_documents st →
  Forall products_invariant (trace ops st) ∧
  (∀ item acc t st0 r st1,
     reserveLoop [item] acc t st0 = (inr r, st1) →
     ∃ pid p, populatedId item = Some pid ∧ products st0 !! pid = Some p ∧
       populatedQuantity item ≤ stock p - reservedStock p ∧
       products st1 = <[pid := reservedBy (populatedQuantity item) p]> (products st0)) ∧
  (∀ item st0 p,
     products st0 !! productId item = Some p →
     reservedStock p - quantity item < 0 ∨ stock p - quantity item < 0 →
     commitLoop [item] st0 = (inl StockCalculationError, st0)) ∧
  (∀ item st0 p,
     products st0 !! productId item = Some p →
     ∃ st1, releaseLoop [item] st0 = (inr tt, st1) ∧
       products st1
       = <[productId item := set_reservedStock (Z.max 0 (reservedStock p - quantity item)) p]>
           (products st0)).
Proof.
  intros Hprod Hdocs. split_and!.
  - eapply Forall_impl; [apply trace_invariant; by split|]. by intros st' (? & _).
  - intros item acc t st0 r st1. simpl.
    destruct (populatedId item) as [pid|]; [|by db_simpl].
    db_simpl. destruct (products st0 !! pid) as [p|] eqn:Hp; [|done].
    destruct (_ <? _) eqn:Hlt; [done|]. intros H. inversion H; subst.
    exists pid, p. apply Z.ltb_ge in Hlt. by split_and!.
  - intros item st0 p Hp Hneg. simpl. db_simpl. rewrite Hp.
    destruct (_ || _) eqn:Hor; [done|].
    apply orb_false_iff in Hor as (H1 & H2).
    apply Z.ltb_ge in H1, H2. lia.
  - intros item st0 p Hp. simpl. db_simpl. rewrite Hp.
    eexists. split; [reflexivity|]. simpl.
    destruct (_ <? _) eqn:Hlt; [apply Z.ltb_lt in Hlt|apply Z.ltb_ge in Hlt].
    + by rewrite Z.max_l by lia.
    + by rewrite Z.max_r by lia.
Qed.

Lemma stock_invariant_along_runs_witness :
  Forall products_invariant
    (trace [OpCheckout false TimeoutUnset 1000 9;
            OpUpdateOrderStatus 1 CANCELLED;
            OpCancelOrder true 1;
            OpCheckout true (TimeoutMinutes 30) 5000 9;
            OpProcessPayment false 6000 "TXN-6000-Q2" 2 9]
       shopStore).
Proof.
  refine (proj1 (stock_invariant_along_runs shopStore _ _ _)).
  - by apply (bool_decide_unpack _).
  - by apply (bool_decide_unpack _).
Defined.

(** ** End to end *)

(** One product with ten units; user 9 checks out two of them, pays before
    the deadline, and the expiry timer fires afterwards: the order is
    pending with two units reserved, then PAID with eight units left and
    none reserved and one payment of the order's total, and the late
    cancellation changes nothing. *)
Example checkout_pay_expire :
  let o := mkOrder 9 [mkOrderItem 1 2 5] 10 PENDING_PAYMENT 901000 in
  let paidStore := snd (processPayment true 2000 "TXN-2000-A1" 1 9 pendingStore) in
  checkout true TimeoutUnset 1000 9 shopStore = (inr (1%positive, o), pendingStore) ∧
  fst (processPayment true 2000 "TXN-2000-A1" 1 9 pendingStore)
    = inr (set_status PAID o, mkPayment 1 "TXN-2000-A1" 10 SUCCESS) ∧
  products paidStore !! 1%positive = Some (mkProduct 5 8 0) ∧
  payments paidStore = [mkPayment 1 "TXN-2000-A1" 10 SUCCESS] ∧
  cancelOrder true 1 paidStore = (inr None, paidStore).
Proof. by split_and!; vm_compute. Qed.

(** * The engine as a whole *)

(** ** Every call has one of the listed effects *)

Ltac in_list H :=
  repeat (apply elem_of_cons in H as [H|H]; [try done|]);
  try (by apply elem_of_nil in H).

Ltac whole_effect eff :=
  exists eff; split; [simpl; first [done|by split_and!]|by intros []].

Lemma processPaymentWithoutTransaction_effect now txn oid uid st res st' :
  processPaymentWithoutTransaction now txn oid uid st = (res, st') →
  ∃ eff, effect_holds eff st st' ∧
    match eff with
    | NoEffect => ∃ e, res = inl e
    | PartialCommit oid' _ _ => oid' = oid ∧ ∃ e, res = inl e
    | Paid oid' o txn' true => oid' = oid ∧ txn' = txn ∧ userId o = uid ∧ ∃ r, res = inr r
    | Paid oid' o txn' false => oid' = oid ∧ res = inl DuplicateKey
    | _ => False
    end.
Proof.
  unfold processPaymentWithoutTransaction. db_simpl.
  destruct (orders st !! oid) as [o|] eqn:Ho;
    [|intros H; inversion H; subst; exists NoEffect; simpl; eauto].
  destruct (decide (userId o ≠ uid)) as [|Hown];
    [intros H; inversion H; subst; exists NoEffect; simpl; eauto|].
  destruct (decide (status o ≠ PENDING_PAYMENT)) as [|Hst];
    [intros H; inversion H; subst; exists NoEffect; simpl; eauto|].
  destruct (_ <? _); [intros H; inversion H; subst; exists NoEffect; simpl; eauto|].
  assert (Hpending : status o = PENDING_PAYMENT).
  { by destruct (status o); try done; exfalso; apply Hst. }
  assert (Howner : userId o = uid).
  { destruct (decide (userId o = uid)); [done|]. by destruct Hown. }
  destruct (commitLoop _ _) as [[e1|[]] st1] eqn:Hloop.
  - intros H. inversion H; subst.
    destruct (commitLoop_frame _ _ _ _ Hloop) as (? & ? & ?).
    apply commitLoop_throws in Hloop as (_ & k & Hk & Hprod).
    exists (PartialCommit oid o k). simpl. split_and!; eauto.
  - destruct (commitLoop_frame _ _ _ _ Hloop) as (Hc & Hord & Hpay).
    pose proof (commitLoop_returns _ _ _ Hloop) as Hprod.
    simpl. unfold Payment_create. simpl. rewrite Hpay.
    destruct (decide _) as [Hin|Hnotin]; intros H; inversion H; subst; simpl.
    + exists (Paid oid o txn false). simpl. rewrite Hord. split_and!; eauto.
    + exists (Paid oid o txn true). simpl. rewrite Hord, Hpay, Hc. split_and!; eauto.
Qed.

Lemma checkoutWithoutTransaction_effect env now uid st res st' :
  checkoutWithoutTransaction env now uid st = (res, st') →
  ∃ eff, effect_holds eff st st' ∧ ¬ partialEffect eff.
Proof.
  destruct res as [e|[oid o]]; intros H.
  - apply checkoutWithoutTransaction_throws in H as (Hc & Ho & Hp & k & _ & Hprod & _).
    whole_effect (PartialReserve uid k).
  - apply checkoutWithoutTransaction_returns in H
      as (_ & (Hnew & Hord) & (Hc & Hpay) & (Hu & Hst) & Hall & _ & _ & Hprod).
    whole_effect (CheckedOut uid oid o).
Qed.

Lemma cancelOrderWithoutTransaction_effect oid st res st' :
  cancelOrderWithoutTransaction oid st = (res, st') →
  ∃ eff, effect_holds eff st st' ∧ ¬ partialEffect eff.
Proof.
  intros H.
  destruct (orders st !! oid) as [o|] eqn:Ho.
  - destruct (decide (status o = PENDING_PAYMENT)) as [Hst|Hst].
    + destruct (cancelOrderWithoutTransaction_pending oid st o Ho Hst)
        as (st1 & Hrun & Hord & Hc & Hpay & Hprod).
      rewrite Hrun in H. inversion H; subst.
      whole_effect (Cancelled oid o).
    + rewrite cancelOrderWithoutTransaction_guard in H by eauto.
      inversion H; subst. whole_effect NoEffect.
  - rewrite cancelOrderWithoutTransaction_guard in H by eauto.
    inversion H; subst. whole_effect NoEffect.
Qed.

Lemma updateOrderStatus_effect oid s st res st' :
  updateOrderStatus oid s st = (res, st') →
  ∃ eff, effect_holds eff st st' ∧ ¬ partialEffect eff.
Proof.
  unfold updateOrderStatus. db_simpl.
  destruct (orders st !! oid) as [o|] eqn:Ho;
    [|intros H; inversion H; subst; whole_effect NoEffect].
  destruct (bool_decide _) eqn:Hin; intros H; inversion H; subst;
    [|whole_effect NoEffect].
  apply bool_decide_eq_true in Hin.
  whole_effect (StatusSet oid o s).
Qed.

Lemma inTransaction_effect {A} st (r : (Error + A) * Store) (P : Effect → Prop) :
  P NoEffect →
  (∃ eff, effect_holds eff st (snd r) ∧ P eff) →
  ∃ eff, effect_holds eff st (snd (inTransaction st r)) ∧ P eff.
Proof.
  intros HP Hr. destruct r as [[e|a] st1]; simpl in *; [|done].
  by exists NoEffect.
Qed.

(** Whatever the operation, mode and outcome, the store changes by one of
    the listed effects; a half-done commit comes from a fallback payment
    only. *)
Lemma step_effect op st :
  ∃ eff, effect_holds eff st (step op st) ∧ (atomicPayment op → ¬ partialEffect eff).
Proof.
  destruct op as [tx env now uid|tx now txn oid uid|tx oid|oid s]; simpl.
  - assert (Hseq : ∃ eff,
      effect_holds eff st (snd (checkoutWithoutTransaction env now uid st)) ∧
      (True → ¬ partialEffect eff)).
    { destruct (checkoutWithoutTransaction env now uid st) as [res st'] eqn:Hrun.
      destruct (checkoutWithoutTransaction_effect _ _ _ _ _ _ Hrun) as (eff & ? & ?).
      exists eff. eauto. }
    destruct tx; simpl; [|done].
    rewrite checkoutWithTransaction_sequential.
    apply inTransaction_effect; [by intros _ []|done].
  - destruct tx; simpl.
    + rewrite processPaymentWithTransaction_sequential.
      destruct (processPaymentWithoutTransaction now txn oid uid st) as [res st'] eqn:Hrun.
      destruct (processPaymentWithoutTransaction_effect _ _ _ _ _ _ _ Hrun)
        as (eff & Heff & Hres).
      destruct res as [e|r]; simpl.
      * exists NoEffect. split; [done|]. by intros _ [].
      * exists eff. split; [done|]. intros _.
        destruct eff as [| | | | ? ? ? []| |]; simpl in *; try done; try (by intros []).
        by destruct Hres as (_ & ? & ?).
    + destruct (processPaymentWithoutTransaction now txn oid uid st) as [res st'] eqn:Hrun.
      destruct (processPaymentWithoutTransaction_effect _ _ _ _ _ _ _ Hrun)
        as (eff & Heff & _).
      exists eff. split; [done|]. by intros [].
  - rewrite cancelOrder_sequential.
    destruct (cancelOrderWithoutTransaction oid st) as [res st'] eqn:Hrun.
    destruct (cancelOrderWithoutTransaction_effect _ _ _ _ Hrun) as (eff & ? & ?).
    exists eff. eauto.
  - destruct (updateOrderStatus oid s st) as [res st'] eqn:Hrun.
    destruct (updateOrderStatus_effect _ _ _ _ _ Hrun) as (eff & ? & ?).
    exists eff. eauto.
Qed.

(** ** Orders are kept, their snapshot is immutable, their status follows
       the lifecycle *)

Lemma lifecycleStep_not_to_pending s : ¬ lifecycleStep s PENDING_PAYMENT.
Proof. intros [(_ & ?)|Hin]; [done|]. destruct s; simpl in Hin; in_list Hin. Qed.

Lemma lifecycleStep_terminal s s' :
  lifecycleStep s s' → s ≠ DELIVERED ∧ s ≠ CANCELLED.
Proof.
  intros [(-> & _)|Hin]; [done|]. destruct s; simpl in Hin; first [done|in_list Hin].
Qed.

Lemma lifecycle_never_back_to_pending s s' :
  rtc lifecycleStep s s' → s' = PENDING_PAYMENT → s = PENDING_PAYMENT.
Proof.
  induction 1 as [|s1 s2 s3 Hstep _ IH]; [done|].
  intros ->. specialize (IH eq_refl) as ->.
  by apply lifecycleStep_not_to_pending in Hstep.
Qed.

Lemma lifecycle_terminal s s' :
  rtc lifecycleStep s s' → s = DELIVERED ∨ s = CANCELLED → s' = s.
Proof.
  destruct 1 as [|s1 s2 s3 Hstep _]; [done|].
  apply lifecycleStep_terminal in Hstep as (? & ?). by intros [?|?].
Qed.

Lemma sameSnapshot_set_status s o : sameSnapshot o (set_status s o).
Proof. by repeat split. Qed.

Lemma orders_evolve_refl st : orders_evolve st st.
Proof. intros oid o Ho. exists o. split_and!; [done|by repeat split|done]. Qed.

Lemma orders_evolve_same st st' : orders st' = orders st → orders_evolve st st'.
Proof. intros Heq oid o Ho. exists o. rewrite Heq. split_and!; [done|by repeat split|done]. Qed.

Lemma orders_evolve_trans st1 st2 st3 :
  orders_evolve st1 st2 → orders_evolve st2 st3 → orders_evolve st1 st3.
Proof.
  intros H12 H23 oid o Ho.
  destruct (H12 oid o Ho) as (o2 & Ho2 & (? & ? & ? & ?) & Hs2).
  destruct (H23 oid o2 Ho2) as (o3 & Ho3 & (? & ? & ? & ?) & Hs3).
  exists o3. split_and!; [done| |by etrans].
  repeat split; congruence.
Qed.

Lemma orders_evolve_status st st' oid o s :
  orders st !! oid = Some o →
  lifecycleStep (status o) s →
  orders st' = <[oid := set_status s o]> (orders st) →
  orders_evolve st st'.
Proof.
  intros Ho Hstep Heq oid0 o0 Ho0. rewrite Heq.
  destruct (decide (oid = oid0)) as [<-|Hne].
  - rewrite lookup_insert_eq. rewrite Ho in Ho0. inversion Ho0; subst o0.
    eexists. split_and!; [done|apply sameSnapshot_set_status|by apply rtc_once].
  - rewrite lookup_insert_ne by done.
    exists o0. split_and!; [done|by repeat split|done].
Qed.

Lemma effect_orders_evolve eff st st' :
  effect_holds eff st st' → orders_evolve st st'.
Proof.
  destruct eff as [|uid k|uid oid o|oid o k|oid o txn rec|oid o|oid o s]; simpl.
  - intros ->. apply orders_evolve_refl.
  - intros (_ & Ho & _). by apply orders_evolve_same.
  - intros (Hnew & Heq & _) oid0 o0 Ho0. rewrite Heq.
    rewrite lookup_insert_ne by congruence.
    exists o0. split_and!; [done|by repeat split|done].
  - intros (_ & _ & Ho & _). by apply orders_evolve_same.
  - intros (Ho & Hst & Heq & _). eapply orders_evolve_status; [done| |done].
    left. by rewrite Hst.
  - intros (Ho & Hst & Heq & _). eapply orders_evolve_status; [done| |done].
    right. rewrite Hst. simpl. by apply list_elem_of_singleton.
  - intros (Ho & Hin & Heq & _). eapply orders_evolve_status; [done| |done].
    by right.
Qed.

Lemma step_orders_evolve op st : orders_evolve st (step op st).
Proof.
  destruct (step_effect op st) as (eff & Heff & _). by eapply effect_orders_evolve.
Qed.

(** X1.  Along every run of the engine (checkouts, payments, cancellations
    and admin updates, in either mode, returning or throwing), no order is
    ever deleted; its owner, items, priceAtPurchase snapshot, totalAmount
    and paymentDeadline never change; and its status only moves along
    PENDING_PAYMENT → PAID → SHIPPED → DELIVERED or to CANCELLED from
    PENDING_PAYMENT or PAID.  So an order that is DELIVERED or CANCELLED
    keeps that status for good, and no order ever comes back to
    PENDING_PAYMENT. *)
Theorem orders_along_runs st ops :
  Forall (λ st', ∀ oid o, orders st !! oid = Some o →
    ∃ o', orders st' !! oid = Some o' ∧
      sameSnapshot o o' ∧
      rtc lifecycleStep (status o) (status o') ∧
      (status o = DELIVERED ∨ status o = CANCELLED → status o' = status o) ∧
      (status o' = PENDING_PAYMENT → status o = PENDING_PAYMENT))
    (trace ops st).
Proof.
  assert (Hall : ∀ ops st0, orders_evolve st st0 →
                   Forall (orders_evolve st) (trace ops st0)).
  { clear ops. induction ops as [|op rest IH]; intros st0 H0; simpl; [constructor|].
    assert (Hstep : orders_evolve st (step op st0)).
    { eapply orders_evolve_trans; [exact H0|apply step_orders_evolve]. }
    constructor; [done|by apply IH]. }
  eapply Forall_impl; [apply Hall, orders_evolve_refl|]. simpl.
  intros st' Hev oid o Ho. destruct (Hev oid o Ho) as (o' & Ho' & Hsnap & Hrtc).
  exists o'. split_and!; try done.
  - by apply lifecycle_terminal.
  - by apply lifecycle_never_back_to_pending.
Qed.

(** ** Payment records *)

Lemma payments_invariant_evolve st st' :
  payments st' = payments st →
  orders_evolve st st' →
  payments_invariant st → payments_invariant st'.
Proof.
  intros Hpay Hev (Hnd1 & Hnd2 & Hall). unfold payments_invariant. rewrite Hpay.
  split_and!; [done..|].
  eapply Forall_impl; [exact Hall|]. simpl.
  intros p (Hs & o & Ho & Ham & Hst).
  destruct (Hev _ _ Ho) as (o' & Ho' & (_ & _ & Htot & _) & Hrtc).
  split; [done|]. exists o'. split_and!; [done|congruence|].
  intros Hp. apply Hst. by eapply lifecycle_never_back_to_pending.
Qed.

Lemma effect_payments_invariant eff st st' :
  effect_holds eff st st' →
  payments_invariant st → payments_invariant st'.
Proof.
  intros Heff Hinv. pose proof (effect_orders_evolve _ _ _ Heff) as Hev.
  destruct eff as [|uid k|uid oid o|oid o k|oid o txn [|]|oid o|oid o s]; simpl in Heff;
    try (apply (payments_invariant_evolve st); [|done..];
         first [by subst|by destruct_and!]).
  destruct Heff as (Ho & Hst & Hord & _ & Htxn & Hpay & _).
  destruct Hinv as (Hnd1 & Hnd2 & Hall).
  unfold payments_invariant. rewrite Hpay, !fmap_app. simpl.
  split_and!.
  - apply NoDup_app. split_and!; [done| |apply NoDup_singleton].
    intros oid' Hin Hin'. apply list_elem_of_singleton in Hin'. subst oid'.
    apply list_elem_of_fmap in Hin as (p & Hp & Hin).
    rewrite Forall_forall in Hall. destruct (Hall p Hin) as (_ & o' & Ho' & _ & Hst').
    rewrite <- Hp, Ho in Ho'. congruence.
  - apply NoDup_app. split_and!; [done| |apply NoDup_singleton].
    intros t Hin Hin'. apply list_elem_of_singleton in Hin'. by subst t.
  - apply Forall_app. split.
    + eapply Forall_impl; [exact Hall|]. simpl.
      intros p (Hs & o1 & Ho1 & Ham & Hst1).
      destruct (Hev _ _ Ho1) as (o' & Ho' & (_ & _ & Htot & _) & Hrtc).
      split; [done|]. exists o'. split_and!; [done|congruence|].
      intros Hp. apply Hst1. by eapply lifecycle_never_back_to_pending.
    + constructor; [|constructor]. simpl. split; [done|].
      exists (set_status PAID o). rewrite Hord, lookup_insert_eq. by split_and!.
Qed.

(** X2.  From a store whose payment records are sound (at most one record
    per order and per transaction identifier, each a SUCCESS for the
    totalAmount of an order that is no longer PENDING_PAYMENT; an empty
    payment collection is), every run of the engine keeps them sound: an
    order is never paid twice, a transaction identifier is never reused,
    and a recorded amount always equals the order's total. *)
Theorem payments_along_runs st ops :
  payments_invariant st →
  Forall payments_invariant (trace ops st).
Proof.
  revert st. induction ops as [|op rest IH]; intros st Hinv; simpl; [constructor|].
  assert (Hstep : payments_invariant (step op st)).
  { destruct (step_effect op st) as (eff & Heff & _).
    by eapply effect_payments_invariant. }
  constructor; [done|by apply IH].
Qed.

Lemma payments_along_runs_witness :
  Forall payments_invariant
    (trace [OpCheckout false TimeoutUnset 1000 9;
            OpProcessPayment true 2000 "TXN-2000-A1" 1 9;
            OpProcessPayment false 3000 "TXN-3000-B2" 1 9;
            OpUpdateOrderStatus 1 SHIPPED]
       shopStore).
Proof.
  apply (payments_along_runs shopStore).
  unfold payments_invariant. simpl. split_and!; constructor.
Defined.

(** ** The catalogue *)

Lemma catalogue_kept_refl st : catalogue_kept st st.
Proof. intros pid. destruct (products st !! pid); [split; [done|lia]|done]. Qed.

Lemma catalogue_kept_trans st1 st2 st3 :
  catalogue_kept st1 st2 → catalogue_kept st2 st3 → catalogue_kept st1 st3.
Proof.
  intros H12 H23 pid. specialize (H12 pid). specialize (H23 pid).
  destruct (products st1 !! pid), (products st2 !! pid), (products st3 !! pid);
    try done.
  destruct H12, H23. split; [congruence|lia].
Qed.

Lemma catalogue_kept_fmap st st' (f : ObjectId → Product → Product) :
  (∀ pid p, products st !! pid = Some p →
     price (f pid p) = price p ∧ stock (f pid p) ≤ stock p) →
  (∀ pid, products st' !! pid = f pid <$> products st !! pid) →
  catalogue_kept st st'.
Proof.
  intros Hf Heq pid. rewrite Heq.
  destruct (products st !! pid) as [p|] eqn:Hp; simpl; [|done]. by apply Hf.
Qed.

Lemma effect_catalogue_kept eff st st' :
  effect_holds eff st st' →
  valid_documents st →
  catalogue_kept st st'.
Proof.
  intros Heff (Hord & _).
  assert (Hcommit : ∀ o oid k, orders st !! oid = Some o →
    ∀ pid, 0 ≤ orderedQuantity pid (take k (items o))).
  { intros o oid k Ho pid. apply orderedQuantity_nonneg, Forall_take.
    eapply Forall_impl; [exact (Hord oid o Ho)|]. simpl. intros; lia. }
  destruct eff as [|uid k|uid oid o|oid o k|oid o txn rec|oid o|oid o s]; simpl in Heff.
  - subst. apply catalogue_kept_refl.
  - destruct Heff as (_ & _ & _ & Hprod).
    eapply (catalogue_kept_fmap _ _ (λ pid, reservedBy _)); [|exact Hprod].
    intros; simpl; split; [done|lia].
  - destruct Heff as (_ & _ & _ & _ & _ & _ & _ & Hprod).
    eapply (catalogue_kept_fmap _ _ (λ pid, reservedBy _)); [|exact Hprod].
    intros; simpl; split; [done|lia].
  - destruct Heff as (Ho & _ & _ & _ & _ & Hprod).
    eapply (catalogue_kept_fmap _ _ (λ pid, committedBy _)); [|exact Hprod].
    intros pid p _. simpl. specialize (Hcommit o oid k Ho pid). split; [done|lia].
  - destruct Heff as (Ho & _ & _ & Hprod & _).
    eapply (catalogue_kept_fmap _ _ (λ pid, committedBy _)); [|exact Hprod].
    intros pid p _. simpl. specialize (Hcommit o oid (length (items o)) Ho pid).
    rewrite firstn_all in Hcommit. split; [done|lia].
  - destruct Heff as (_ & _ & _ & _ & _ & Hprod).
    eapply (catalogue_kept_fmap _ _ (λ pid, releasedBy pid _)); [|exact Hprod].
    intros; simpl; split; [done|lia].
  - destruct Heff as (_ & _ & _ & Hprod & _).
    intros pid. rewrite Hprod. destruct (products st !! pid); [split; [done|lia]|done].
Qed.

Lemma valid_documents_status st st' oid o s :
  orders st !! oid = Some o →
  orders st' = <[oid := set_status s o]> (orders st) →
  carts st' = carts st →
  valid_documents st → valid_documents st'.
Proof.
  intros Ho Hord Hc (Hvo & Hvc). split; [|by rewrite Hc].
  rewrite Hord. apply map_Forall_insert_2; [exact (Hvo oid o Ho)|done].
Qed.

Lemma effect_valid_documents eff st st' :
  effect_holds eff st st' →
  valid_documents st → valid_documents st'.
Proof.
  intros Heff Hdocs. pose proof Hdocs as (Hvo & Hvc).
  destruct eff as [|uid k|uid oid o|oid o k|oid o txn rec|oid o|oid o s]; simpl in Heff.
  - by subst.
  - destruct Heff as (Hc & Ho & _). split; [by rewrite Ho|by rewrite Hc].
  - destruct Heff as (_ & Hord & Hc & _ & _ & _ & Hall & _).
    split; [|by rewrite Hc]. rewrite Hord. apply map_Forall_insert_2; [|done].
    assert (Hcart : valid_cart (cartOf uid st)).
    { unfold cartOf. destruct (carts st !! uid) as [c|] eqn:Hcu; simpl;
        [exact (Hvc uid c Hcu)|constructor]. }
    unfold valid_order. clear -Hall Hcart.
    induction Hall as [|line it cart new (_ & Hq & _) _ IH]; [constructor|].
    inversion Hcart; subst. constructor; [lia|by apply IH].
  - destruct Heff as (_ & _ & Ho & _ & Hc & _). split; [by rewrite Ho|by rewrite Hc].
  - destruct Heff as (Ho & _ & Hord & _ & Hrec). destruct rec.
    + destruct Hrec as (_ & _ & Hc). split.
      * rewrite Hord. apply map_Forall_insert_2; [exact (Hvo oid o Ho)|done].
      * rewrite Hc. intros u c Hu. apply lookup_alter_Some in Hu
          as [(_ & c0 & _ & ->)|(_ & Hu)]; [constructor|exact (Hvc u c Hu)].
    + destruct Hrec as (_ & Hc). by eapply valid_documents_status.
  - destruct Heff as (Ho & _ & Hord & Hc & _). by eapply valid_documents_status.
  - destruct Heff as (Ho & _ & Hord & _ & Hc & _). by eapply valid_documents_status.
Qed.

(** X3.  Along every run of the engine from a store whose orders and carts
    satisfy their schema ([quantity ≥ 1]), the catalogue is kept: no
    product is created or deleted, no price changes, and no product's
    stock ever grows (only a payment lowers it; a cancellation does not
    give stock back, it only releases the reservation). *)
Theorem catalogue_along_runs st ops :
  valid_documents st →
  Forall (catalogue_kept st) (trace ops st).
Proof.
  intros Hdocs.
  assert (Hall : ∀ ops st0, valid_documents st0 → catalogue_kept st st0 →
                   Forall (catalogue_kept st) (trace ops st0)).
  { clear ops. induction ops as [|op rest IH]; intros st0 Hinv H0; simpl; [constructor|].
    destruct (step_effect op st0) as (eff & Heff & _).
    assert (Hstep : catalogue_kept st (step op st0)).
    { eapply catalogue_kept_trans; [exact H0|].
      by eapply effect_catalogue_kept. }
    constructor; [done|]. apply IH; [by eapply effect_valid_documents|done]. }
  apply Hall; [done|apply catalogue_kept_refl].
Qed.

Lemma catalogue_along_runs_witness :
  Forall (catalogue_kept shopStore)
    (trace [OpCheckout false TimeoutUnset 1000 9;
            OpProcessPayment true 2000 "TXN-2000-A1" 1 9;
            OpCancelOrder false 1]
       shopStore).
Proof.
  apply (catalogue_along_runs shopStore).
  by apply (bool_decide_unpack _).
Defined.

(** ** Reservations cover the pending orders *)

Lemma pendingQuantity_insert_new pid os k o :
  os !! k = None →
  pendingQuantity pid (<[k := o]> os) = pendingUnits pid o + pendingQuantity pid os.
Proof.
  intros Hk. unfold pendingQuantity.
  apply (map_fold_insert_L (λ _ o acc, pendingUnits pid o + acc)); [|done]. intros; lia.
Qed.

Lemma pendingQuantity_lookup pid os k o :
  os !! k = Some o →
  pendingQuantity pid os = pendingUnits pid o + pendingQuantity pid (delete k os).
Proof.
  intros Hk. unfold pendingQuantity.
  apply (map_fold_delete_L (λ _ o acc, pendingUnits pid o + acc)); [|done]. intros; lia.
Qed.

Lemma pendingQuantity_insert pid os k o o' :
  os !! k = Some o →
  pendingQuantity pid (<[k := o']> os)
  = pendingQuantity pid os - pendingUnits pid o + pendingUnits pid o'.
Proof.
  intros Hk. rewrite <- insert_delete_eq.
  rewrite pendingQuantity_insert_new by apply lookup_delete_eq.
  rewrite (pendingQuantity_lookup pid os k o Hk). lia.
Qed.

Lemma pendingUnits_nonneg pid o : valid_order o → 0 ≤ pendingUnits pid o.
Proof.
  intros Hv. unfold pendingUnits. destruct (decide _); [|lia].
  apply orderedQuantity_nonneg. eapply Forall_impl; [exact Hv|]. simpl. intros; lia.
Qed.

Lemma pendingQuantity_nonneg pid os :
  map_Forall (λ _ o, valid_order o) os → 0 ≤ pendingQuantity pid os.
Proof.
  induction os as [|k o os Hk IH] using map_ind; intros Hv.
  - unfold pendingQuantity. by rewrite map_fold_empty.
  - rewrite pendingQuantity_insert_new by done.
    apply map_Forall_insert in Hv as (Ho & Hrest); [|done].
    pose proof (pendingUnits_nonneg pid o Ho). specialize (IH Hrest). lia.
Qed.

Lemma pendingUnits_pending pid o :
  status o = PENDING_PAYMENT → pendingUnits pid o = orderedQuantity pid (items o).
Proof. intros Hst. unfold pendingUnits. by rewrite decide_True. Qed.

Lemma pendingUnits_not_pending pid o s :
  s ≠ PENDING_PAYMENT → pendingUnits pid (set_status s o) = 0.
Proof. intros Hs. unfold pendingUnits. simpl. by rewrite decide_False. Qed.

(** A pending order's units are part of the pending quantity. *)
Lemma orderedQuantity_le_pending pid os oid o :
  map_Forall (λ _ o, valid_order o) os →
  os !! oid = Some o →
  status o = PENDING_PAYMENT →
  orderedQuantity pid (items o) ≤ pendingQuantity pid os.
Proof.
  intros Hv Ho Hst. rewrite (pendingQuantity_lookup pid os oid o Ho).
  rewrite pendingUnits_pending by done.
  assert (0 ≤ pendingQuantity pid (delete oid os)); [|lia].
  apply pendingQuantity_nonneg. by apply map_Forall_delete.
Qed.

Lemma quantity_le_orderedQuantity it l :
  Forall (λ it, 0 ≤ quantity it) l →
  it ∈ l →
  quantity it ≤ orderedQuantity (productId it) l.
Proof.
  induction 1 as [|it' rest Hq Hrest IH]; intros Hin; [by apply elem_of_nil in Hin|].
  pose proof (orderedQuantity_nonneg (productId it) rest Hrest).
  apply elem_of_cons in Hin as [->|Hin]; simpl.
  - rewrite decide_True by done. lia.
  - specialize (IH Hin). destruct (decide _); lia.
Qed.

Lemma reservedOf_fmap st st' pid (f : Product → Product) :
  products st' !! pid = f <$> products st !! pid →
  reservedOf pid st'
  = from_option (λ p, reservedStock (f p)) 0 (products st !! pid).
Proof.
  intros Heq. unfold reservedOf. rewrite Heq. by destruct (products st !! pid).
Qed.

Lemma valid_cartOf uid st : valid_documents st → valid_cart (cartOf uid st).
Proof.
  intros (_ & Hvc). unfold cartOf.
  destruct (carts st !! uid) as [c|] eqn:Hc; simpl; [exact (Hvc uid c Hc)|constructor].
Qed.

(** Every effect but a half-done commit keeps the reservations covering
    the pending orders. *)
Lemma effect_reservations_cover eff st st' :
  effect_holds eff st st' →
  ¬ partialEffect eff →
  engine_invariant st →
  reservations_cover st → reservations_cover st'.
Proof.
  intros Heff Hwhole (Hinv & Hdocs) Hcover pid.
  pose proof Hdocs as (Hvo & Hvc). specialize (Hcover pid).
  assert (Hres : 0 ≤ reservedOf pid st).
  { unfold reservedOf. destruct (products st !! pid) as [p|] eqn:Hp; simpl; [|done].
    apply (Hinv pid p Hp). }
  assert (Hoq : ∀ oid o, orders st !! oid = Some o →
            0 ≤ orderedQuantity pid (items o)).
  { intros oid o Ho. apply orderedQuantity_nonneg.
    eapply Forall_impl; [exact (Hvo oid o Ho)|]. simpl. intros; lia. }
  destruct eff as [|uid k|uid oid o|oid o k|oid o txn rec|oid o|oid o s]; simpl in Heff.
  - by subst.
  - destruct Heff as (_ & Ho & _ & Hprod). rewrite Ho.
    rewrite (reservedOf_fmap _ _ _ _ (Hprod pid)). unfold reservedOf in *.
    assert (0 ≤ cartedQuantity pid (take k (cartOf uid st))).
    { apply cartedQuantity_nonneg, Forall_take.
      eapply Forall_impl; [exact (valid_cartOf uid st Hdocs)|]. simpl. intros; lia. }
    destruct (products st !! pid); simpl in *; lia.
  - destruct Heff as (Hnew & Hord & _ & _ & _ & Hst & Hall & Hprod).
    rewrite Hord, pendingQuantity_insert_new, pendingUnits_pending by done.
    rewrite (orderedQuantity_cartedQuantity pid (cartOf uid st) (items o) _ Hall).
    rewrite (reservedOf_fmap _ _ _ _ (Hprod pid)). unfold reservedOf in *.
    destruct (products st !! pid) as [p|] eqn:Hp; simpl in *; [lia|].
    rewrite cartedQuantity_absent; [lia|].
    clear -Hall Hp. induction Hall as [|line it cart new (_ & _ & p & Hline & _) _ IH];
      constructor; [congruence|done].
  - by destruct Hwhole.
  - destruct Heff as (Ho & Hst & Hord & Hprod & _).
    rewrite Hord, (pendingQuantity_insert pid _ oid o _ Ho).
    rewrite pendingUnits_pending, pendingUnits_not_pending by done.
    rewrite (reservedOf_fmap _ _ _ _ (Hprod pid)). unfold reservedOf in *.
    specialize (Hoq oid o Ho).
    destruct (products st !! pid); simpl in *; lia.
  - destruct Heff as (Ho & Hst & Hord & _ & _ & Hprod).
    rewrite Hord, (pendingQuantity_insert pid _ oid o _ Ho).
    rewrite pendingUnits_pending, pendingUnits_not_pending by done.
    rewrite (reservedOf_fmap _ _ _ _ (Hprod pid)). unfold reservedOf in *.
    specialize (Hoq oid o Ho).
    destruct (products st !! pid) as [p|] eqn:Hp; simpl in *; [|lia].
    rewrite releasedStock_closed_form; [lia|lia|].
    eapply Forall_impl; [exact (Hvo oid o Ho)|]. simpl. intros; lia.
  - destruct Heff as (Ho & Hin & Hord & Hprod & _).
    rewrite Hord, (pendingQuantity_insert pid _ oid o _ Ho).
    rewrite pendingUnits_not_pending.
    + pose proof (pendingUnits_nonneg pid o (Hvo oid o Ho)).
      unfold reservedOf in *. rewrite Hprod. lia.
    + intros ->. eapply lifecycleStep_not_to_pending. by right.
Qed.

(** X4.  From a store in which every product satisfies
    [0 ≤ reservedStock ≤ stock], the stored orders and carts satisfy their
    schema, and every product's [reservedStock] covers the units held by
    its pending orders (a store without orders does), every run of
    checkouts, cancellations and admin updates in either mode and of
    payments in the transactional mode keeps every product's
    [reservedStock] at or above the units of its pending orders. *)
Theorem reservations_along_runs st ops :
  products_invariant st →
  valid_documents st →
  reservations_cover st →
  Forall atomicPayment ops →
  Forall reservations_cover (trace ops st).
Proof.
  intros Hprod Hdocs Hcover Hops.
  assert (Hinv : engine_invariant st) by (by split). clear Hprod Hdocs.
  revert st Hinv Hcover. induction Hops as [|op rest Hop _ IH]; intros st Hinv Hcover;
    simpl; [constructor|].
  destruct (step_effect op st) as (eff & Heff & Hwhole).
  assert (Hstep : reservations_cover (step op st)).
  { eapply effect_reservations_cover; [exact Heff|by apply Hwhole|done..]. }
  constructor; [done|]. apply IH; [by apply step_invariant|done].
Qed.

Lemma reservations_cover_no_orders st :
  orders st = ∅ → products_invariant st → reservations_cover st.
Proof.
  intros Ho Hinv pid. rewrite Ho. unfold pendingQuantity. rewrite map_fold_empty.
  unfold reservedOf. destruct (products st !! pid) as [p|] eqn:Hp; simpl; [|done].
  apply (Hinv pid p Hp).
Qed.

Lemma reservations_along_runs_witness :
  Forall reservations_cover
    (trace [OpCheckout false TimeoutUnset 1000 9;
            OpUpdateOrderStatus 1 CANCELLED;
            OpCheckout true TimeoutUnset 5000 9;
            OpProcessPayment true 6000 "TXN-6000-Q2" 2 9]
       shopStore).
Proof.
  apply (reservations_along_runs shopStore).
  - by apply (bool_decide_unpack _).
  - by apply (bool_decide_unpack _).
  - apply reservations_cover_no_orders; [reflexivity|by apply (bool_decide_unpack _)].
  - repeat constructor.
Defined.

(** X5.  The reservation guarantee.  In a store in which every product
    satisfies [0 ≤ reservedStock ≤ stock], the orders satisfy their schema
    and the reservations cover the pending orders, every pending order can
    be paid: a payment by its owner, not after the deadline, with an unused
    transaction identifier, returns the order as PAID, in either mode; no
    item's product is missing or short of stock. *)
Theorem pending_order_payable useTransactions now txn oid o st :
  products_invariant st →
  valid_documents st →
  reservations_cover st →
  orders st !! oid = Some o →
  status o = PENDING_PAYMENT →
  now ≤ paymentDeadline o →
  txn ∉ transactionId <$> payments st →
  ∃ payment st',
    processPayment useTransactions now txn oid (userId o) st
    = (inr (set_status PAID o, payment), st').
Proof.
  intros Hinv (Hvo & _) Hcover Ho Hst Hdl Htxn.
  apply processPayment_succeeds; try done.
  intros it Hin.
  assert (Hq : Forall (λ it, 0 ≤ quantity it) (items o)).
  { eapply Forall_impl; [exact (Hvo oid o Ho)|]. simpl. intros; lia. }
  assert (Hone : 1 ≤ quantity it).
  { pose proof (Hvo oid o Ho) as Hv. unfold valid_order in Hv.
    rewrite Forall_forall in Hv. by apply Hv. }
  split; [lia|].
  pose proof (quantity_le_orderedQuantity it (items o) Hq Hin) as Hle.
  pose proof (orderedQuantity_le_pending (productId it) _ oid o Hvo Ho Hst) as Hpend.
  specialize (Hcover (productId it)). unfold reservedOf in Hcover.
  destruct (products st !! productId it) as [p|] eqn:Hp; simpl in Hcover; [|lia].
  exists p. split_and!; [done|lia|apply (Hinv _ p Hp)].
Qed.

Lemma pending_order_payable_witness :
  ∃ payment st',
    processPayment true 2000 "TXN-2000-A1" 1 9 pendingStore
    = (inr (set_status PAID (mkOrder 9 [mkOrderItem 1 2 5] 10 PENDING_PAYMENT 901000),
            payment), st').
Proof.
  apply (pending_order_payable true 2000 "TXN-2000-A1" 1
           (mkOrder 9 [mkOrderItem 1 2 5] 10 PENDING_PAYMENT 901000) pendingStore).
  - by apply (bool_decide_unpack _).
  - by apply (bool_decide_unpack _).
  - intros pid. unfold reservedOf.
    replace (pendingQuantity pid (orders pendingStore))
      with (pendingUnits pid (mkOrder 9 [mkOrderItem 1 2 5] 10 PENDING_PAYMENT 901000)
            + pendingQuantity pid ∅)
      by (symmetry; apply pendingQuantity_insert_new, lookup_empty).
    unfold pendingQuantity. rewrite map_fold_empty. unfold pendingUnits. simpl.
    destruct (decide (1%positive = pid)) as [<-|Hne]; simpl.
    + vm_compute. discriminate.
    + rewrite lookup_insert_ne by done. rewrite lookup_empty. simpl. lia.
  - reflexivity.
  - reflexivity.
  - simpl. lia.
  - simpl. apply not_elem_of_nil.
Defined.

(** ** How the operations compose *)

Lemma checkout_returns_sequential tx env now uid st r st' :
  checkout tx env now uid st = (inr r, st') →
  checkoutWithoutTransaction env now uid st = (inr r, st').
Proof.
  destruct tx; simpl; [|done]. rewrite checkoutWithTransaction_sequential.
  by destruct (checkoutWithoutTransaction _ _ _ _) as [[e1|r1] st1].
Qed.

Lemma processPayment_returns_sequential tx now txn oid uid st r st' :
  processPayment tx now txn oid uid st = (inr r, st') →
  processPaymentWithoutTransaction now txn oid uid st = (inr r, st').
Proof.
  destruct tx; simpl; [|done]. rewrite processPaymentWithTransaction_sequential.
  by destruct (processPaymentWithoutTransaction _ _ _ _ _) as [[e1|r1] st1].
Qed.

Lemma processPayment_throws_sequential tx now txn oid uid st e :
  processPaymentWithoutTransaction now txn oid uid st = (inl e, st) →
  processPayment tx now txn oid uid st = (inl e, st).
Proof.
  intros H. destruct tx; simpl; [|done].
  by rewrite processPaymentWithTransaction_sequential, H.
Qed.

(** X6.  Reserve and release cancel out.  After a checkout that returned,
    the cancellation of the new order (the expiry timer firing, in either
    mode) gives every product back exactly its counters from before the
    checkout, provided they satisfied [0 ≤ reservedStock] and the cart its
    schema: the store differs from the one before the checkout only by the
    CANCELLED order. *)
Theorem checkout_cancel_round_trip tx tx' env now uid st oid o st1 :
  products_invariant st →
  valid_cart (cartOf uid st) →
  checkout tx env now uid st = (inr (oid, o), st1) →
  ∃ st2,
    cancelOrder tx' oid st1 = (inr (Some (set_status CANCELLED o)), st2) ∧
    products st2 = products st ∧
    carts st2 = carts st ∧
    payments st2 = payments st ∧
    orders st2 = <[oid := set_status CANCELLED o]> (orders st).
Proof.
  intros Hinv Hcart Hrun.
  apply checkout_returns_sequential, checkoutWithoutTransaction_returns in Hrun
    as (_ & (Hnew & Hord) & (Hc & Hpay) & (_ & Hst) & Hall & _ & _ & Hprod).
  assert (Ho : orders st1 !! oid = Some o) by (by rewrite Hord, lookup_insert_eq).
  destruct (cancelOrderWithoutTransaction_pending oid st1 o Ho Hst)
    as (st2 & Hcancel & Hord2 & Hc2 & Hpay2 & Hprod2).
  exists st2. rewrite cancelOrder_sequential. split_and!; try congruence.
  - apply map_eq. intros pid. rewrite Hprod2, Hprod.
    destruct (products st !! pid) as [p|] eqn:Hp; simpl; [|done]. f_equal.
    unfold releasedBy, reservedBy. simpl.
    rewrite releasedStock_closed_form.
    + rewrite (orderedQuantity_cartedQuantity pid _ _ _ Hall).
      destruct p as [pr s r]; simpl. f_equal.
      pose proof (Hinv pid _ Hp) as (Hr & _). simpl in Hr. lia.
    + pose proof (Hinv pid _ Hp) as (Hr & _).
      assert (0 ≤ cartedQuantity pid (cartOf uid st)); [|lia].
      apply cartedQuantity_nonneg. eapply Forall_impl; [exact Hcart|]. simpl. intros; lia.
    + clear -Hall Hcart. induction Hall as [|line it cart new (_ & Hq & _) _ IH];
        [constructor|].
      inversion Hcart; subst. constructor; [lia|by apply IH].
  - rewrite Hord2, Hord. by rewrite insert_insert_eq.
Qed.

Lemma checkout_cancel_round_trip_witness :
  ∃ st2,
    cancelOrder true 1 pendingStore
    = (inr (Some (set_status CANCELLED
                    (mkOrder 9 [mkOrderItem 1 2 5] 10 PENDING_PAYMENT 901000))), st2) ∧
    products st2 = products shopStore ∧
    carts st2 = carts shopStore ∧
    payments st2 = payments shopStore ∧
    orders st2 = <[1%positive := set_status CANCELLED
                    (mkOrder 9 [mkOrderItem 1 2 5] 10 PENDING_PAYMENT 901000)]>
                   (orders shopStore).
Proof.
  apply (checkout_cancel_round_trip false true TimeoutUnset 1000 9 shopStore 1
           (mkOrder 9 [mkOrderItem 1 2 5] 10 PENDING_PAYMENT 901000) pendingStore).
  - by apply (bool_decide_unpack _).
  - by apply (bool_decide_unpack _).
  - reflexivity.
Defined.

(** X7.  Checkout then payment.  When a checkout returned and the payment
    of the new order then returns, each product's [stock] is its value
    before the checkout minus the units on the cart lines that reference
    it, its [reservedStock] and price are exactly as before the checkout,
    the payment's amount is the order's total as the checkout accumulated
    it (from 0, item after item, price × quantity at the prices read
    during the checkout), and the user's cart is empty. *)
Theorem checkout_then_payment tx tx' env now now' txn uid st oid o st1 paid payment st2 :
  checkout tx env now uid st = (inr (oid, o), st1) →
  processPayment tx' now' txn oid uid st1 = (inr (paid, payment), st2) →
  (∀ pid, products st2 !! pid
          = (λ p, mkProduct (price p)
                    (stock p - cartedQuantity pid (cartOf uid st))
                    (reservedStock p)) <$> products st !! pid) ∧
  (amount payment = totalAmount o ∧
   amount payment
   = foldl (λ total it, total + priceAtPurchase it * quantity it) 0 (items o)) ∧
  status paid = PAID ∧
  cartOf uid st2 = [].
Proof.
  intros Hrun Hpay.
  apply checkout_returns_sequential, checkoutWithoutTransaction_returns in Hrun
    as (_ & (Hnew & Hord) & _ & _ & Hall & Htotal & _ & Hprod).
  apply processPayment_returns_sequential, processPaymentWithoutTransaction_returns in Hpay
    as (o' & Ho' & _ & _ & _ & -> & -> & _ & _ & Hcart & Hprod2).
  rewrite Hord, lookup_insert_eq in Ho'. inversion Ho'; subst o'.
  split_and!; [|done|done|done|].
  - intros pid. rewrite Hprod2, Hprod.
    rewrite (orderedQuantity_cartedQuantity pid _ _ _ Hall).
    destruct (products st !! pid) as [p|]; simpl; [|done].
    unfold committedBy, reservedBy. simpl. do 2 f_equal. lia.
  - unfold cartOf. rewrite Hcart, lookup_alter_eq. by destruct (carts st1 !! uid).
Qed.

Lemma checkout_then_payment_witness :
  let st2 := snd (processPayment true 2000 "TXN-2000-A1" 1 9 pendingStore) in
  (∀ pid, products st2 !! pid
          = (λ p, mkProduct (price p)
                    (stock p - cartedQuantity pid (cartOf 9 shopStore))
                    (reservedStock p)) <$> products shopStore !! pid) ∧
  (amount (mkPayment 1 "TXN-2000-A1" 10 SUCCESS)
   = totalAmount (mkOrder 9 [mkOrderItem 1 2 5] 10 PENDING_PAYMENT 901000) ∧
   amount (mkPayment 1 "TXN-2000-A1" 10 SUCCESS)
   = foldl (λ total it, total + priceAtPurchase it * quantity it) 0
       (items (mkOrder 9 [mkOrderItem 1 2 5] 10 PENDING_PAYMENT 901000))) ∧
  status (set_status PAID (mkOrder 9 [mkOrderItem 1 2 5] 10 PENDING_PAYMENT 901000)) = PAID ∧
  cartOf 9 st2 = [].
Proof.
  intros st2.
  apply (checkout_then_payment false true TimeoutUnset 1000 2000 "TXN-2000-A1" 9 shopStore 1
           (mkOrder 9 [mkOrderItem 1 2 5] 10 PENDING_PAYMENT 901000) pendingStore).
  - reflexivity.
  - reflexivity.
Defined.

(** The guards of processPayment, in the order they are checked; none of
    them writes. *)
Lemma processPaymentWithoutTransaction_guards now txn oid uid st :
  match orders st !! oid with
  | None => processPaymentWithoutTransaction now txn oid uid st = (inl OrderNotFound, st)
  | Some o =>
      (userId o ≠ uid →
         processPaymentWithoutTransaction now txn oid uid st = (inl Unauthorized, st)) ∧
      (userId o = uid → status o ≠ PENDING_PAYMENT →
         processPaymentWithoutTransaction now txn oid uid st
         = (inl (InvalidState (status o)), st)) ∧
      (userId o = uid → status o = PENDING_PAYMENT → paymentDeadline o < now →
         processPaymentWithoutTransaction now txn oid uid st = (inl DeadlineExpired, st))
  end.
Proof.
  unfold processPaymentWithoutTransaction. db_simpl.
  destruct (orders st !! oid) as [o|]; [|done]. split_and!.
  - intros Hne. by rewrite decide_True.
  - intros Heq Hst. rewrite decide_False by (by intros Hn). by rewrite decide_True.
  - intros Heq Hst Hlate. rewrite decide_False by (by intros Hn).
    rewrite decide_False by (by intros Hn).
    by rewrite (proj2 (Z.ltb_lt _ _) Hlate).
Qed.

(** X8.  An order is paid at most once.  After a payment that returned,
    every further payment call for that order by its owner, in either mode,
    at any time and with any transaction identifier, throws 'Cannot process
    payment for order with status: PAID' and leaves the store as it is:
    nothing is committed twice and no second payment record is written. *)
Theorem processPayment_only_once tx now txn oid uid st r st1 :
  processPayment tx now txn oid uid st = (inr r, st1) →
  ∀ tx' now' txn',
    processPayment tx' now' txn' oid uid st1 = (inl (InvalidState PAID), st1).
Proof.
  intros Hrun tx' now' txn'. destruct r as [paid payment].
  apply processPayment_returns_sequential, processPaymentWithoutTransaction_returns in Hrun
    as (o & Ho & Hown & _ & _ & -> & _ & Hord & _).
  apply processPayment_throws_sequential.
  pose proof (processPaymentWithoutTransaction_guards now' txn' oid uid st1) as Hg.
  rewrite Hord, lookup_insert_eq in Hg. destruct Hg as (_ & Hg & _).
  by apply Hg.
Qed.

Lemma processPayment_only_once_witness :
  let st1 := snd (processPayment false 2000 "TXN-2000-A1" 1 9 pendingStore) in
  processPayment true 2500 "TXN-2500-C3" 1 9 st1 = (inl (InvalidState PAID), st1).
Proof.
  intros st1.
  apply (processPayment_only_once false 2000 "TXN-2000-A1" 1 9 pendingStore
           (set_status PAID (mkOrder 9 [mkOrderItem 1 2 5] 10 PENDING_PAYMENT 901000),
            mkPayment 1 "TXN-2000-A1" 10 SUCCESS)).
  reflexivity.
Defined.

Lemma orders_along_runs_witness :
  ∃ o', orders (step (OpProcessPayment true 2000 "TXN-2000-A1" 1 9) pendingStore) !! 1%positive
        = Some o' ∧
    sameSnapshot (mkOrder 9 [mkOrderItem 1 2 5] 10 PENDING_PAYMENT 901000) o' ∧
    rtc lifecycleStep PENDING_PAYMENT (status o').
Proof.
  pose proof (orders_along_runs pendingStore
                [OpProcessPayment true 2000 "TXN-2000-A1" 1 9]) as Hrun.
  simpl in Hrun. apply Forall_cons_1 in Hrun as (Hfirst & _).
  destruct (Hfirst 1%positive (mkOrder 9 [mkOrderItem 1 2 5] 10 PENDING_PAYMENT 901000)
              eq_refl) as (o' & Ho' & Hsnap & Hrtc & _).
  exists o'. by split_and!.
Defined.

(** ** Errors of checkout *)

Lemma checkout_throws_sequential tx env now uid st e st' :
  checkout tx env now uid st = (inl e, st') →
  ∃ st1, checkoutWithoutTransaction env now uid st = (inl e, st1).
Proof.
  destruct tx; simpl; [|by eauto].
  rewrite checkoutWithTransaction_sequential.
  destruct (checkoutWithoutTransaction env now uid st) as [[e1|r] st1]; simpl; [|done].
  intros [= <- <-]. by eauto.
Qed.

(** X9.  The errors of checkout.  A checkout that throws, in either mode,
    throws 'Cart is empty' (400), 'Insufficient stock' (400), the TypeError
    raised on a cart line whose product no longer exists (500, reading
    [_id] of the [null] that populate left), or the ValidationError of
    [Order.create] (400), the last only when the cart is not empty and the
    payment deadline computed from the environment is no date.  It never
    throws the 404 'Product ... not found' of its own loop: the loop looks
    each product up twice, in the populated cart and by [findById], and
    between the two only [reservedStock] is written.  And a cart with a
    line whose product is not in the catalogue never checks out. *)
Theorem checkout_errors tx env now uid st :
  (∀ e st', checkout tx env now uid st = (inl e, st') →
     (e = CartEmpty ∨ e = NullProductRef ∨ (∃ a, e = InsufficientStock a)
      ∨ e = ValidationError) ∧
     (e = ValidationError →
        cartOf uid st ≠ [] ∧ newDate now (paymentTimeoutMs env) = None) ∧
     e ≠ ProductNotFound ∧ statusCode e ≠ 404) ∧
  ((∃ line, line ∈ cartOf uid st ∧ products st !! cartProductId line = None) →
     ∃ e st', checkout tx env now uid st = (inl e, st')).
Proof.
  split.
  - intros e st' Hrun.
    apply checkout_throws_sequential in Hrun as (st1 & Hrun).
    apply checkoutWithoutTransaction_throws in Hrun as (_ & _ & _ & k & _ & _ & Hstop).
    destruct (cartOf uid st !! k) as [line|].
    + unfold reservationError in Hstop.
      destruct (availableAfter _ _ _) as [a|].
      * destruct (_ <? _); [|done]. inversion Hstop; subst.
        split_and!; [right; right; left; by eexists|done..].
      * inversion Hstop; subst. split_and!; [right; by left|done..].
    + destruct Hstop as (_ & Hstop). destruct (decide (cartOf uid st = [])) as [Hnil|Hne].
      * subst e. split_and!; [by left|done..].
      * destruct Hstop as (-> & Hdate). split_and!; [by do 3 right|done..].
  - intros (line & Hin & Hmissing).
    destruct (checkout tx env now uid st) as [[e|[oid o]] st'] eqn:Hrun; [eauto|].
    apply checkout_returns_sequential, checkoutWithoutTransaction_returns in Hrun
      as (_ & _ & _ & _ & Hall & _).
    exfalso. clear -Hall Hin Hmissing.
    induction Hall as [|line' it cart new (_ & _ & p & Hp & _) _ IH];
      [by apply elem_of_nil in Hin|].
    apply elem_of_cons in Hin as [->|Hin]; [congruence|by apply IH].
Qed.

Lemma checkout_errors_witness :
  ∃ e st', checkout false TimeoutUnset 3000 9 deletedProductStore = (inl e, st').
Proof.
  apply (proj2 (checkout_errors false TimeoutUnset 3000 9 deletedProductStore)).
  exists (mkCartItem 2 1). split; [|reflexivity].
  apply elem_of_cons. right. apply elem_of_cons. by left.
Defined.

(** ** A reused transaction identifier *)

(** X10.  The unique index on [transactionId] is hit last.  When a payment
    that would go through (order pending, owner calling, deadline not
    passed, every item's product holding the reservation) is given a
    transaction identifier that an earlier payment already carries, it
    throws on the duplicate key.  In the transactional mode the store is
    as it was.  In the fallback mode the items are committed and the order
    is saved as PAID before the throw: no payment record is written and the
    cart is not cleared; the order can then never be paid again. *)
Theorem processPayment_duplicate_transaction now txn oid st o :
  orders st !! oid = Some o →
  status o = PENDING_PAYMENT →
  now ≤ paymentDeadline o →
  txn ∈ transactionId <$> payments st →
  (∀ it, it ∈ items o →
     0 ≤ quantity it ∧
     ∃ p, products st !! productId it = Some p ∧
          orderedQuantity (productId it) (items o) ≤ reservedStock p ∧
          reservedStock p ≤ stock p) →
  processPayment true now txn oid (userId o) st = (inl DuplicateKey, st) ∧
  ∃ st',
    processPayment false now txn oid (userId o) st = (inl DuplicateKey, st') ∧
    orders st' = <[oid := set_status PAID o]> (orders st) ∧
    payments st' = payments st ∧
    carts st' = carts st ∧
    (∀ pid, products st' !! pid
            = committedBy (orderedQuantity pid (items o)) <$> products st !! pid) ∧
    ∀ tx' now' txn',
      processPayment tx' now' txn' oid (userId o) st' = (inl (InvalidState PAID), st').
Proof.
  intros Ho Hst Hdl Htxn Hok.
  assert (Hseq : ∃ st',
    processPaymentWithoutTransaction now txn oid (userId o) st = (inl DuplicateKey, st') ∧
    orders st' = <[oid := set_status PAID o]> (orders st) ∧
    payments st' = payments st ∧ carts st' = carts st ∧
    ∀ pid, products st' !! pid
           = committedBy (orderedQuantity pid (items o)) <$> products st !! pid).
  { unfold processPaymentWithoutTransaction. db_simpl. rewrite Ho.
    rewrite decide_False by (by intros Hn).
    rewrite decide_False by (by intros Hn).
    rewrite (proj2 (Z.ltb_ge _ _)) by lia.
    destruct (commitLoop_succeeds (items o) st Hok) as (st1 & Hrun).
    rewrite Hrun. simpl.
    destruct (commitLoop_frame _ _ _ _ Hrun) as (Hc & Hord & Hpay).
    unfold Payment_create. simpl. rewrite Hpay, decide_True by done.
    eexists. split; [reflexivity|]. simpl. rewrite Hord.
    split_and!; try done. by apply commitLoop_returns. }
  destruct Hseq as (st' & Hrun & Hord & Hpay & Hc & Hprod). split.
  - simpl. by rewrite processPaymentWithTransaction_sequential, Hrun.
  - exists st'. split_and!; try done.
    intros tx' now' txn'. apply processPayment_throws_sequential.
    pose proof (processPaymentWithoutTransaction_guards now' txn' oid (userId o) st') as Hg.
    rewrite Hord, lookup_insert_eq in Hg. destruct Hg as (_ & Hg & _).
    by apply Hg.
Qed.

Lemma processPayment_duplicate_transaction_witness :
  processPayment true 2000 "TXN-2000-A1" 1 9
    (set_payments (λ _, [mkPayment 7 "TXN-2000-A1" 30 SUCCESS]) pendingStore)
  = (inl DuplicateKey,
     set_payments (λ _, [mkPayment 7 "TXN-2000-A1" 30 SUCCESS]) pendingStore).
Proof.
  refine (proj1 (processPayment_duplicate_transaction 2000 "TXN-2000-A1" 1
           (set_payments (λ _, [mkPayment 7 "TXN-2000-A1" 30 SUCCESS]) pendingStore)
           (mkOrder 9 [mkOrderItem 1 2 5] 10 PENDING_PAYMENT 901000) _ _ _ _ _)).
  - reflexivity.
  - reflexivity.
  - simpl. lia.
  - simpl. apply elem_of_cons. by left.
  - intros it Hin. apply elem_of_cons in Hin as [->|Hin]; [|by apply elem_of_nil in Hin].
    simpl. split; [lia|]. exists (mkProduct 5 10 2). split; [reflexivity|].
    simpl. lia.
Defined.

(** * Listing orders *)

#[global] Instance newerFirst_trans createdAt : Transitive (newerFirst createdAt).
Proof. unfold newerFirst. intros a b c ? ?. lia. Qed.

#[global] Instance newerFirst_total createdAt : Total (newerFirst createdAt).
Proof. unfold newerFirst. intros a b. lia. Qed.

Lemma elem_of_matching q st e :
  e ∈ matching q st ↔ orders st !! e.1 = Some e.2 ∧ matchesQuery q e.2 = true.
Proof.
  unfold matching. rewrite list_elem_of_filter. destruct e as [oid o]. simpl.
  rewrite elem_of_map_to_list. split.
  - intros (Hm & Ho). split; [done|]. by apply Is_true_true.
  - intros (Ho & Hm). split; [|done]. by apply Is_true_true.
Qed.

Lemma NoDup_matching_ids q st : NoDup (matching q st).*1.
Proof.
  unfold matching. apply (sublist_NoDup _ (map_to_list (orders st)).*1).
  - apply NoDup_fst_map_to_list.
  - apply fmap_sublist, sublist_filter.
Qed.

Lemma Order_find_Permutation createdAt scan q st :
  rearranges scan → Order_find createdAt scan q st ≡ₚ matching q st.
Proof. intros Hscan. unfold Order_find. by rewrite merge_sort_Permutation, (Hscan _). Qed.

Lemma elem_of_Order_find createdAt scan q st e :
  rearranges scan →
  e ∈ Order_find createdAt scan q st ↔
  orders st !! e.1 = Some e.2 ∧ matchesQuery q e.2 = true.
Proof. intros Hscan. by rewrite (Order_find_Permutation _ _ _ _ Hscan), elem_of_matching. Qed.

Lemma length_Order_find createdAt scan q st :
  rearranges scan →
  Z.of_nat (length (Order_find createdAt scan q st)) = Order_countDocuments q st.
Proof.
  intros Hscan. unfold Order_countDocuments.
  by rewrite (Order_find_Permutation _ _ _ _ Hscan).
Qed.

Lemma skipLimit_sublist {A} skip limit (l : list A) : skipLimit skip limit l `sublist_of` l.
Proof. unfold skipLimit. etrans; [apply sublist_take|apply sublist_drop]. Qed.

Lemma StronglySorted_sublist {A} (R : relation A) (l k : list A) :
  l `sublist_of` k → StronglySorted R k → StronglySorted R l.
Proof.
  induction 1 as [|x l k Hsub IH|x l k Hsub IH]; intros Hk; [done| |].
  - apply StronglySorted_inv in Hk as (Hk & Hall). constructor; [by apply IH|].
    rewrite Forall_forall in *. intros y Hy. apply Hall.
    by apply (sublist_subseteq l k Hsub).
  - apply StronglySorted_inv in Hk as (Hk & _). by apply IH.
Qed.

Lemma fst_populateOrder st (l : list (ObjectId * Order)) : (populateOrder st <$> l).*1 = l.
Proof. induction l as [|e l IH]; [done|]. rewrite !fmap_cons. by rewrite IH. Qed.

(** What a page of a listing holds, whatever the query and the order in
    which the server met the documents. *)
Lemma listing_page createdAt scan q skip limit st :
  rearranges scan →
  let found := skipLimit skip limit (Order_find createdAt scan q st) in
  (∀ oid o, (oid, o) ∈ found →
     orders st !! oid = Some o ∧ matchesQuery q o = true) ∧
  StronglySorted (newerFirst createdAt) found ∧
  NoDup found.*1 ∧
  Z.of_nat (length found) ≤ Z.pos limit.
Proof.
  intros Hscan found.
  assert (Hsub : found `sublist_of` Order_find createdAt scan q st)
    by apply skipLimit_sublist.
  split_and!.
  - intros oid o Hin. apply (elem_of_Order_find createdAt scan q st (oid, o) Hscan).
    by eapply (sublist_subseteq found).
  - eapply StronglySorted_sublist; [exact Hsub|]. apply StronglySorted_merge_sort; apply _.
  - apply (sublist_NoDup _ (Order_find createdAt scan q st).*1); [|by apply fmap_sublist].
    rewrite (Order_find_Permutation _ _ _ _ Hscan). apply NoDup_matching_ids.
  - unfold found, skipLimit. rewrite length_take.
    pose proof (positive_nat_Z limit). lia.
Qed.

(** X11.  A page of getUserOrders, for a page number and a limit of 1 or
    more and whatever the order in which the server met the documents,
    lists only orders of the store that belong to the requesting user
    (never another user's order) and, when a status filter is given, have
    that status; it lists them newest first, lists no order twice, and
    holds at most [limit] orders. *)
Theorem getUserOrders_page createdAt scan uid page limit statusFilter st :
  rearranges scan →
  let found := (fst (getUserOrders createdAt scan uid page limit statusFilter st)).*1 in
  (∀ oid o, (oid, o) ∈ found →
     orders st !! oid = Some o ∧ userId o = uid ∧
     ∀ s, statusFilter = Some s → status o = s) ∧
  StronglySorted (newerFirst createdAt) found ∧
  NoDup found.*1 ∧
  Z.of_nat (length found) ≤ Z.pos limit.
Proof.
  intros Hscan found. unfold found, getUserOrders. simpl. rewrite fst_populateOrder.
  destruct (listing_page createdAt scan (mkQuery (Some uid) statusFilter)
              (skipOf page limit) limit st Hscan) as (Hin & Hsorted & Hnd & Hlen).
  split_and!; [|done|done|done].
  intros oid o Ho. destruct (Hin oid o Ho) as (Hst & Hm). split; [done|].
  unfold matchesQuery in Hm. simpl in Hm. apply andb_true_iff in Hm as (Hu & Hs).
  apply bool_decide_eq_true in Hu. split; [done|].
  intros s ->. by apply bool_decide_eq_true in Hs.
Qed.

Lemma getUserOrders_page_witness :
  let found := (fst (getUserOrders (λ oid, Z.pos oid) reverse 9 1 10 (Some CANCELLED)
                       threeOrdersStore)).*1 in
  (∀ oid o, (oid, o) ∈ found →
     orders threeOrdersStore !! oid = Some o ∧ userId o = 9%positive ∧
     ∀ s, Some CANCELLED = Some s → status o = s) ∧
  StronglySorted (newerFirst (λ oid, Z.pos oid)) found ∧
  NoDup found.*1 ∧
  Z.of_nat (length found) ≤ 10.
Proof.
  apply (getUserOrders_page (λ oid, Z.pos oid) reverse 9 1 10 (Some CANCELLED)
           threeOrdersStore).
  intros l. apply reverse_Permutation.
Defined.

(** ** Page numbers *)

Lemma ceilDiv_bounds a b :
  a ≤ Z.pos b * ceilDiv a b ∧ Z.pos b * ceilDiv a b < a + Z.pos b.
Proof.
  unfold ceilDiv.
  pose proof (Z.div_mod (- a) (Z.pos b) ltac:(lia)) as Hdm.
  pose proof (Z.mod_pos_bound (- a) (Z.pos b) ltac:(lia)) as Hmod.
  lia.
Qed.

Lemma ceilDiv_next_page total limit page :
  page < ceilDiv total limit ↔ page * Z.pos limit < total.
Proof.
  pose proof (ceilDiv_bounds total limit). nia.
Qed.

Lemma skipOf_Z page limit :
  Z.of_nat (skipOf page limit) = (Z.pos page - 1) * Z.pos limit.
Proof.
  unfold skipOf. pose proof (Pos2Nat.is_pos page).
  rewrite Nat2Z.inj_mul, Nat2Z.inj_sub by lia. rewrite !positive_nat_Z. lia.
Qed.

Lemma length_skipLimit {A} skip limit (l : list A) :
  Z.of_nat (length (skipLimit skip limit l))
  = Z.max 0 (Z.min (Z.pos limit) (Z.of_nat (length l) - Z.of_nat skip)).
Proof.
  unfold skipLimit. rewrite length_take, length_drop.
  pose proof (positive_nat_Z limit). lia.
Qed.

(** The numbers of a listing, whatever the query. *)
Lemma listing_numbers createdAt scan q page limit st :
  rearranges scan →
  let found := skipLimit (skipOf page limit) limit (Order_find createdAt scan q st) in
  let total := Order_countDocuments q st in
  let pages := ceilDiv total limit in
  (total ≤ Z.pos limit * pages ∧ Z.pos limit * pages < total + Z.pos limit) ∧
  Z.of_nat (length found)
  = Z.max 0 (Z.min (Z.pos limit) (total - (Z.pos page - 1) * Z.pos limit)) ∧
  (Z.pos page < pages ↔ Z.pos page * Z.pos limit < total) ∧
  (pages < Z.pos page → found = []).
Proof.
  intros Hscan found total pages.
  pose proof (ceilDiv_bounds total limit) as Hb. fold pages in Hb.
  assert (Hlen : Z.of_nat (length found)
                 = Z.max 0 (Z.min (Z.pos limit) (total - (Z.pos page - 1) * Z.pos limit))).
  { unfold found. rewrite length_skipLimit, skipOf_Z.
    by rewrite (length_Order_find _ _ _ _ Hscan). }
  split_and!; [apply Hb|apply Hb|done|apply ceilDiv_next_page|].
  intros Hlate. apply nil_length_inv.
  assert (total - (Z.pos page - 1) * Z.pos limit ≤ 0) by nia. lia.
Qed.

(** X12.  The pagination of getUserOrders, for a page number and a limit of
    1 or more and whatever the order in which the server met the documents:
    [totalItems] is the number of the user's orders that pass the status
    filter; [totalPages] is the least number of pages of [limit] orders
    that hold them all; the page holds
    [min(limit, totalItems - (page-1)·limit)] orders, none when that is
    negative; [hasNextPage] holds exactly when orders remain after this
    page, [hasPrevPage] exactly when [page > 1]; and a page beyond
    [totalPages] is empty. *)
Theorem getUserOrders_pagination createdAt scan uid page limit statusFilter st :
  rearranges scan →
  let found := fst (getUserOrders createdAt scan uid page limit statusFilter st) in
  let pg := snd (getUserOrders createdAt scan uid page limit statusFilter st) in
  totalItems pg = Z.of_nat (length (matching (mkQuery (Some uid) statusFilter) st)) ∧
  (totalItems pg ≤ Z.pos limit * totalPages pg ∧
   Z.pos limit * totalPages pg < totalItems pg + Z.pos limit) ∧
  Z.of_nat (length found)
  = Z.max 0 (Z.min (Z.pos limit) (totalItems pg - (Z.pos page - 1) * Z.pos limit)) ∧
  (hasNextPage pg = true ↔ Z.pos page * Z.pos limit < totalItems pg) ∧
  (hasPrevPage pg = true ↔ 1 < Z.pos page) ∧
  (totalPages pg < Z.pos page → found = []) ∧
  currentPage pg = Z.pos page ∧ itemsPerPage pg = Z.pos limit.
Proof.
  intros Hscan found pg.
  destruct (listing_numbers createdAt scan (mkQuery (Some uid) statusFilter) page limit st
              Hscan) as (Hb & Hlen & Hnext & Hlate).
  unfold found, pg, getUserOrders. cbn [fst snd]. rewrite length_fmap. simpl.
  split_and!; try done; try apply Hb.
  - by rewrite bool_decide_eq_true.
  - rewrite bool_decide_eq_true. lia.
  - intros Hlt. by rewrite (Hlate Hlt).
Qed.

Lemma getUserOrders_pagination_witness :
  let pg := snd (getUserOrders (λ oid, Z.pos oid) reverse 9 1 1 None threeOrdersStore) in
  totalItems pg = 2 ∧ totalPages pg = 2 ∧ hasNextPage pg = true ∧ hasPrevPage pg = false.
Proof.
  intros pg.
  destruct (getUserOrders_pagination (λ oid, Z.pos oid) reverse 9 1 1 None threeOrdersStore)
    as (Htotal & (Hlo & Hhi) & _ & Hnext & Hprev & _);
    [intros l; apply reverse_Permutation|].
  fold pg in Htotal, Hlo, Hhi, Hnext, Hprev.
  assert (Hitems : totalItems pg = 2) by (rewrite Htotal; reflexivity).
  split_and!; [done|lia|apply Hnext; lia|].
  destruct (hasPrevPage pg); [|done]. destruct Hprev as (Hprev & _).
  specialize (Hprev eq_refl). lia.
Defined.

(** ** The pages of a listing, put together *)

Lemma concat_pages {A} (l : list A) (m n : nat) :
  concat ((λ k, take m (drop (k * m) l)) <$> seq 0 n) = take (n * m) l.
Proof.
  induction n as [|n IH]; [done|].
  rewrite seq_S, fmap_app, concat_app, IH. simpl. rewrite app_nil_r.
  rewrite take_take_drop. f_equal. lia.
Qed.

Lemma pagesUpTo_skipLimit {A} (l : list A) limit (n : nat) :
  pagesUpTo (λ page, skipLimit (skipOf page limit) limit l) n
  = take (n * Pos.to_nat limit) l.
Proof.
  unfold pagesUpTo. rewrite <- concat_pages. f_equal.
  apply list_fmap_ext. intros _ k _. unfold skipLimit, skipOf. do 2 f_equal.
  rewrite SuccNat2Pos.id_succ. lia.
Qed.

Lemma pagesUpTo_ext {A} (f g : positive → list A) n :
  (∀ page, f page = g page) → pagesUpTo f n = pagesUpTo g n.
Proof.
  intros Hfg. unfold pagesUpTo. f_equal. apply list_fmap_ext. intros _ k _. apply Hfg.
Qed.

(** A list has at most one sorted arrangement when the order is
    antisymmetric on its elements. *)
Lemma StronglySorted_unique_on {A} (R : relation A) (l1 : list A) : ∀ l2,
  (∀ x y, x ∈ l1 → y ∈ l1 → R x y → R y x → x = y) →
  StronglySorted R l1 → StronglySorted R l2 → l1 ≡ₚ l2 → l1 = l2.
Proof.
  induction l1 as [|x l1 IH]; intros l2 Hanti H1 H2 Hperm.
  - by apply Permutation_nil_l in Hperm.
  - destruct l2 as [|y l2]; [by apply Permutation_nil_r in Hperm|].
    apply StronglySorted_inv in H1 as (H1 & Hx). apply StronglySorted_inv in H2 as (H2 & Hy).
    rewrite Forall_forall in Hx, Hy.
    assert (Hxy : x = y).
    { assert (Hxin : x ∈ y :: l2) by (rewrite <- Hperm; apply list_elem_of_here).
      assert (Hyin : y ∈ x :: l1) by (rewrite Hperm; apply list_elem_of_here).
      apply elem_of_cons in Hxin as [Heq|Hxin]; [done|].
      apply elem_of_cons in Hyin as [Heq|Hyin]; [done|].
      apply Hanti; [apply list_elem_of_here|by apply list_elem_of_further|by apply Hx|
                    by apply Hy]. }
    subst y. f_equal. apply IH; [|done|done|by apply (inj (cons x))].
    intros a b Ha Hb. apply Hanti; by apply list_elem_of_further.
Qed.

(** With distinct creation times, the sorted result of a query does not
    depend on the order in which the server met the documents. *)
Lemma Order_find_scan createdAt scan scan' q st :
  rearranges scan → rearranges scan' →
  distinctCreation createdAt st →
  Order_find createdAt scan q st = Order_find createdAt scan' q st.
Proof.
  intros Hscan Hscan' Hdistinct.
  apply (StronglySorted_unique_on (newerFirst createdAt)).
  - intros [oid o] [oid' o'] Hin Hin'.
    apply (elem_of_Order_find _ _ _ _ _ Hscan) in Hin as (Ho & _).
    apply (elem_of_Order_find _ _ _ _ _ Hscan) in Hin' as (Ho' & _).
    unfold newerFirst. simpl in *. intros Hle Hge.
    assert (oid = oid') by (apply Hdistinct; [by eauto|by eauto|lia]).
    subst oid'. rewrite Ho in Ho'. by inversion Ho'.
  - apply StronglySorted_merge_sort; apply _.
  - apply StronglySorted_merge_sort; apply _.
  - by rewrite (Order_find_Permutation _ _ _ _ Hscan), (Order_find_Permutation _ _ _ _ Hscan').
Qed.

(** X13.  The pages of getAllOrders cover the listing exactly when no two
    orders were created at the same time.  Each page comes from a query of
    its own, and the server may meet the documents in another order each
    time; with distinct creation times, for a limit of 1 or more, the pages
    1 to [totalPages], put one after the other, are the whole sorted result
    of the query: an order of the store is on one of them exactly when it
    passes the status filter (every order, without a filter), no order is
    listed twice across the pages, and the newest come first.  (With equal
    creation times the sort leaves the order of the ties to each query, and
    nothing is claimed.) *)
Theorem getAllOrders_pages createdAt (scanOf : positive → Scan) limit statusFilter st :
  (∀ page, rearranges (scanOf page)) →
  distinctCreation createdAt st →
  let pageOf := λ page,
    (fst (getAllOrders createdAt (scanOf page) page limit statusFilter st)).*1 in
  let n := Z.to_nat (totalPages (snd (getAllOrders createdAt (scanOf 1%positive) 1 limit
                                        statusFilter st))) in
  (∀ scan, rearranges scan →
     pagesUpTo pageOf n = Order_find createdAt scan (mkQuery None statusFilter) st) ∧
  (∀ oid o, (oid, o) ∈ pagesUpTo pageOf n ↔
     orders st !! oid = Some o ∧ ∀ s, statusFilter = Some s → status o = s) ∧
  NoDup (pagesUpTo pageOf n).*1 ∧
  StronglySorted (newerFirst createdAt) (pagesUpTo pageOf n).
Proof.
  intros Hscans Hdistinct pageOf n.
  assert (Hall : ∀ scan, rearranges scan →
    pagesUpTo pageOf n = Order_find createdAt scan (mkQuery None statusFilter) st).
  { intros scan Hscan.
    rewrite (pagesUpTo_ext pageOf
      (λ page, skipLimit (skipOf page limit) limit
                 (Order_find createdAt scan (mkQuery None statusFilter) st))).
    - rewrite pagesUpTo_skipLimit.
      apply take_ge. unfold n, getAllOrders. simpl.
      pose proof (ceilDiv_bounds (Order_countDocuments (mkQuery None statusFilter) st)
                    limit) as (Hb & _).
      rewrite <- (length_Order_find createdAt scan _ _ Hscan) in Hb |- *.
      assert (0 ≤ ceilDiv (Z.of_nat (length (Order_find createdAt scan
                             (mkQuery None statusFilter) st))) limit) by nia.
      nia.
    - intros page. unfold pageOf, getAllOrders. simpl. rewrite fst_populateOrder.
      f_equal. by apply Order_find_scan. }
  split; [done|].
  assert (Hid : rearranges (λ l, l)) by (by intros l).
  rewrite (Hall _ Hid). split_and!.
  - intros oid o. rewrite (elem_of_Order_find createdAt _ _ st (oid, o) Hid). simpl.
    unfold matchesQuery. simpl. destruct statusFilter as [s|]; simpl.
    + rewrite bool_decide_eq_true. split.
      * intros (Ho & Hs). split; [done|]. by intros s' [= <-].
      * intros (Ho & Hs). split; [done|]. by apply Hs.
    + split; intros (Ho & _); by split.
  - rewrite (Order_find_Permutation _ _ _ _ Hid). apply NoDup_matching_ids.
  - apply StronglySorted_merge_sort; apply _.
Qed.

Lemma getAllOrders_pages_witness :
  let pageOf := λ page, (fst (getAllOrders (λ oid, Z.pos oid) reverse page 2 None
                                threeOrdersStore)).*1 in
  pagesUpTo pageOf
    (Z.to_nat (totalPages (snd (getAllOrders (λ oid, Z.pos oid) reverse 1 2 None
                                  threeOrdersStore))))
  = Order_find (λ oid, Z.pos oid) (λ l, l) (mkQuery None None) threeOrdersStore.
Proof.
  intros pageOf.
  apply (getAllOrders_pages (λ oid, Z.pos oid) (λ _, reverse) 2 None threeOrdersStore).
  - intros _ l. apply reverse_Permutation.
  - intros oid oid' _ _ Heq. by inversion Heq.
  - by intros l.
Defined.

(** * The cart service *)

Ltac svc_unfold :=
  unfold mbind, Svc_bind, svc_bind, mret, Svc_ret, svc_ret, svc_throw,
    Product_find, Product_put, Product_remove, Cart_findOne, Cart_create, Cart_save,
    populatedCart in *.

Ltac svc_simpl := svc_unfold; simpl in *.

Lemma set_carts_id uid c st :
  carts st !! uid = Some c → set_carts (insert uid c) st = st.
Proof. intros Hc. destruct st; unfold set_carts; simpl in *. f_equal. by apply insert_id. Qed.

Lemma set_carts_set_carts uid c c' st :
  set_carts (insert uid c') (set_carts (insert uid c) st) = set_carts (insert uid c') st.
Proof. unfold set_carts; simpl. f_equal. apply insert_insert_eq. Qed.

Lemma cartOf_set_carts uid c st : cartOf uid (set_carts (insert uid c) st) = c.
Proof. unfold cartOf. simpl. by rewrite lookup_insert_eq. Qed.

(** ** The comparison of id strings *)

Lemma sameIdString_lower s it :
  lowerCase s = true → sameIdString s it ↔ cartProductId it = requestedId s.
Proof. intros Hl. unfold sameIdString. by split; [intros (_ & ?)|]. Qed.

Lemma sameIdString_upper s it : lowerCase s = false → ¬ sameIdString s it.
Proof. intros Hl (Hl' & _). congruence. Qed.

(** ** The cart that addToCart writes *)

Lemma withLine_nil s qty : withLine s qty [] = [mkCartItem (requestedId s) qty].
Proof. done. Qed.

Lemma withLine_cons s qty it rest :
  withLine s qty (it :: rest)
  = if decide (sameIdString s it)
    then mkCartItem (cartProductId it) qty :: rest
    else it :: withLine s qty rest.
Proof.
  unfold withLine. simpl. destruct (decide (sameIdString s it)); [done|].
  destruct (list_find _ rest) as [[i x]|]; by simpl.
Qed.

Lemma withLine_upper s qty cart :
  lowerCase s = false → withLine s qty cart = cart ++ [mkCartItem (requestedId s) qty].
Proof.
  intros Hl. induction cart as [|it rest IH]; [done|].
  rewrite withLine_cons. destruct (decide _) as [Hsame|_].
  - by apply sameIdString_upper in Hsame.
  - simpl. by rewrite IH.
Qed.

Lemma cartProductId_withLine s qty cart :
  lowerCase s = true →
  cartProductId <$> withLine s qty cart
  = if decide (requestedId s ∈ cartProductId <$> cart)
    then cartProductId <$> cart
    else (cartProductId <$> cart) ++ [requestedId s].
Proof.
  intros Hl. induction cart as [|it rest IH]; [done|].
  rewrite withLine_cons, !fmap_cons.
  destruct (decide (sameIdString s it)) as [(_ & Heq)|Hne].
  - rewrite decide_True by (apply elem_of_cons; by left). done.
  - assert (Hid : cartProductId it ≠ requestedId s).
    { intros Heq. apply Hne. by split. }
    rewrite fmap_cons, IH. destruct (decide (requestedId s ∈ cartProductId <$> rest))
      as [Hin|Hnin].
    + rewrite decide_True by (apply elem_of_cons; by right). done.
    + rewrite decide_False; [done|]. intros Hin. apply elem_of_cons in Hin as [?|?]; congruence.
Qed.

Lemma withLine_NoDup s qty cart :
  lowerCase s = true →
  NoDup (cartProductId <$> cart) → NoDup (cartProductId <$> withLine s qty cart).
Proof.
  intros Hl Hnd. rewrite cartProductId_withLine by done.
  destruct (decide _) as [|Hnin]; [done|].
  apply NoDup_app. split_and!; [done| |apply NoDup_singleton].
  intros x Hx Hx'. apply list_elem_of_singleton in Hx'. by subst.
Qed.

Lemma cartedQuantity_app pid (l k : list CartItem) :
  cartedQuantity pid (l ++ k) = cartedQuantity pid l + cartedQuantity pid k.
Proof. induction l as [|it l IH]; simpl; [done|]. rewrite IH. lia. Qed.

Lemma cartedQuantity_withLine_other s pid' qty cart :
  pid' ≠ requestedId s →
  cartedQuantity pid' (withLine s qty cart) = cartedQuantity pid' cart.
Proof.
  intros Hne. induction cart as [|it rest IH].
  - simpl. by rewrite decide_False.
  - rewrite withLine_cons. destruct (decide (sameIdString s it)) as [(_ & Heq)|Hne'].
    + simpl. rewrite !decide_False by congruence. done.
    + simpl. by rewrite IH.
Qed.

Lemma cartedQuantity_withLine_same s qty cart :
  lowerCase s = true →
  NoDup (cartProductId <$> cart) →
  cartedQuantity (requestedId s) (withLine s qty cart) = qty.
Proof.
  intros Hl. induction cart as [|it rest IH]; intros Hnd.
  - simpl. rewrite decide_True by done. lia.
  - rewrite fmap_cons in Hnd. apply NoDup_cons in Hnd as (Hnin & Hnd).
    rewrite withLine_cons. destruct (decide (sameIdString s it)) as [(_ & Heq)|Hne].
    + simpl. rewrite decide_True by done. rewrite cartedQuantity_absent; [lia|].
      apply Forall_forall. intros x Hx Hpid. apply Hnin. rewrite Heq, <- Hpid.
      by apply list_elem_of_fmap_2.
    + assert (Hid : cartProductId it ≠ requestedId s).
      { intros Heq. apply Hne. by split. }
      simpl. rewrite decide_False by done. rewrite IH by done. lia.
Qed.

Lemma withLine_valid s qty cart :
  1 ≤ qty → valid_cart cart → valid_cart (withLine s qty cart).
Proof.
  intros Hq. unfold valid_cart. induction 1 as [|it rest Hit Hrest IH].
  - by repeat constructor.
  - rewrite withLine_cons. destruct (decide _); by constructor.
Qed.

Lemma withLine_withLine s q1 q2 cart :
  lowerCase s = true →
  withLine s q2 (withLine s q1 cart) = withLine s q2 cart.
Proof.
  intros Hl. induction cart as [|it rest IH].
  - rewrite withLine_nil, withLine_cons. simpl. by rewrite decide_True.
  - rewrite !withLine_cons. destruct (decide (sameIdString s it)) as [Hsame|Hne].
    + rewrite withLine_cons. simpl. rewrite decide_True; [done|].
      destruct Hsame. by split.
    + rewrite withLine_cons, decide_False by done. by rewrite IH.
Qed.

Lemma withLine_quantity s qty cart :
  ∃ it, it ∈ withLine s qty cart ∧ cartQuantity it = qty.
Proof.
  induction cart as [|it rest (x & Hx & Hq)].
  - exists (mkCartItem (requestedId s) qty). split; [apply list_elem_of_here|done].
  - rewrite withLine_cons. destruct (decide _).
    + eexists. split; [apply list_elem_of_here|done].
    + exists x. split; [by apply list_elem_of_further|done].
Qed.

Lemma withLine_invalid s qty cart :
  qty < 1 → ¬ valid_cart (withLine s qty cart).
Proof.
  intros Hq Hv. destruct (withLine_quantity s qty cart) as (it & Hin & Hit).
  unfold valid_cart in Hv. rewrite Forall_forall in Hv. specialize (Hv it Hin). lia.
Qed.

Lemma withLine_length s qty cart :
  lowerCase s = true → requestedId s ∈ cartProductId <$> cart →
  length (withLine s qty cart) = length cart.
Proof.
  intros Hl Hin.
  pose proof (f_equal length (cartProductId_withLine s qty cart Hl)) as Hlen.
  rewrite decide_True in Hlen by done. by rewrite !length_fmap in Hlen.
Qed.

(** ** The cart that removeFromCart writes *)

Lemma filter_withLine s qty cart :
  lowerCase s = true →
  filter (λ it, ¬ sameIdString s it) (withLine s qty cart)
  = filter (λ it, ¬ sameIdString s it) cart.
Proof.
  intros Hl. induction cart as [|it rest IH].
  - rewrite withLine_nil. rewrite filter_cons_False; [done|].
    intros Hn. apply Hn. by split.
  - rewrite withLine_cons. destruct (decide (sameIdString s it)) as [Hsame|Hne].
    + rewrite !filter_cons_False; [done|by intros Hn|].
      intros Hn. apply Hn. destruct Hsame. by split.
    + rewrite !filter_cons_True by done. by rewrite IH.
Qed.

Lemma filter_kept s (cart : list CartItem) :
  lowerCase s = false ∨ requestedId s ∉ cartProductId <$> cart →
  filter (λ it, ¬ sameIdString s it) cart = cart.
Proof.
  intros Hkeep. induction cart as [|it rest IH]; [done|].
  rewrite filter_cons_True.
  - rewrite IH; [done|]. destruct Hkeep as [Hl|Hnin]; [by left|right].
    rewrite fmap_cons in Hnin. by apply not_elem_of_cons in Hnin as (_ & ?).
  - intros (Hl & Heq). destruct Hkeep as [Hl'|Hnin]; [congruence|].
    apply Hnin. rewrite fmap_cons, Heq. apply list_elem_of_here.
Qed.

Lemma filter_removed s (cart : list CartItem) :
  lowerCase s = true →
  requestedId s ∉ cartProductId <$> filter (λ it, ¬ sameIdString s it) cart.
Proof.
  intros Hl Hin. apply list_elem_of_fmap in Hin as (it & Hid & Hin).
  apply list_elem_of_filter in Hin as (Hne & _). apply Hne. by split.
Qed.

Lemma filter_filter_same s (cart : list CartItem) :
  filter (λ it, ¬ sameIdString s it) (filter (λ it, ¬ sameIdString s it) cart)
  = filter (λ it, ¬ sameIdString s it) cart.
Proof.
  induction cart as [|it rest IH]; [done|].
  destruct (decide (sameIdString s it)) as [Hsame|Hne].
  - rewrite (filter_cons_False _ it) by (by intros Hn). done.
  - rewrite (filter_cons_True _ it) by done. rewrite filter_cons_True by done.
    by rewrite IH.
Qed.

Lemma cartedQuantity_filter_other s pid' (cart : list CartItem) :
  pid' ≠ requestedId s →
  cartedQuantity pid' (filter (λ it, ¬ sameIdString s it) cart) = cartedQuantity pid' cart.
Proof.
  intros Hne. induction cart as [|it rest IH]; [done|].
  destruct (decide (sameIdString s it)) as [Hsame|Hne'].
  - pose proof Hsame as (_ & Heq).
    rewrite filter_cons_False by (by intros Hn). simpl.
    rewrite decide_False by congruence. rewrite IH. lia.
  - rewrite filter_cons_True by done. simpl. by rewrite IH.
Qed.

Lemma filter_valid s (cart : list CartItem) :
  valid_cart cart → valid_cart (filter (λ it, ¬ sameIdString s it) cart).
Proof.
  unfold valid_cart. rewrite !Forall_forall. intros Hv it Hin.
  apply list_elem_of_filter in Hin as (_ & Hin). by apply Hv.
Qed.

Lemma filter_NoDup s (cart : list CartItem) :
  NoDup (cartProductId <$> cart) →
  NoDup (cartProductId <$> filter (λ it, ¬ sameIdString s it) cart).
Proof.
  intros Hnd. eapply sublist_NoDup; [exact Hnd|]. apply fmap_sublist, sublist_filter.
Qed.

Lemma fst_populated (products : gmap ObjectId Product) (cart : list CartItem) :
  ((λ it, (it, products !! cartProductId it)) <$> cart).*1 = cart.
Proof. induction cart as [|it l IH]; [done|]. rewrite !fmap_cons. by rewrite IH. Qed.

(** ** addToCart *)

(** addToCart, when the product is there with enough available stock. *)
Lemma addToCart_runs uid s qty st p :
  products st !! requestedId s = Some p →
  qty ≤ stock p - reservedStock p →
  addToCart uid s qty st
  = if bool_decide (valid_cart (withLine s qty (cartOf uid st)))
    then (inr ((λ it, (it, products st !! cartProductId it))
                 <$> withLine s qty (cartOf uid st)),
          set_carts (insert uid (withLine s qty (cartOf uid st))) st)
    else (inl ValidationFailed,
          if carts st !! uid is Some _ then st else set_carts (insert uid []) st).
Proof.
  intros Hp Hq. unfold addToCart, cartOf, withLine. svc_simpl. rewrite Hp.
  rewrite (proj2 (Z.ltb_ge _ _)) by lia.
  destruct (carts st !! uid) as [c|] eqn:Hc; simpl.
  - destruct (list_find _ c) as [[i x]|]; simpl.
    + by destruct (bool_decide _).
    + by destruct (bool_decide _).
  - destruct (bool_decide _); [|done]. simpl. by rewrite set_carts_set_carts.
Qed.

(** A call of addToCart that returns: the product is there, the quantity
    is within the available stock, and the user's cart is replaced. *)
Lemma addToCart_returns uid s qty st r st1 :
  addToCart uid s qty st = (inr r, st1) →
  ∃ p, products st !! requestedId s = Some p ∧
    qty ≤ stock p - reservedStock p ∧
    valid_cart (withLine s qty (cartOf uid st)) ∧
    r = (λ it, (it, products st !! cartProductId it)) <$> withLine s qty (cartOf uid st) ∧
    st1 = set_carts (insert uid (withLine s qty (cartOf uid st))) st.
Proof.
  intros Hadd.
  destruct (products st !! requestedId s) as [p|] eqn:Hp;
    [|unfold addToCart in Hadd; svc_simpl; by rewrite Hp in Hadd].
  destruct (decide (qty ≤ stock p - reservedStock p)) as [Hq|Hq];
    [|unfold addToCart in Hadd; svc_simpl; rewrite Hp in Hadd;
      by rewrite (proj2 (Z.ltb_lt _ _)) in Hadd by lia].
  rewrite (addToCart_runs uid s qty st p Hp Hq) in Hadd.
  destruct (bool_decide (valid_cart _)) eqn:Hv; [|done].
  apply bool_decide_eq_true_1 in Hv. inversion Hadd; subst r st1.
  by exists p.
Qed.

(** X14.  What addToCart refuses.  Without the product it throws 'Product
    not found'; when the product's available stock, [stock - reservedStock]
    (units reserved by unpaid orders do not count), is below the quantity,
    it throws 'Insufficient stock' with the available number; neither
    writes.  A quantity below 1 that passes both is refused by the cart
    schema on save, after an empty cart has been created for a user who had
    none. *)
Theorem addToCart_refusals uid productId qty st :
  (products st !! requestedId productId = None →
     addToCart uid productId qty st = (inl NoSuchProduct, st)) ∧
  (∀ p, products st !! requestedId productId = Some p → stock p - reservedStock p < qty →
     addToCart uid productId qty st
     = (inl (NotEnoughStock (stock p - reservedStock p)), st)) ∧
  (∀ p, products st !! requestedId productId = Some p →
     qty ≤ stock p - reservedStock p → qty < 1 →
     addToCart uid productId qty st
     = (inl ValidationFailed,
        if carts st !! uid is Some _ then st else set_carts (insert uid []) st)).
Proof.
  split_and!.
  - intros Hp. unfold addToCart. svc_simpl. by rewrite Hp.
  - intros p Hp Hlt. unfold addToCart. svc_simpl. rewrite Hp.
    by rewrite (proj2 (Z.ltb_lt _ _)) by lia.
  - intros p Hp Hq Hlt. rewrite (addToCart_runs uid productId qty st p Hp Hq).
    rewrite bool_decide_eq_false_2; [done|by apply withLine_invalid].
Qed.

Lemma addToCart_refusals_witness :
  addToCart 9 (idString 1) 9 pendingStore = (inl (NotEnoughStock 8), pendingStore).
Proof.
  apply (proj1 (proj2 (addToCart_refusals 9 (idString 1) 9 pendingStore))
           (mkProduct 5 10 2)).
  - reflexivity.
  - simpl. lia.
Defined.

(** X15.  What addToCart writes.  With the product in the catalogue, a
    stored cart within the schema bounds and [1 ≤ quantity ≤ available
    stock], the call returns and writes the user's cart only: no stock is
    reserved, no other cart, order or payment is touched; the lines of
    other products are as before and quantities stay at 1 or more.  The
    line of the product is looked for by comparing the id string of the
    request with [toString()] of the stored ids.  When the string is in
    lower-case digits, the product's line gets exactly the given quantity,
    whatever it held before (the quantity is set, not added), and a cart
    with one line per product still has one line per product.  When the
    string has an upper-case letter the comparison never matches: a new
    line is appended even if the cart holds the product, the product's
    carted units grow by the quantity, and the cart then has two lines of
    the product. *)
Theorem addToCart_sets_line uid productId qty st p :
  products st !! requestedId productId = Some p →
  valid_cart (cartOf uid st) →
  1 ≤ qty →
  qty ≤ stock p - reservedStock p →
  let pid := requestedId productId in
  let cart := cartOf uid st in
  let cart' := withLine productId qty cart in
  (∃ r, addToCart uid productId qty st = (inr r, set_carts (insert uid cart') st) ∧
        r.*1 = cart') ∧
  cartOf uid (set_carts (insert uid cart') st) = cart' ∧
  (∀ pid', pid' ≠ pid → cartedQuantity pid' cart' = cartedQuantity pid' cart) ∧
  valid_cart cart' ∧
  (lowerCase productId = true →
     (pid ∈ cartProductId <$> cart → length cart' = length cart) ∧
     (NoDup (cartProductId <$> cart) →
        NoDup (cartProductId <$> cart') ∧ cartedQuantity pid cart' = qty)) ∧
  (lowerCase productId = false →
     cart' = cart ++ [mkCartItem pid qty] ∧
     cartedQuantity pid cart' = cartedQuantity pid cart + qty ∧
     (pid ∈ cartProductId <$> cart → ¬ NoDup (cartProductId <$> cart'))).
Proof.
  intros Hp Hv Hq1 Hq pid cart cart'.
  assert (Hv' : valid_cart cart') by by apply withLine_valid.
  split; [|split; [|split; [|split; [|split]]]].
  - rewrite (addToCart_runs uid productId qty st p Hp Hq).
    rewrite bool_decide_eq_true_2 by done. eexists. split; [reflexivity|].
    apply fst_populated.
  - apply cartOf_set_carts.
  - intros pid' Hne. by apply cartedQuantity_withLine_other.
  - done.
  - intros Hl. split.
    + intros Hin. by apply withLine_length.
    + intros Hnd. split; [by apply withLine_NoDup|by apply cartedQuantity_withLine_same].
  - intros Hl. unfold cart'. rewrite (withLine_upper _ _ _ Hl). split_and!.
    + done.
    + rewrite cartedQuantity_app. simpl. rewrite decide_True by done. lia.
    + intros Hin Hnd. rewrite fmap_app in Hnd. apply NoDup_app in Hnd as (_ & Hnd & _).
      apply (Hnd pid Hin). simpl. apply list_elem_of_here.
Qed.

Lemma addToCart_sets_line_witness :
  (∃ r, addToCart 9 (mkProductIdString 1 false) 7 shopStore
        = (inr r, set_carts (insert 9%positive
                     (withLine (mkProductIdString 1 false) 7 (cartOf 9 shopStore)))
                     shopStore) ∧
        r.*1 = withLine (mkProductIdString 1 false) 7 (cartOf 9 shopStore)) ∧
  withLine (mkProductIdString 1 false) 7 (cartOf 9 shopStore)
  = cartOf 9 shopStore ++ [mkCartItem 1 7].
Proof.
  destruct (addToCart_sets_line 9 (mkProductIdString 1 false) 7 shopStore (mkProduct 5 10 0))
    as (Hrun & _ & _ & _ & _ & Hupper).
  - reflexivity.
  - by vm_compute; repeat constructor.
  - lia.
  - simpl. lia.
  - split; [exact Hrun|]. by destruct (Hupper eq_refl) as (Happ & _).
Defined.

(** X16.  Adding a product again.  When two calls of addToCart with the
    same id string both return: if the string is in lower-case digits the
    second call replaces the quantity, and the store is as the second call
    alone would leave it; if the string has an upper-case letter each call
    appends a line, and the cart ends with two more lines than it had. *)
Theorem addToCart_twice uid productId q1 q2 st r1 st1 r2 st2 :
  addToCart uid productId q1 st = (inr r1, st1) →
  addToCart uid productId q2 st1 = (inr r2, st2) →
  (lowerCase productId = true →
     ∃ r, addToCart uid productId q2 st = (inr r, st2)) ∧
  (lowerCase productId = false →
     cartOf uid st2
     = cartOf uid st ++ [mkCartItem (requestedId productId) q1;
                         mkCartItem (requestedId productId) q2]).
Proof.
  intros H1 H2.
  apply addToCart_returns in H1 as (p & Hp & Hq1 & Hv1 & _ & ->).
  apply addToCart_returns in H2 as (p' & Hp' & Hq2 & Hv2 & _ & ->).
  simpl in Hp'. rewrite Hp in Hp'. inversion Hp'; subst p'.
  rewrite !cartOf_set_carts in *. rewrite set_carts_set_carts. split.
  - intros Hl. rewrite (withLine_withLine _ _ _ _ Hl) in *.
    rewrite (addToCart_runs uid productId q2 st p Hp Hq2).
    rewrite bool_decide_eq_true_2 by done. by eexists.
  - intros Hl. rewrite !(withLine_upper _ _ _ Hl). by rewrite <- app_assoc.
Qed.

Lemma addToCart_twice_witness :
  ∃ r, addToCart 9 (idString 1) 3 shopStore
       = (inr r, snd (addToCart 9 (idString 1) 3 (snd (addToCart 9 (idString 1) 7 shopStore)))).
Proof.
  edestruct (addToCart_twice 9 (idString 1) 7 3 shopStore) as (Hlower & _);
    [vm_compute; reflexivity|vm_compute; reflexivity|].
  exact (Hlower eq_refl).
Defined.

(** ** removeFromCart *)

Lemma removeFromCart_runs uid s st c :
  carts st !! uid = Some c →
  valid_cart c →
  removeFromCart uid s st
  = (inr ((λ it, (it, products st !! cartProductId it))
            <$> filter (λ it, ¬ sameIdString s it) c),
     set_carts (insert uid (filter (λ it, ¬ sameIdString s it) c)) st).
Proof.
  intros Hc Hv. unfold removeFromCart. svc_simpl. rewrite Hc.
  rewrite bool_decide_eq_true_2 by by apply filter_valid. done.
Qed.

Lemma checkout_empty_cart tx env now uid st :
  cartOf uid st = [] → checkout tx env now uid st = (inl CartEmpty, st).
Proof.
  intros Hempty.
  assert (Hseq : checkoutWithoutTransaction env now uid st = (inl CartEmpty, st)).
  { unfold checkoutWithoutTransaction, cartOf in *. db_simpl.
    destruct (carts st !! uid) as [cart|]; simpl in *; [|done]. by subst cart. }
  destruct tx; simpl; [|done].
  by rewrite checkoutWithTransaction_sequential, Hseq.
Qed.

(** X17.  removeFromCart.  Without a cart document it throws 'Cart not
    found' and writes nothing.  On a stored cart it returns and writes that
    cart only; the lines of other products are as before.  The lines to
    drop are found by comparing the id string of the request with
    [toString()] of the stored ids.  When the string is in lower-case
    digits no line of the product is left.  When it has an upper-case
    letter nothing matches: the call succeeds and the store is unchanged,
    as it is when the product is not in the cart.  A second removal changes
    nothing. *)
Theorem removeFromCart_effect uid productId st :
  (carts st !! uid = None → removeFromCart uid productId st = (inl NoSuchCart, st)) ∧
  (∀ c, carts st !! uid = Some c → valid_cart c →
     let pid := requestedId productId in
     let c' := filter (λ it, ¬ sameIdString productId it) c in
     let st' := set_carts (insert uid c') st in
     (∃ r, removeFromCart uid productId st = (inr r, st') ∧ r.*1 = c') ∧
     (∀ pid', pid' ≠ pid → cartedQuantity pid' c' = cartedQuantity pid' c) ∧
     (lowerCase productId = true →
        (pid ∉ cartProductId <$> c') ∧ cartedQuantity pid c' = 0) ∧
     (lowerCase productId = false ∨ (pid ∉ cartProductId <$> c) → st' = st) ∧
     snd (removeFromCart uid productId st') = st').
Proof.
  split.
  - intros Hc. unfold removeFromCart. svc_simpl. by rewrite Hc.
  - intros c Hc Hv pid c' st'. split; [|split; [|split; [|split]]].
    + rewrite (removeFromCart_runs uid productId st c Hc Hv). eexists. split; [done|].
      apply fst_populated.
    + intros pid' Hne. by apply cartedQuantity_filter_other.
    + intros Hl. pose proof (filter_removed productId c Hl) as Hnin. split; [done|].
      apply cartedQuantity_absent, Forall_forall. intros it Hin Heq.
      apply Hnin. apply list_elem_of_fmap. exists it. by split.
    + intros Hkeep. unfold st', c'. rewrite filter_kept by done. by apply set_carts_id.
    + assert (Hc' : carts st' !! uid = Some c') by (simpl; by rewrite lookup_insert_eq).
      rewrite (removeFromCart_runs uid productId st' c' Hc') by by apply filter_valid.
      simpl. apply set_carts_id. rewrite Hc'. f_equal. symmetry.
      apply filter_filter_same.
Qed.

Lemma removeFromCart_effect_witness :
  ∃ r, removeFromCart 9 (idString 1) shopStore
       = (inr r, set_carts (insert 9%positive []) shopStore) ∧ r.*1 = [].
Proof.
  refine (proj1 (proj2 (removeFromCart_effect 9 (idString 1) shopStore)
                   [mkCartItem 1 2] _ _)).
  - reflexivity.
  - by repeat constructor.
Defined.

(** X18.  addToCart then removeFromCart, with the same id string, for a
    product that was not in the user's stored cart.  When the string is in
    lower-case digits the store is as before the two calls.  When it has
    an upper-case letter the removal matches nothing and the added line
    stays in the cart. *)
Theorem addToCart_removeFromCart uid productId qty st c r st1 :
  carts st !! uid = Some c →
  requestedId productId ∉ cartProductId <$> c →
  addToCart uid productId qty st = (inr r, st1) →
  (lowerCase productId = true →
     ∃ r', removeFromCart uid productId st1 = (inr r', st) ∧ r'.*1 = c) ∧
  (lowerCase productId = false →
     ∃ r', removeFromCart uid productId st1 = (inr r', st1) ∧
           r'.*1 = c ++ [mkCartItem (requestedId productId) qty]).
Proof.
  intros Hc Hnin Hadd.
  apply addToCart_returns in Hadd as (p & Hp & Hq & Hv & _ & ->).
  assert (Hcart : cartOf uid st = c) by (unfold cartOf; by rewrite Hc).
  rewrite Hcart in *.
  pose proof (removeFromCart_runs uid productId
                (set_carts (insert uid (withLine productId qty c)) st)
                (withLine productId qty c)) as Hrun.
  simpl in Hrun. rewrite lookup_insert_eq in Hrun. specialize (Hrun eq_refl Hv).
  rewrite Hrun. split.
  - intros Hl. rewrite (filter_withLine _ _ _ Hl), filter_kept by (by right).
    rewrite set_carts_set_carts. rewrite (set_carts_id uid c st Hc).
    eexists. split; [done|]. apply fst_populated.
  - intros Hl. rewrite filter_kept by (by left). rewrite set_carts_set_carts.
    eexists. split; [done|]. rewrite fst_populated. by apply withLine_upper.
Qed.

Lemma addToCart_removeFromCart_witness :
  ∃ r', removeFromCart 8 (idString 1)
          (snd (addToCart 8 (idString 1) 3 (snd (getCart 8 shopStore))))
        = (inr r', snd (getCart 8 shopStore)) ∧ r'.*1 = [].
Proof.
  edestruct (addToCart_removeFromCart 8 (idString 1) 3 (snd (getCart 8 shopStore)) [])
    as (Hlower & _);
    [reflexivity|vm_compute; by intros Hin%elem_of_nil|vm_compute; reflexivity|].
  exact (Hlower eq_refl).
Defined.

Lemma getCart_store uid st :
  getCart uid st
  = (inr (match carts st !! uid with
          | Some c => (λ it, (it, products st !! cartProductId it)) <$> c
          | None => []
          end),
     set_carts (insert uid (cartOf uid st)) st).
Proof.
  unfold getCart, cartOf. svc_simpl. destruct (carts st !! uid) as [c|] eqn:Hc; simpl.
  - by rewrite set_carts_id.
  - done.
Qed.

(** X19.  getCart is a read that may write.  It never throws and returns
    the user's lines in order; for a user without a cart document it stores
    an empty cart, and it writes nothing else: the lines that checkout will
    read are the same before and after, a second call changes nothing, and a
    checkout right after the first getCart of a new user throws 'Cart is
    empty'. *)
Theorem getCart_creates uid st :
  let st' := set_carts (insert uid (cartOf uid st)) st in
  (∃ r, getCart uid st = (inr r, st') ∧ r.*1 = cartOf uid st) ∧
  cartOf uid st' = cartOf uid st ∧
  (is_Some (carts st !! uid) → st' = st) ∧
  snd (getCart uid st') = st' ∧
  (carts st !! uid = None →
   ∀ tx env now, checkout tx env now uid st' = (inl CartEmpty, st')).
Proof.
  intros st'. split_and!.
  - rewrite getCart_store. eexists. split; [done|].
    unfold cartOf. destruct (carts st !! uid); [apply fst_populated|done].
  - apply cartOf_set_carts.
  - intros [c Hc]. unfold st', cartOf. rewrite Hc. by apply set_carts_id.
  - rewrite getCart_store. simpl. unfold st'. rewrite cartOf_set_carts.
    apply set_carts_set_carts.
  - intros Hc tx env now. apply checkout_empty_cart.
    unfold st'. rewrite cartOf_set_carts. unfold cartOf. by rewrite Hc.
Qed.

Lemma getCart_creates_witness :
  checkout true TimeoutUnset 1000 8 (set_carts (insert 8%positive (cartOf 8 shopStore)) shopStore)
  = (inl CartEmpty, set_carts (insert 8%positive (cartOf 8 shopStore)) shopStore).
Proof.
  apply (proj2 (proj2 (proj2 (proj2 (getCart_creates 8 shopStore))))). reflexivity.
Defined.

(** X20.  clearCart.  Without a cart document it throws 'Cart not found';
    otherwise it returns the emptied cart and the store differs only in that
    cart.  After it a checkout throws 'Cart is empty' and writes nothing, in
    both modes. *)
Theorem clearCart_effect uid st :
  (carts st !! uid = None → clearCart uid st = (inl NoSuchCart, st)) ∧
  (is_Some (carts st !! uid) →
     let st' := set_carts (insert uid []) st in
     clearCart uid st = (inr [], st') ∧
     ∀ tx env now, checkout tx env now uid st' = (inl CartEmpty, st')).
Proof.
  split.
  - intros Hc. unfold clearCart. svc_simpl. by rewrite Hc.
  - intros [c Hc] st'. split.
    + unfold clearCart. svc_simpl. by rewrite Hc.
    + intros tx env now. apply checkout_empty_cart. apply cartOf_set_carts.
Qed.

Lemma clearCart_effect_witness :
  clearCart 9 shopStore = (inr [], set_carts (insert 9%positive []) shopStore) ∧
  checkout true TimeoutUnset 1000 9 (set_carts (insert 9%positive []) shopStore)
  = (inl CartEmpty, set_carts (insert 9%positive []) shopStore).
Proof.
  destruct (proj2 (clearCart_effect 9 shopStore)) as (Hrun & Hcheckout); [by eexists|].
  split; [exact Hrun|apply Hcheckout].
Defined.

Lemma cartStep_carts c st :
  products (cartStep c st) = products st ∧
  orders (cartStep c st) = orders st ∧
  payments (cartStep c st) = payments st ∧
  (carts (cartStep c st) = carts st ∨
   ∃ uid, carts (cartStep c st) = <[uid := cartOf uid st]> (carts st) ∨
          carts (cartStep c st) = <[uid := []]> (carts st) ∨
          (∃ s, carts (cartStep c st)
                = <[uid := filter (λ it, ¬ sameIdString s it) (cartOf uid st)]> (carts st)) ∨
          (∃ s qty, c = CallAddToCart uid s qty ∧
             valid_cart (withLine s qty (cartOf uid st)) ∧
             carts (cartStep c st) = <[uid := withLine s qty (cartOf uid st)]> (carts st))).
Proof.
  destruct c as [uid|uid s qty|uid s|uid]; simpl.
  - rewrite getCart_store. simpl. split_and!; [done..|]. right. exists uid. by left.
  - destruct (products st !! requestedId s) as [p|] eqn:Hp;
      [|unfold addToCart; svc_simpl; rewrite Hp; simpl; split_and!; [done..|by left]].
    destruct (decide (qty ≤ stock p - reservedStock p)) as [Hq|Hq];
      [|unfold addToCart; svc_simpl; rewrite Hp;
        rewrite (proj2 (Z.ltb_lt _ _)) by lia; simpl; split_and!; [done..|by left]].
    rewrite (addToCart_runs uid s qty st p Hp Hq).
    destruct (bool_decide (valid_cart _)) eqn:Hv; simpl.
    + apply bool_decide_eq_true_1 in Hv. split_and!; [done..|].
      right. exists uid. do 3 right. by exists s, qty.
    + destruct (carts st !! uid) as [c|] eqn:Hc; simpl; (split_and!; [done..|]).
      * by left.
      * right. exists uid. by right; left.
  - unfold removeFromCart. svc_simpl. destruct (carts st !! uid) as [c|] eqn:Hc; simpl;
      [|split_and!; [done..|by left]].
    destruct (bool_decide _); simpl; (split_and!; [done..|]); [|by left].
    right. exists uid. do 2 right. left. exists s. unfold cartOf. by rewrite Hc.
  - unfold clearCart. svc_simpl. destruct (carts st !! uid) as [c|] eqn:Hc; simpl;
      (split_and!; [done..|]); [|by left].
    right. exists uid. by right; left.
Qed.

Lemma cartOf_valid uid st :
  map_Forall (λ _ c, valid_cart c) (carts st) → valid_cart (cartOf uid st).
Proof.
  intros Hv. unfold cartOf. destruct (carts st !! uid) as [c|] eqn:Hc; simpl.
  - exact (Hv uid c Hc).
  - constructor.
Qed.

Lemma cartOf_wellformed uid st :
  carts_wellformed st → cart_wellformed (cartOf uid st).
Proof.
  intros Hwf. unfold cartOf. destruct (carts st !! uid) as [c|] eqn:Hc; simpl.
  - exact (Hwf uid c Hc).
  - split; [constructor|]. simpl. constructor.
Qed.

Lemma cartStep_valid c st :
  map_Forall (λ _ c, valid_cart c) (carts st) →
  map_Forall (λ _ c, valid_cart c) (carts (cartStep c st)).
Proof.
  intros Hv.
  destruct (cartStep_carts c st) as (_ & _ & _ & [Heq|(uid & Hcases)]); [by rewrite Heq|].
  destruct Hcases as [Heq|[Heq|[(s & Heq)|(s & qty & _ & Hv' & Heq)]]];
    rewrite Heq; apply map_Forall_insert_2; try done.
  - by apply cartOf_valid.
  - constructor.
  - by apply filter_valid, cartOf_valid.
Qed.

Lemma cartStep_wellformed c st :
  lowerCaseCall c →
  carts_wellformed st → carts_wellformed (cartStep c st).
Proof.
  intros Hlower Hwf. pose proof (cartOf_wellformed) as Hof.
  destruct (cartStep_carts c st) as (_ & _ & _ & [Heq|(uid & Hcases)]);
    unfold carts_wellformed; [by rewrite Heq|].
  destruct Hcases as [Heq|[Heq|[(s & Heq)|(s & qty & -> & Hv & Heq)]]];
    rewrite Heq; apply map_Forall_insert_2; try done.
  - by apply Hof.
  - split; [constructor|simpl; constructor].
  - destruct (Hof uid st Hwf) as (Hv & Hnd).
    split; [by apply filter_valid|by apply filter_NoDup].
  - destruct (Hof uid st Hwf) as (Hv' & Hnd).
    split; [done|by apply withLine_NoDup].
Qed.

(** X21.  What the cart service keeps and never touches.  Along every
    sequence of getCart, addToCart, removeFromCart and clearCart calls,
    returning or throwing, the catalogue, the orders and the payments are
    unchanged (putting a product in a cart reserves nothing), and stored
    carts whose quantities are 1 or more stay so.  When every addToCart of
    the sequence carries its product id in lower-case digits, stored carts
    with one line per product stay so as well; an id with an upper-case
    letter can add a second line of a product (see X15), so without that
    condition nothing is claimed about the lines per product. *)
Theorem cart_service_along_runs cs st :
  products (cartRun cs st) = products st ∧
  orders (cartRun cs st) = orders st ∧
  payments (cartRun cs st) = payments st ∧
  (map_Forall (λ _ c, valid_cart c) (carts st) →
   map_Forall (λ _ c, valid_cart c) (carts (cartRun cs st))) ∧
  (Forall lowerCaseCall cs → carts_wellformed st → carts_wellformed (cartRun cs st)).
Proof.
  revert st. induction cs as [|c cs IH]; intros st; [done|].
  unfold cartRun in *. simpl.
  destruct (IH (cartStep c st)) as (Hp & Ho & Hpay & Hv & Hwf).
  destruct (cartStep_carts c st) as (Hp1 & Ho1 & Hpay1 & _).
  split_and!; [congruence..| |].
  - intros Hst. by apply Hv, cartStep_valid.
  - intros Hlower Hst. apply Forall_cons in Hlower as (Hc & Hcs).
    apply Hwf; [done|]. by apply cartStep_wellformed.
Qed.

Lemma cart_service_along_runs_witness :
  carts_wellformed
    (cartRun [CallAddToCart 9 (idString 1) 3; CallAddToCart 9 (idString 2) 2;
              CallAddToCart 9 (idString 1) 0; CallRemoveFromCart 9 (idString 2);
              CallGetCart 8] shopStore).
Proof.
  apply (proj2 (proj2 (proj2 (proj2 (cart_service_along_runs _ shopStore))))).
  - by repeat constructor.
  - intros uid c Hc. unfold shopStore in Hc. simpl in Hc.
    apply lookup_insert_Some in Hc as [[_ <-]|[_ Hc]]; [|done].
    split; [by repeat constructor|].
    simpl. apply NoDup_singleton.
Defined.

(** X22.  From the cart to the order.  A product added by a returning
    addToCart to a cart that was missing or empty can be checked out at
    once, in both modes, when the payment deadline computed from the
    environment is a date: the order has exactly that line at the product's
    current price, its total is price times quantity, its deadline is that
    date, and the product's reservedStock has grown by the quantity while
    its stock is unchanged.  (When the deadline is no date the checkout
    throws the ValidationError of X9.) *)
Theorem addToCart_then_checkout tx env now uid productId qty st p r st1 deadline :
  products st !! requestedId productId = Some p →
  cartOf uid st = [] →
  addToCart uid productId qty st = (inr r, st1) →
  newDate now (paymentTimeoutMs env) = Some deadline →
  let pid := requestedId productId in
  ∃ oid o st2,
    checkout tx env now uid st1 = (inr (oid, o), st2) ∧
    items o = [mkOrderItem pid qty (price p)] ∧
    totalAmount o = price p * qty ∧
    paymentDeadline o = deadline ∧
    status o = PENDING_PAYMENT ∧
    products st2 = <[pid := reservedBy qty p]> (products st) ∧
    1 ≤ qty ≤ stock p - reservedStock p.
Proof.
  intros Hp Hempty Hadd Hdate pid.
  apply addToCart_returns in Hadd as (p' & Hp' & Hq & Hv & _ & ->).
  rewrite Hp in Hp'. inversion Hp'; subst p'.
  rewrite Hempty, withLine_nil in *. fold pid in Hv |- *.
  assert (Hq1 : 1 ≤ qty) by (by inversion Hv).
  set (st1 := set_carts _ st).
  assert (Hcart : cartOf uid st1 = [mkCartItem pid qty]) by apply cartOf_set_carts.
  destruct (checkout_succeeds tx env now uid st1 deadline) as (oid & o & st2 & Hrun).
  { by rewrite Hcart. }
  { rewrite Hcart. apply reservedLines_NoDup; [simpl; apply NoDup_singleton|].
    intros line Hin. apply list_elem_of_singleton in Hin. subst line.
    exists p. by split. }
  { done. }
  exists oid, o, st2. split; [done|].
  apply checkout_returns_sequential, checkoutWithoutTransaction_returns in Hrun
    as (_ & _ & _ & (_ & Hst) & Hitems & Htotal & Hdate' & Hprod).
  rewrite Hcart in Hitems, Hprod.
  destruct (items o) as [|it its] eqn:Hio; [by inversion Hitems|].
  apply Forall2_cons in Hitems as ((Hpid & Hqty & p' & Hp'' & Hprice) & Hrest).
  apply Forall2_nil_inv_l in Hrest. subst its.
  simpl in Hp''. fold pid in Hp. rewrite Hp in Hp''. inversion Hp''; subst p'.
  assert (Hit : it = mkOrderItem pid qty (price p)).
  { destruct it; simpl in *. by subst. }
  split_and!; [by rewrite Hit|rewrite Htotal, Hit; unfold subtotals; simpl; lia|congruence
              |done| |done|done].
  apply map_eq. intros pid'. rewrite Hprod. simpl.
  destruct (decide (pid' = pid)) as [->|Hne].
  - rewrite decide_True, lookup_insert_eq, Hp by done. simpl. f_equal. f_equal. lia.
  - rewrite decide_False, lookup_insert_ne by done.
    destruct (products st !! pid') as [p'|]; [|done]. simpl.
    replace (0 + 0) with 0 by lia. by rewrite reservedBy_0.
Qed.

Lemma addToCart_then_checkout_witness :
  ∃ oid o st2,
    checkout true TimeoutUnset 1000 8 (snd (addToCart 8 (idString 1) 3 shopStore))
    = (inr (oid, o), st2) ∧
    items o = [mkOrderItem 1 3 5] ∧
    totalAmount o = 5 * 3 ∧
    paymentDeadline o = 901000 ∧
    status o = PENDING_PAYMENT ∧
    products st2 = <[1%positive := reservedBy 3 (mkProduct 5 10 0)]> (products shopStore) ∧
    1 ≤ 3 ≤ 10 - 0.
Proof.
  eapply (addToCart_then_checkout true TimeoutUnset 1000 8 (idString 1) 3 shopStore
            (mkProduct 5 10 0)).
  - reflexivity.
  - reflexivity.
  - vm_compute. reflexivity.
  - vm_compute. reflexivity.
Defined.

(** * The product service *)

Lemma orderedQuantity_absent pid (l : list OrderItem) :
  pid ∉ productId <$> l → orderedQuantity pid l = 0.
Proof.
  induction l as [|it l IH]; intros Hnin; [done|].
  rewrite fmap_cons in Hnin. apply not_elem_of_cons in Hnin as (Hne & Hnin).
  simpl. rewrite decide_False by done. rewrite IH by done. lia.
Qed.

(** After a commit loop that returned, every product of the order is in the
    catalogue with counters that are not negative. *)
Lemma commitLoop_returns_stock l : ∀ st st',
  commitLoop l st = (inr tt, st') →
  ∀ it, it ∈ l →
    ∃ p', products st' !! productId it = Some p' ∧ 0 ≤ stock p' ∧ 0 ≤ reservedStock p'.
Proof.
  induction l as [|item rest IH]; intros st st' H it Hin; [by apply elem_of_nil in Hin|].
  simpl in H. db_simpl.
  destruct (products st !! productId item) as [p|] eqn:Hp; [|by inversion H].
  destruct (_ || _) eqn:Hneg; [by inversion H|].
  apply orb_false_iff in Hneg as (Hr & Hs). apply Z.ltb_ge in Hr, Hs.
  destruct (decide (productId it ∈ productId <$> rest)) as [Hin'|Hnin].
  - apply list_elem_of_fmap in Hin' as (y & Hy & Hyin). rewrite Hy. by eapply IH.
  - apply elem_of_cons in Hin as [->|Hin]; [|by destruct Hnin; apply list_elem_of_fmap_2].
    rewrite (commitLoop_returns _ _ _ H). rewrite orderedQuantity_absent by done.
    simpl. rewrite lookup_insert_eq. simpl. eexists. split; [done|]. simpl. lia.
Qed.

Lemma processPaymentWithoutTransaction_commits now txn oid uid st r st' :
  processPaymentWithoutTransaction now txn oid uid st = (inr r, st') →
  ∃ o st1, orders st !! oid = Some o ∧ commitLoop (items o) st = (inr tt, st1).
Proof.
  unfold processPaymentWithoutTransaction. db_simpl.
  destruct (orders st !! oid) as [o|] eqn:Ho; [|done].
  destruct (decide _) as [|Hown]; [done|].
  destruct (decide _) as [|Hst]; [done|].
  destruct (_ <? _) eqn:Hlate; [done|].
  destruct (commitLoop _ _) as [[e1|[]] st1] eqn:Hloop; [done|].
  intros _. by exists o, st1.
Qed.

(** An order with an item whose product is gone, or has fewer units in
    stock than the order holds of it, cannot be paid. *)
Lemma processPayment_blocked tx now txn oid uid st o it :
  orders st !! oid = Some o →
  it ∈ items o →
  (products st !! productId it = None ∨
   ∃ p, products st !! productId it = Some p ∧
        stock p < orderedQuantity (productId it) (items o)) →
  ∃ e st', processPayment tx now txn oid uid st = (inl e, st').
Proof.
  intros Ho Hin Hcase.
  destruct (processPayment tx now txn oid uid st) as [[e|r] st'] eqn:Hrun; [eauto|].
  exfalso. apply processPayment_returns_sequential in Hrun.
  destruct (processPaymentWithoutTransaction_commits _ _ _ _ _ _ _ Hrun)
    as (o' & st1 & Ho' & Hloop).
  rewrite Ho in Ho'. inversion Ho'; subst o'.
  destruct (commitLoop_returns_stock _ _ _ Hloop it Hin) as (p' & Hp' & Hs & _).
  rewrite (commitLoop_returns _ _ _ Hloop) in Hp'.
  destruct Hcase as [Hnone|(p & Hp & Hlt)].
  - by rewrite Hnone in Hp'.
  - rewrite Hp in Hp'. simpl in Hp'. inversion Hp'; subst p'. simpl in Hs. lia.
Qed.

Lemma checkout_missing_product tx env now uid st line :
  line ∈ cartOf uid st →
  products st !! cartProductId line = None →
  ∃ e st', checkout tx env now uid st = (inl e, st').
Proof.
  intros Hin Hmissing.
  destruct (checkout tx env now uid st) as [[e|[oid o]] st'] eqn:Hrun; [eauto|].
  apply checkout_returns_sequential, checkoutWithoutTransaction_returns in Hrun
    as (_ & _ & _ & _ & Hall & _).
  exfalso. clear -Hall Hin Hmissing.
  induction Hall as [|line' it cart new (_ & _ & p & Hp & _) _ IH];
    [by apply elem_of_nil in Hin|].
  apply elem_of_cons in Hin as [->|Hin]; [congruence|by apply IH].
Qed.

Lemma updateProduct_runs pid upd st p :
  products st !! pid = Some p →
  updateProduct pid upd st
  = if updateTextValid upd && validProduct (assignUpdate upd p)
    then (inr (assignUpdate upd p), set_products (insert pid (assignUpdate upd p)) st)
    else (inl ValidationFailed, st).
Proof.
  intros Hp. unfold updateProduct. svc_simpl. rewrite Hp.
  by destruct (_ && _).
Qed.

(** X23.  updateProduct can set the stock below the reservations.  An
    update of a stored product that passes the validators, gives a new
    [stock] and does not name [reservedStock], returns and writes that
    product only, keeping its [reservedStock]: nothing compares the new
    stock with the units reserved by unpaid orders, so the stock invariant
    holds afterwards exactly when [reservedStock ≤ stock] happens to hold.
    Every order that holds more units of the product than the new stock can
    then no longer be paid, in either mode. *)
Theorem updateProduct_below_reservation pid upd st p s :
  products st !! pid = Some p →
  validProduct p = true →
  updateTextValid upd = true →
  0 ≤ default (price p) (updatePrice upd) →
  updateStock upd = Some s →
  updateReservedStock upd = None →
  0 ≤ s →
  ∃ p' st',
    updateProduct pid upd st = (inr p', st') ∧
    (stock p' = s ∧ reservedStock p' = reservedStock p) ∧
    (products st' = <[pid := p']> (products st) ∧ carts st' = carts st ∧
     orders st' = orders st ∧ payments st' = payments st) ∧
    (stock_invariant p' ↔ reservedStock p ≤ s) ∧
    ∀ oid o, orders st !! oid = Some o →
      s < orderedQuantity pid (items o) →
      ∀ tx now txn uid, ∃ e st'', processPayment tx now txn oid uid st' = (inl e, st'').
Proof.
  intros Hp Hvalid Htext Hprice Hstock Hres Hs.
  exists (assignUpdate upd p), (set_products (insert pid (assignUpdate upd p)) st).
  assert (Hp' : assignUpdate upd p
                = mkProduct (default (price p) (updatePrice upd)) s (reservedStock p)).
  { unfold assignUpdate. by rewrite Hstock, Hres. }
  unfold validProduct in Hvalid. apply andb_true_iff in Hvalid as (Hvalid & Hr).
  apply Z.leb_le in Hr.
  split_and!.
  - rewrite (updateProduct_runs pid upd st p Hp), Htext, Hp'. unfold validProduct. simpl.
    by rewrite !(proj2 (Z.leb_le _ _)) by lia.
  - by rewrite Hp'.
  - by rewrite Hp'.
  - done.
  - done.
  - done.
  - done.
  - rewrite Hp'. unfold stock_invariant. simpl. split; [by intros (_ & ?)|by split].
  - intros oid o Ho Hlt tx now txn uid.
    destruct (decide (pid ∈ productId <$> items o)) as [Hin|Hnin];
      [|rewrite orderedQuantity_absent in Hlt by done; lia].
    apply list_elem_of_fmap in Hin as (it & Hpid & Hin).
    apply (processPayment_blocked tx now txn oid uid _ o it); [done|done|].
    right. exists (assignUpdate upd p). rewrite <- Hpid.
    split; [apply lookup_insert_eq|by rewrite Hp'].
Qed.

Lemma updateProduct_below_reservation_witness :
  ∃ p' st',
    updateProduct 1 (mkProductUpdate true None (Some 1) None) pendingStore = (inr p', st') ∧
    (stock p' = 1 ∧ reservedStock p' = 2) ∧
    ∃ e st'', processPayment true 2000 "t1" 1 9 st' = (inl e, st'').
Proof.
  destruct (updateProduct_below_reservation 1 (mkProductUpdate true None (Some 1) None)
              pendingStore (mkProduct 5 10 2) 1)
    as (p' & st' & Hrun & Hp' & _ & _ & Hblocked);
    [reflexivity|reflexivity|reflexivity|simpl; lia|reflexivity|reflexivity|lia|].
  exists p', st'. split_and!; [done|apply Hp'|apply Hp'|].
  apply (Hblocked 1%positive (mkOrder 9 [mkOrderItem 1 2 5] 10 PENDING_PAYMENT 901000)).
  - reflexivity.
  - simpl. lia.
Defined.

(** X24.  deleteProduct does not look at reservations, carts or orders.
    Without the product it throws 'Product not found'; otherwise it removes
    the product and nothing else, whatever is reserved.  Afterwards every
    order with an item of the product can no longer be paid, a pending one
    can still be cancelled (the release skips the missing product, which
    does not come back), and a cart with a line of the product no longer
    checks out. *)
Theorem deleteProduct_effect pid st :
  (products st !! pid = None → deleteProduct pid st = (inl NoSuchProduct, st)) ∧
  (∀ p, products st !! pid = Some p →
     let st' := set_products (delete pid) st in
     deleteProduct pid st = (inr p, st') ∧
     (∀ oid o, orders st !! oid = Some o → pid ∈ productId <$> items o →
        (∀ tx now txn uid, ∃ e st'', processPayment tx now txn oid uid st' = (inl e, st'')) ∧
        (status o = PENDING_PAYMENT →
         ∀ tx, ∃ st'', cancelOrder tx oid st' = (inr (Some (set_status CANCELLED o)), st'') ∧
                       products st'' !! pid = None)) ∧
     (∀ uid, pid ∈ cartProductId <$> cartOf uid st →
        ∀ tx env now, ∃ e st'', checkout tx env now uid st' = (inl e, st''))).
Proof.
  split.
  - intros Hp. unfold deleteProduct. svc_simpl. by rewrite Hp.
  - intros p Hp st'. split_and!.
    + unfold deleteProduct. svc_simpl. by rewrite Hp.
    + intros oid o Ho Hin. apply list_elem_of_fmap in Hin as (it & Hpid & Hin). split.
      * intros tx now txn uid.
        apply (processPayment_blocked tx now txn oid uid st' o it); [done|done|].
        left. rewrite <- Hpid. simpl. apply lookup_delete_eq.
      * intros Hst tx. rewrite cancelOrder_sequential.
        destruct (cancelOrderWithoutTransaction_pending oid st' o Ho Hst)
          as (st1 & Hrun & _ & _ & _ & Hprod).
        exists st1. split; [done|]. rewrite Hprod. simpl. by rewrite lookup_delete_eq.
    + intros uid Hin tx env now. apply list_elem_of_fmap in Hin as (line & Hpid & Hin).
      apply (checkout_missing_product tx env now uid st' line); [done|].
      rewrite <- Hpid. simpl. apply lookup_delete_eq.
Qed.

Lemma deleteProduct_effect_witness :
  deleteProduct 1 pendingStore = (inr (mkProduct 5 10 2), set_products (delete 1%positive) pendingStore) ∧
  ∃ e st'', processPayment true 2000 "t1" 1 9 (set_products (delete 1%positive) pendingStore)
            = (inl e, st'').
Proof.
  destruct (proj2 (deleteProduct_effect 1 pendingStore) (mkProduct 5 10 2))
    as (Hrun & Horders & _); [reflexivity|].
  split; [exact Hrun|].
  refine (proj1 (Horders 1%positive
            (mkOrder 9 [mkOrderItem 1 2 5] 10 PENDING_PAYMENT 901000) _ _) true 2000 "t1" 9%positive).
  - reflexivity.
  - apply list_elem_of_here.
Defined.

(** X25.  createProduct.  Data that fail a validator (a negative price,
    stock or reservedStock, or bad text fields) are refused without a write.
    Otherwise the product is stored under an id that no product had, so no
    stored product, cart, order or payment changes; when the data do not
    name [reservedStock] the new product has none reserved, all of its stock
    is available to carts (addToCart returns for any quantity from 1 to the
    stock, whatever the letter case of the id string), and the stock
    invariant of the catalogue is kept. *)
Theorem createProduct_effect data st :
  let product := mkProduct (dataPrice data) (default 0 (dataStock data))
                   (default 0 (dataReservedStock data)) in
  (dataTextValid data = false ∨ dataPrice data < 0 ∨ stock product < 0
   ∨ reservedStock product < 0 →
   createProduct data st = (inl ValidationFailed, st)) ∧
  (dataTextValid data = true → 0 ≤ dataPrice data → 0 ≤ stock product →
   0 ≤ reservedStock product →
   ∃ pid st',
     createProduct data st = (inr (pid, product), st') ∧
     products st !! pid = None ∧
     products st' = <[pid := product]> (products st) ∧
     (∀ pid' p, products st !! pid' = Some p → products st' !! pid' = Some p) ∧
     carts st' = carts st ∧ orders st' = orders st ∧ payments st' = payments st ∧
     (dataReservedStock data = None →
        (products_invariant st → products_invariant st') ∧
        ∀ uid productId qty,
          requestedId productId = pid →
          valid_cart (cartOf uid st) → 1 ≤ qty ≤ stock product →
          ∃ r st'', addToCart uid productId qty st' = (inr r, st''))).
Proof.
  intros product. split.
  - intros Hbad. unfold createProduct. fold product.
    replace (dataTextValid data && validProduct product) with false; [done|].
    symmetry. apply andb_false_iff. unfold validProduct.
    rewrite !andb_false_iff, !Z.leb_gt. simpl in *. tauto.
  - intros Htext Hprice Hstock Hres.
    set (pid := fresh (dom (products st))).
    assert (Hfresh : products st !! pid = None).
    { apply not_elem_of_dom. apply is_fresh. }
    exists pid, (set_products (insert pid product) st).
    split_and!; try done.
    + unfold createProduct. fold product. rewrite Htext. unfold validProduct.
      simpl in *. by rewrite !(proj2 (Z.leb_le _ _)) by lia.
    + intros pid' p Hp. simpl. rewrite lookup_insert_ne; [done|]. congruence.
    + intros Hnone. split.
      * intros Hinv. apply map_Forall_insert_2; [|done].
        unfold stock_invariant, product in *. simpl in *. rewrite Hnone. simpl. lia.
      * intros uid productId qty Hid Hv Hq.
        assert (Hp : products (set_products (insert pid product) st) !! requestedId productId
                     = Some product)
          by (rewrite Hid; simpl; apply lookup_insert_eq).
        rewrite (addToCart_runs uid productId qty _ product Hp)
          by (unfold product in *; simpl in *; rewrite Hnone; simpl; lia).
        rewrite bool_decide_eq_true_2; [by eauto|].
        apply withLine_valid; [lia|done].
Qed.

Lemma createProduct_effect_witness :
  ∃ pid st',
    createProduct (mkProductData true 4 (Some 6) None) shopStore
    = (inr (pid, mkProduct 4 6 0), st') ∧
    products shopStore !! pid = None.
Proof.
  destruct (proj2 (createProduct_effect (mkProductData true 4 (Some 6) None) shopStore))
    as (pid & st' & Hrun & Hnone & _); [reflexivity|simpl; lia|simpl; lia|simpl; lia|].
  by exists pid, st'.
Defined.
